(** * Technical-indicator engine, signal scorer and financial metrics

    A shallow embedding of the computational core of the stock-market
    dashboard client: [utils.js] (indicators, resamplers, metric helpers),
    [apiAdapter.js] (peer filtering) and the scoring effect of
    [useTechnicalAnalysis.js].

    Numbers.  JavaScript numbers are IEEE doubles.  The embedding works in
    exact arithmetic: a finite number is a canonical rational [Qc].  Where
    the source inspects or can produce the special values ([NaN],
    [Infinity], [null], [undefined]) they are modelled explicitly ([num],
    [jsval], [option]).  Rounding, overflow and the sign of zero are outside
    the model.  In the indicator library a division by a zero period is [0]
    here and [NaN] in the source: the lengths of the results agree, their
    entries are meaningful for periods of at least 1 only (the callers use
    9, 12, 14, 20, 26, 50 and 200). *)

From Stdlib Require Import QArith Qcanon Qcabs Qround ZArith List Lia Lqa.
From Stdlib Require Import Strings.String Strings.Ascii DecimalString.
From Stdlib Require Floats.PrimFloat Floats.SpecFloat Floats.FloatOps.
From stdpp Require Import base numbers list strings gmap.

Local Open Scope Qc_scope.

(** ** Exact numbers *)

Module Num.

(** Literals: [qc 1.1] is the rational 11/10. *)
Definition qc (q : Q) : Qc := Q2Qc q.

Definition of_nat (n : nat) : Qc := Q2Qc (inject_Z (Z.of_nat n)).

(** The comparison operators of the source on finite numbers. *)
Definition gtb (x y : Qc) : bool := bool_decide (y < x).
Definition ltb (x y : Qc) : bool := bool_decide (x < y).
Definition eqb (x y : Qc) : bool := bool_decide (x = y).

(** [arr.reduce((acc, val) => acc + val, 0)] *)
Definition sum (l : list Qc) : Qc := fold_left Qcplus l 0.

(** [arr.slice(a, b)] for [0 <= a <= b]. *)
Definition slice {A} (l : list A) (a b : nat) : list A :=
  firstn (b - a) (skipn a l).

End Num.

Import Num.

(** ** Indicator library ([utils.js]) *)

Module Indicators.

(** [calculateSMAInternal].  The source loop runs [i] from [period - 1]
    to [data.length - 1] and averages [data.slice(i - period + 1, i + 1)];
    below [s] is the window start [i - period + 1]. *)
Definition calculateSMAInternal (data : list Qc) (period : nat) : list Qc :=
  if (length data <? period)%nat then []
  else
    map (fun s => sum (slice data s (s + period)) / of_nat period)
        (seq 0 (length data - period + 1)).

(** Body of the [for (let i = period; i < data.length; i++)] loop of
    [calculateEMAInternal]: [rest] is [data[period..]], [cur] the running
    [currentEma]. *)
Fixpoint ema_loop (k cur : Qc) (rest : list Qc) : list Qc :=
  match rest with
  | [] => []
  | x :: rest' =>
      let cur' := x * k + cur * (1 - k) in
      cur' :: ema_loop k cur' rest'
  end.

Definition ema_k (period : nat) : Qc := qc 2 / of_nat (period + 1).

Definition calculateEMAInternal (data : list Qc) (period : nat) : list Qc :=
  if (length data <? period)%nat then []
  else
    let k := ema_k period in
    let currentEma := sum (slice data 0 period) / of_nat period in
    currentEma :: ema_loop k currentEma (skipn period data).

(** [calculateStandardDeviationInternal], population standard deviation
    of every trailing window.  [Math.sqrt] is a primitive of the host
    language with irrational results; it is a parameter here. *)
Section StdDev.
Variable sqrt : Qc -> Qc.

Definition calculateStandardDeviationInternal
    (data : list Qc) (period : nat) : list Qc :=
  if (length data <? period)%nat then []
  else
    map (fun s =>
           let slice := slice data s (s + period) in
           let mean := sum slice / of_nat period in
           let variance :=
             fold_left (fun acc val => acc + (val - mean) ^ 2) slice 0
             / of_nat period in
           sqrt variance)
        (seq 0 (length data - period + 1)).

Record bands := { upper : list Qc; middle : list Qc; lower : list Qc }.

(** [calculateBollingerBandsInternal].  [middleBand[i]] and
    [stdDevs[i]] are read by index, as in the source. *)
Definition calculateBollingerBandsInternal
    (data : list Qc) (period : nat) (numStdDev : Qc) : bands :=
  if (length data <? period)%nat
  then {| upper := []; middle := []; lower := [] |}
  else
    let middleBand := calculateSMAInternal data period in
    let stdDevs := calculateStandardDeviationInternal data period in
    let idx := seq 0 (length middleBand) in
    {| upper := map (fun i => nth i middleBand 0
                              + nth i stdDevs 0 * numStdDev) idx;
       middle := middleBand;
       lower := map (fun i => nth i middleBand 0
                              - nth i stdDevs 0 * numStdDev) idx |}.
End StdDev.

(** [calculateRSIInternal].  First loop: sums of gains and losses over
    the first [period] changes. *)
Definition rsi_init_step (data : list Qc) (acc : Qc * Qc) (i : nat)
    : Qc * Qc :=
  let '(gains, losses) := acc in
  let change := nth i data 0 - nth (i - 1) data 0 in
  if gtb change 0 then (gains + change, losses)
  else (gains, losses + Qcabs change).

(** [100 - 100 / (1 + rs)] with [rs = avgLoss === 0 ? Infinity :
    avgGain / avgLoss]; [100 / (1 + Infinity)] is [0]. *)
Definition rsi_value (avgGain avgLoss : Qc) : Qc :=
  if eqb avgLoss 0 then qc 100 - 0
  else qc 100 - qc 100 / (1 + avgGain / avgLoss).

(** Second loop: Wilder smoothing, one RSI value pushed per iteration. *)
Definition rsi_step (data : list Qc) (period : nat)
    (st : Qc * Qc * list Qc) (i : nat) : Qc * Qc * list Qc :=
  let '(avgGain, avgLoss, rsiValues) := st in
  let change := nth i data 0 - nth (i - 1) data 0 in
  let currentGain := if gtb change 0 then change else 0 in
  let currentLoss := if gtb change 0 then 0 else Qcabs change in
  let avgGain' :=
    (avgGain * of_nat (period - 1) + currentGain) / of_nat period in
  let avgLoss' :=
    (avgLoss * of_nat (period - 1) + currentLoss) / of_nat period in
  (avgGain', avgLoss', rsiValues ++ [rsi_value avgGain' avgLoss']).

Definition calculateRSIInternal (data : list Qc) (period : nat) : list Qc :=
  if (length data <? period + 1)%nat then []
  else
    let '(gains, losses) :=
      fold_left (rsi_init_step data) (seq 1 period) (0, 0) in
    let avgGain := gains / of_nat period in
    let avgLoss := losses / of_nat period in
    snd (fold_left (rsi_step data period)
                   (seq (period + 1) (length data - (period + 1)))
                   (avgGain, avgLoss, [])).

(** A cell of a price or volume array handed to the volume indicators:
    [None] is a cell that fails [x !== null && !isNaN(x)] ([null], [NaN]
    or [undefined]); in a result, [None] is [null]. *)
Definition cell := option Qc.

(** Inner loop of [calculateRollingVWAPInternal]: [j] runs over
    [0 .. period-1] and reads index [i - j]; cells failing the validity
    test are skipped. *)
Definition vwap_inner (prices volumes : list cell) (i : nat)
    (acc : Qc * Qc) (j : nat) : Qc * Qc :=
  let '(sumPriceVolume, sumVolume) := acc in
  let index := (i - j)%nat in
  match prices !! index, volumes !! index with
  | Some (Some p), Some (Some v) => (sumPriceVolume + p * v, sumVolume + v)
  | _, _ => (sumPriceVolume, sumVolume)
  end.

Definition vwap_at (prices volumes : list cell) (period i : nat) : cell :=
  let '(sumPriceVolume, sumVolume) :=
    fold_left (vwap_inner prices volumes i) (seq 0 period) (0, 0) in
  if gtb sumVolume 0 then Some (sumPriceVolume / sumVolume) else None.

Definition calculateRollingVWAPInternal
    (prices volumes : list cell) (period : nat) : list cell :=
  if negb (length prices =? length volumes)%nat
     || (length prices <? period)%nat
  then replicate (length prices) None
  else
    fold_left (fun vwapValues i =>
                 <[i := vwap_at prices volumes period i]> vwapValues)
              (seq (period - 1) (length prices - (period - 1)))
              (replicate (length prices) None).

End Indicators.

Import Indicators.

(** ** Resampler ([utils.js]) *)

Module Resample.

(** A timestamp is what [new Date(timestamp).getTime()] yields: epoch
    milliseconds. *)
Definition epoch_ms := Z.

(** The numbers of the host, as far as the resamplers use them: the
    addition [a + b] and the literal [0].  Prices are only copied and
    volumes only added, so the code is the same for every number type;
    [exact] reads it in exact rational arithmetic, [binary64] with the
    doubles of the host. *)
Class Addition (N : Type) := { js_add : N -> N -> N; js_zero : N }.

#[global] Instance exact : Addition Qc :=
  {| js_add := Qcplus; js_zero := 0 |}.

#[global] Instance binary64 : Addition PrimFloat.float :=
  {| js_add := PrimFloat.add; js_zero := PrimFloat.zero |}.


Record weekly (N : Type) := {
  weeklyTimestamps : list epoch_ms;
  weeklyPrices : list N;
  weeklyVolumes : list N }.

Record monthly (N : Type) := {
  monthlyTimestamps : list epoch_ms;
  monthlyPrices : list N;
  monthlyVolumes : list N }.

Arguments Build_weekly {N}.
Arguments weeklyTimestamps {N}.
Arguments weeklyPrices {N}.
Arguments weeklyVolumes {N}.
Arguments Build_monthly {N}.
Arguments monthlyTimestamps {N}.
Arguments monthlyPrices {N}.
Arguments monthlyVolumes {N}.

Definition MS_PER_WEEK : Z := 7 * 24 * 60 * 60 * 1000.

(** The calendar methods of the host [Date] object read the local time
    zone; they are the parameters of this section.  [UTC] below is the
    instance for a host running in UTC. *)
Section WithCalendar.
Context {N : Type} `{Addition N}.
(** [d.getDay()]: 0 for Sunday, 1 for Monday, ... *)
Variable getDay : epoch_ms -> Z.
(** [d.setDate(d.getDate() + k)] *)
Variable addDays : epoch_ms -> Z -> epoch_ms.
(** [d.setHours(0, 0, 0, 0)] *)
Variable startOfDay : epoch_ms -> epoch_ms.
Variable getFullYear : epoch_ms -> Z.
Variable getMonth : epoch_ms -> Z.
(** [new Date(year, month, 1, 0, 0, 0, 0)] *)
Variable firstOfMonth : Z -> Z -> epoch_ms.

(** The Monday adjustment applied to a fresh [currentWeekStartTime]. *)
Definition weekStart (date : epoch_ms) : epoch_ms :=
  let dayOfWeek := getDay date in
  startOfDay
    (addDays date (- dayOfWeek + (if (dayOfWeek =? 0)%Z then -6 else 1))%Z).

(** Loop state of [resampleToWeeklyInternal]. *)
Record wstate := {
  currentWeekStartTime : option epoch_ms;
  currentWeekClose : option N;
  currentWeekVolumeSum : N;
  wout : weekly N }.

Definition wstate0 : wstate :=
  {| currentWeekStartTime := None; currentWeekClose := None;
     currentWeekVolumeSum := js_zero;
     wout := {| weeklyTimestamps := []; weeklyPrices := [];
                weeklyVolumes := [] |} |}.

(** One iteration of the loop on day [(timestamp, price)] with volume
    [volume]; [next] is the timestamp of day [i + 1], [None] on the
    last day. *)
Definition weekly_step (st : wstate) (timestamp : epoch_ms)
    (price volume : N) (next : option epoch_ms) : wstate :=
  let start :=
    match currentWeekStartTime st with
    | None => weekStart timestamp
    | Some s => s
    end in
  let close := price in
  let volumeSum := js_add (currentWeekVolumeSum st) volume in
  let isLastDay := bool_decide (next = None) in
  let nextDayIsInNewWeek :=
    match next with
    | None => false
    | Some nextTs => (start + MS_PER_WEEK <=? startOfDay nextTs)%Z
    end in
  if isLastDay || nextDayIsInNewWeek then
    {| currentWeekStartTime := None; currentWeekClose := None;
       currentWeekVolumeSum := js_zero;
       wout := {| weeklyTimestamps := weeklyTimestamps (wout st) ++ [start];
                  weeklyPrices := weeklyPrices (wout st) ++ [close];
                  weeklyVolumes :=
                    weeklyVolumes (wout st) ++ [volumeSum] |} |}
  else
    {| currentWeekStartTime := Some start; currentWeekClose := Some close;
       currentWeekVolumeSum := volumeSum; wout := wout st |}.

(** The [for] loop over the days, index [i] being the head of [days]:
    each day carries [dailyPricesWithTimestamps[i]] and
    [dailyVolumes[i]]. *)
Fixpoint weekly_loop (st : wstate)
    (days : list (epoch_ms * N * N)) : wstate :=
  match days with
  | [] => st
  | (ts, price, volume) :: rest =>
      weekly_loop
        (weekly_step st ts price volume (fst ∘ fst <$> head rest)) rest
  end.

Definition resampleToWeeklyInternal
    (dailyPricesWithTimestamps : list (epoch_ms * N))
    (dailyVolumes : list N) : weekly N :=
  if negb (length dailyPricesWithTimestamps =? length dailyVolumes)%nat
     || (length dailyPricesWithTimestamps =? 0)%nat
  then {| weeklyTimestamps := []; weeklyPrices := []; weeklyVolumes := [] |}
  else wout (weekly_loop wstate0
               (combine dailyPricesWithTimestamps dailyVolumes)).

(** Loop state of [resampleToMonthlyInternal]. *)
Record mstate := {
  currentMonthStartTime : option epoch_ms;
  currentMonthClose : option N;
  currentMonthVolumeSum : N;
  mout : monthly N }.

Definition mstate0 : mstate :=
  {| currentMonthStartTime := None; currentMonthClose := None;
     currentMonthVolumeSum := js_zero;
     mout := {| monthlyTimestamps := []; monthlyPrices := [];
                monthlyVolumes := [] |} |}.

Definition monthly_step (st : mstate) (timestamp : epoch_ms)
    (price volume : N) (next : option epoch_ms) : mstate :=
  let start :=
    match currentMonthStartTime st with
    | None => firstOfMonth (getFullYear timestamp) (getMonth timestamp)
    | Some s => s
    end in
  let close := price in
  let volumeSum := js_add (currentMonthVolumeSum st) volume in
  let isLastDay := bool_decide (next = None) in
  let nextDayIsInNewMonth :=
    match next with
    | None => false
    | Some nextTs =>
        (getFullYear start <? getFullYear nextTs)%Z
        || (getMonth start <? getMonth nextTs)%Z
    end in
  if isLastDay || nextDayIsInNewMonth then
    {| currentMonthStartTime := None; currentMonthClose := None;
       currentMonthVolumeSum := js_zero;
       mout := {| monthlyTimestamps :=
                    monthlyTimestamps (mout st) ++ [start];
                  monthlyPrices := monthlyPrices (mout st) ++ [close];
                  monthlyVolumes :=
                    monthlyVolumes (mout st) ++ [volumeSum] |} |}
  else
    {| currentMonthStartTime := Some start;
       currentMonthClose := Some close;
       currentMonthVolumeSum := volumeSum; mout := mout st |}.

Fixpoint monthly_loop (st : mstate)
    (days : list (epoch_ms * N * N)) : mstate :=
  match days with
  | [] => st
  | (ts, price, volume) :: rest =>
      monthly_loop
        (monthly_step st ts price volume (fst ∘ fst <$> head rest)) rest
  end.

Definition resampleToMonthlyInternal
    (dailyPricesWithTimestamps : list (epoch_ms * N))
    (dailyVolumes : list N) : monthly N :=
  if negb (length dailyPricesWithTimestamps =? length dailyVolumes)%nat
     || (length dailyPricesWithTimestamps =? 0)%nat
  then {| monthlyTimestamps := []; monthlyPrices := [];
          monthlyVolumes := [] |}
  else mout (monthly_loop mstate0
               (combine dailyPricesWithTimestamps dailyVolumes)).
End WithCalendar.

Arguments wstate N : clear implicits.
Arguments mstate N : clear implicits.



(** The calendar of a host whose local time zone is UTC (proleptic
    Gregorian calendar). *)
Module UTC.
Local Open Scope Z_scope.

Definition MS_PER_DAY : Z := 24 * 60 * 60 * 1000.

Definition dayNumber (t : epoch_ms) : Z := t / MS_PER_DAY.

(** 1 January 1970 was a Thursday. *)
Definition getDay (t : epoch_ms) : Z := (dayNumber t + 4) mod 7.

Definition addDays (t : epoch_ms) (k : Z) : epoch_ms :=
  t + k * MS_PER_DAY.

Definition startOfDay (t : epoch_ms) : epoch_ms :=
  dayNumber t * MS_PER_DAY.

(** Civil date of a day number: year, month (0-11) and day (1-31). *)
Definition civil (days : Z) : Z * Z * Z :=
  let z := days + 719468 in
  let era := z / 146097 in
  let doe := z - era * 146097 in
  let yoe := (doe - doe / 1460 + doe / 36524 - doe / 146096) / 365 in
  let doy := doe - (365 * yoe + yoe / 4 - yoe / 100) in
  let mp := (5 * doy + 2) / 153 in
  let d := doy - (153 * mp + 2) / 5 + 1 in
  let m := if mp <? 10 then mp + 3 else mp - 9 in
  let y := yoe + era * 400 + (if m <=? 2 then 1 else 0) in
  (y, m - 1, d).

Definition getFullYear (t : epoch_ms) : Z := fst (fst (civil (dayNumber t))).
Definition getMonth (t : epoch_ms) : Z := snd (fst (civil (dayNumber t))).

(** Day number of the first day of month [month] (0-11) of [year]. *)
Definition daysFromCivil (year month : Z) : Z :=
  let m := month + 1 in
  let y := if m <=? 2 then year - 1 else year in
  let era := y / 400 in
  let yoe := y - era * 400 in
  let mp := if 2 <? m then m - 3 else m + 9 in
  let doy := (153 * mp + 2) / 5 in
  let doe := yoe * 365 + yoe / 4 - yoe / 100 + doy in
  era * 146097 + doe - 719468.

Definition firstOfMonth (year month : Z) : epoch_ms :=
  daysFromCivil year month * MS_PER_DAY.

Definition resampleToWeekly {N} `{Addition N} :=
  resampleToWeeklyInternal (N := N) getDay addDays startOfDay.
Definition resampleToMonthly {N} `{Addition N} :=
  resampleToMonthlyInternal (N := N) getFullYear getMonth firstOfMonth.
End UTC.

End Resample.

Import Resample.

(** ** JavaScript values met by the metrics layer *)

Module JS.

(** A number: finite, or one of the special values.  The two zeros are
    identified (a zero divisor behaves as [+0]). *)
Inductive num := Fin (q : Qc) | PInf | NInf | NaN.

(** A value read from a record of the API: number, string, [null] or
    [undefined]. *)
Inductive jsval := VNum (n : num) | VStr (s : string) | VNull | VUndefined.

#[global] Instance num_eq_dec : EqDecision num.
Proof. solve_decision. Defined.
#[global] Instance jsval_eq_dec : EqDecision jsval.
Proof. solve_decision. Defined.

Definition isNaN (n : num) : bool :=
  match n with NaN => true | _ => false end.

Definition num_neg (a : num) : num :=
  match a with
  | Fin q => Fin (- q) | PInf => NInf | NInf => PInf | NaN => NaN
  end.

(** An infinity with the sign of [q], [NaN] when [q] is zero. *)
Definition signed_inf (q : Qc) (pos : bool) : num :=
  if ltb 0 q then (if pos then PInf else NInf)
  else if ltb q 0 then (if pos then NInf else PInf)
  else NaN.

Definition num_add (a b : num) : num :=
  match a, b with
  | NaN, _ | _, NaN => NaN
  | Fin x, Fin y => Fin (x + y)
  | PInf, NInf | NInf, PInf => NaN
  | PInf, _ | _, PInf => PInf
  | NInf, _ | _, NInf => NInf
  end.

Definition num_sub (a b : num) : num := num_add a (num_neg b).

Definition num_mul (a b : num) : num :=
  match a, b with
  | NaN, _ | _, NaN => NaN
  | Fin x, Fin y => Fin (x * y)
  | Fin x, PInf | PInf, Fin x => signed_inf x true
  | Fin x, NInf | NInf, Fin x => signed_inf x false
  | PInf, PInf | NInf, NInf => PInf
  | PInf, NInf | NInf, PInf => NInf
  end.

Definition num_div (a b : num) : num :=
  match a, b with
  | NaN, _ | _, NaN => NaN
  | Fin x, Fin y => if eqb y 0 then signed_inf x true else Fin (x / y)
  | Fin _, (PInf | NInf) => Fin 0
  | PInf, Fin y => if ltb y 0 then NInf else PInf
  | NInf, Fin y => if ltb y 0 then PInf else NInf
  | (PInf | NInf), (PInf | NInf) => NaN
  end.

(** [a < b]; every comparison with [NaN] is false. *)
Definition num_ltb (a b : num) : bool :=
  match a, b with
  | NaN, _ | _, NaN => false
  | Fin x, Fin y => ltb x y
  | NInf, (Fin _ | PInf) => true
  | Fin _, PInf => true
  | _, _ => false
  end.

Definition num_gtb (a b : num) : bool := num_ltb b a.

(** [a <= b] *)
Definition num_leb (a b : num) : bool :=
  match a, b with
  | NaN, _ | _, NaN => false
  | _, _ => negb (num_ltb b a)
  end.

(** [a === b] on numbers *)
Definition num_eqb (a b : num) : bool :=
  match a, b with
  | NaN, _ | _, NaN => false
  | _, _ => bool_decide (a = b)
  end.

(** *** Strings *)

Definition toUpperChar (c : ascii) : ascii :=
  let n := nat_of_ascii c in
  if (97 <=? n)%nat && (n <=? 122)%nat then ascii_of_nat (n - 32) else c.

Definition toLowerChar (c : ascii) : ascii :=
  let n := nat_of_ascii c in
  if (65 <=? n)%nat && (n <=? 90)%nat then ascii_of_nat (n + 32) else c.

Fixpoint map_string (f : ascii -> ascii) (s : string) : string :=
  match s with
  | EmptyString => EmptyString
  | String c r => String (f c) (map_string f r)
  end.

(** [s.toUpperCase()] and [s.toLowerCase()], on ASCII letters. *)
Definition toUpperCase : string -> string := map_string toUpperChar.
Definition toLowerCase : string -> string := map_string toLowerChar.

(** [s.split(' ')[0]] *)
Fixpoint firstWord (s : string) : string :=
  match s with
  | EmptyString => EmptyString
  | String c r =>
      if bool_decide (c = " "%char) then EmptyString
      else String c (firstWord r)
  end.

Definition isSpace (c : ascii) : bool :=
  let n := nat_of_ascii c in
  ((9 <=? n)%nat && (n <=? 13)%nat) || (n =? 32)%nat.

Fixpoint trimStart (l : list ascii) : list ascii :=
  match l with
  | c :: r => if isSpace c then trimStart r else l
  | [] => []
  end.

(** [s.trim()], on ASCII white space. *)
Definition trim (s : string) : string :=
  string_of_list_ascii
    (rev (trimStart (rev (trimStart (list_ascii_of_string s))))).

(** *** [parseFloat] *)

Definition isDigit (c : ascii) : bool :=
  let n := nat_of_ascii c in (48 <=? n)%nat && (n <=? 57)%nat.

(** The longest prefix of digits, and what follows it. *)
Fixpoint takeDigits (l : list ascii) : list ascii * list ascii :=
  match l with
  | c :: r =>
      if isDigit c
      then let '(ds, rest) := takeDigits r in (c :: ds, rest)
      else ([], l)
  | [] => ([], [])
  end.

Definition digitsValue (ds : list ascii) : Z :=
  fold_left (fun acc c => (10 * acc + Z.of_nat (nat_of_ascii c - 48))%Z) ds 0%Z.

Definition pow10 (e : Z) : Qc :=
  if (0 <=? e)%Z then qc 10 ^ Z.to_nat e
  else 1 / (qc 10 ^ Z.to_nat (- e)).

(** The optional exponent part [e[+-]digits]; no exponent is [0]. *)
Definition parseExponent (l : list ascii) : Z :=
  match l with
  | c :: r =>
      if bool_decide (c = "e"%char) || bool_decide (c = "E"%char) then
        let '(neg, r') :=
          match r with
          | s :: r1 =>
              if bool_decide (s = "-"%char) then (true, r1)
              else if bool_decide (s = "+"%char) then (false, r1)
              else (false, r)
          | [] => (false, r)
          end in
        let '(ds, _) := takeDigits r' in
        match ds with
        | [] => 0%Z
        | _ => if neg then (- digitsValue ds)%Z else digitsValue ds
        end
      else 0%Z
  | [] => 0%Z
  end.

Definition isPrefix (p l : list ascii) : bool :=
  bool_decide (firstn (length p) l = p).

(** The ends of the range of doubles: a decimal of magnitude
    [2^1024 - 2^970] or more reads as an infinity, one of magnitude
    [2^-1075] or less reads as zero. *)
Definition overflowBound : Z := Eval vm_compute in (2 ^ 1024 - 2 ^ 970)%Z.
Definition underflowBound : Z := Eval vm_compute in (2 ^ 1075)%Z.

Definition readsAsInfinity (magnitude : Qc) : bool :=
  (overflowBound * Z.pos (Qden magnitude) <=? Qnum magnitude)%Z.

Definition readsAsZero (magnitude : Qc) : bool :=
  (Qnum magnitude * underflowBound <=? Z.pos (Qden magnitude))%Z.

(** [parseFloat] of a string: leading white space is skipped, the
    longest prefix that is a decimal literal is read, [NaN] when there is
    none.  Between the two ends of the range the decimal value is kept as
    it is written. *)
Definition parseFloatStr (s : string) : num :=
  let l := trimStart (list_ascii_of_string s) in
  let '(neg, l1) :=
    match l with
    | c :: r =>
        if bool_decide (c = "-"%char) then (true, r)
        else if bool_decide (c = "+"%char) then (false, r)
        else (false, l)
    | [] => (false, l)
    end in
  if isPrefix (list_ascii_of_string "Infinity") l1
  then (if neg then NInf else PInf)
  else
    let '(ip, r) := takeDigits l1 in
    let '(fp, r') :=
      match r with
      | c :: r1 =>
          if bool_decide (c = "."%char) then takeDigits r1 else ([], r)
      | [] => ([], r)
      end in
    match ip ++ fp with
    | [] => NaN
    | ds =>
        let mant :=
          Q2Qc (inject_Z (digitsValue ds))
          * pow10 (parseExponent r' - Z.of_nat (length fp)) in
        if readsAsInfinity mant then (if neg then NInf else PInf)
        else if readsAsZero mant then Fin 0
        else Fin (if neg then - mant else mant)
    end.

(** [parseFloat(value)] *)
Definition parseFloat (v : jsval) : num :=
  match v with
  | VNum n => n
  | VStr s => parseFloatStr s
  | VNull | VUndefined => NaN
  end.

(** *** Objects *)

(** An object with value fields, and the property read [o[key]] of one
    of its own keys. *)
Abbreviation object := (gmap string jsval).

Definition prop (o : object) (key : string) : jsval :=
  default VUndefined (o !! key).


End JS.

Import JS.

(** ** Accessors, formatters and metrics ([utils.js]) *)

Module Metrics.

Local Open Scope string_scope.

Definition DEFAULT_NA_STRING : string := "N/A".

Definition STMT_INC := "INC".
Definition STMT_BAL := "BAL".
Definition STMT_CAS := "CAS".

Definition FIN_KEY_REVENUE := "Revenue".
Definition FIN_KEY_NET_INCOME := "NetIncome".
Definition FIN_KEY_OPERATING_INCOME := "OperatingIncome".
Definition FIN_KEY_GROSS_PROFIT := "GrossProfit".
Definition FIN_KEY_DEPRECIATION_AMORTIZATION_INC := "Depreciation/Amortization".
Definition FIN_KEY_UNUSUAL_EXPENSE_INCOME := "UnusualExpense(Income)".
Definition FIN_KEY_OTHER_NET_INCOME := "OtherNet".
Definition FIN_KEY_MINORITY_INTEREST_INC := "MinorityInterest".

(** [getSafeInternal(fn, defaultValue)].  [r] is the outcome of calling
    [fn]: [None] when it threw. *)
Definition getSafeInternal (r : option jsval) (defaultValue : jsval) : jsval :=
  match r with
  | None => defaultValue
  | Some value =>
      match value with
      | VUndefined | VNull => defaultValue
      | VStr s =>
          if bool_decide (s = "") then defaultValue
          else if bool_decide (trim s = "-") then defaultValue
          else value
      | VNum _ => value
      end
  end.

Record yearRecord := {
  incomeStatement : option object;
  balanceSheet : option object;
  cashFlowStatement : option object }.

(** [findFinancialByYearInternal]; the accessor passed to
    [getSafeInternal] does not throw on a list of year records. *)
Definition findFinancialByYearInternal (yearlyFinancialData : list yearRecord)
    (yearIndex : nat) (statementTypeConstant key : string)
    (defaultValue : jsval) : jsval :=
  getSafeInternal
    (Some
       match yearlyFinancialData !! yearIndex with
       | None => defaultValue
       | Some yearData =>
           let statementMap :=
             if bool_decide (statementTypeConstant = STMT_INC)
             then Some (incomeStatement yearData)
             else if bool_decide (statementTypeConstant = STMT_BAL)
             then Some (balanceSheet yearData)
             else if bool_decide (statementTypeConstant = STMT_CAS)
             then Some (cashFlowStatement yearData)
             else None in
           match statementMap with
           | None => defaultValue
           | Some None => defaultValue
           | Some (Some m) =>
               if bool_decide (prop m key = VUndefined) then defaultValue
               else prop m key
           end
       end)
    defaultValue.

(** What a formatter shows: a fixed text, or a number rendered by
    [toFixed(2)] or by [toLocaleString('en-IN', ...)] (the rendering
    itself is not modelled). *)
Inductive display :=
| DText (s : string)
| DFixed2 (n : num)
| DLocale2 (n : num).

Record formatted := {
  value : display;
  unit : string;
  raw : num;
  colorClass : string }.

Definition notFormatted (defaultValue : string) : formatted :=
  {| value := DText defaultValue; unit := ""; raw := NaN; colorClass := "" |}.

Definition strictEqStr (v : jsval) (s : string) : bool :=
  bool_decide (v = VStr s).

Definition formatToCroresInternal (v : jsval) (defaultValue : string)
    : formatted :=
  let num := parseFloat v in
  if isNaN num || strictEqStr v DEFAULT_NA_STRING
  then notFormatted defaultValue
  else {| value := DLocale2 num; unit := "Cr"; raw := num; colorClass := "" |}.

Definition signColor (n : num) : string :=
  if num_gtb n (Fin 0) then "change-positive-text"
  else if num_ltb n (Fin 0) then "change-negative-text"
  else "".

Definition formatPercentageInternal (v : jsval) (defaultValue : string)
    (colorOnPositiveNegative : bool) : formatted :=
  let num := parseFloat v in
  if isNaN num || strictEqStr v DEFAULT_NA_STRING
  then notFormatted defaultValue
  else
    let colorClass := if colorOnPositiveNegative then signColor num else "" in
    {| value := DFixed2 num; unit := "%"; raw := num;
       colorClass := colorClass |}.

Definition formatRatioInternal (v : jsval) (defaultValue : string)
    : formatted :=
  let num := parseFloat v in
  if isNaN num || strictEqStr v DEFAULT_NA_STRING
  then notFormatted defaultValue
  else {| value := DFixed2 num; unit := "x"; raw := num; colorClass := "" |}.

(** [calculateCAGRInternal].  [Math.pow] is a primitive of the host
    language with irrational results; it is a parameter. *)
Section CAGR.
Variable Math_pow : num -> num -> num.

Definition calculateCAGRInternal (endValue startValue : jsval)
    (years : num) (defaultValue : string) : formatted :=
  let endVal := parseFloat endValue in
  let startVal := parseFloat startValue in
  if isNaN endVal || isNaN startVal || num_eqb startVal (Fin 0)
     || num_leb years (Fin 0)
     || strictEqStr endValue DEFAULT_NA_STRING
     || strictEqStr startValue DEFAULT_NA_STRING
  then notFormatted defaultValue
  else if num_leb startVal (Fin 0) || num_leb endVal (Fin 0)
  then {| value := DText "Not Meaningful"; unit := ""; raw := NaN;
          colorClass := "" |}
  else
    let cagr :=
      num_mul
        (num_sub (Math_pow (num_div endVal startVal)
                           (num_div (Fin 1) years))
                 (Fin 1))
        (Fin (qc 100)) in
    {| value := DFixed2 cagr; unit := "%"; raw := cagr;
       colorClass := signColor cagr |}.
End CAGR.




(** [calculateProfitabilityMetricsInternal]: the labelled metrics (the
    explanation texts are left out) and [netIncomeRaw].  The accessor
    and the formatters it receives are the ones of this module. *)
Definition netProfitMarginRaw (netIncomeRaw revenueCurrentRaw : jsval) : num :=
  num_mul (num_div (parseFloat netIncomeRaw) (parseFloat revenueCurrentRaw))
          (Fin (qc 100)).

Definition calculateProfitabilityMetricsInternal
    (stockDataFinancials : list yearRecord)
    : list (string * formatted) * jsval :=
  let find key :=
    findFinancialByYearInternal stockDataFinancials 0 STMT_INC key
      (VStr DEFAULT_NA_STRING) in
  let crores v := formatToCroresInternal v DEFAULT_NA_STRING in
  let netIncomeRaw := find FIN_KEY_NET_INCOME in
  let revenueCurrentRaw := find FIN_KEY_REVENUE in
  let netProfitMarginRaw := netProfitMarginRaw netIncomeRaw revenueCurrentRaw in
  let operatingIncomeRaw := find FIN_KEY_OPERATING_INCOME in
  let grossProfitRaw := find FIN_KEY_GROSS_PROFIT in
  let depreciationAndAmortizationINCRaw :=
    find FIN_KEY_DEPRECIATION_AMORTIZATION_INC in
  let ebitdaRaw :=
    num_add (parseFloat operatingIncomeRaw)
      (parseFloat
         (if strictEqStr depreciationAndAmortizationINCRaw DEFAULT_NA_STRING
          then VNum (Fin 0) else depreciationAndAmortizationINCRaw)) in
  let unusualExpenseIncomeRaw := find FIN_KEY_UNUSUAL_EXPENSE_INCOME in
  let otherNetIncomeRaw := find FIN_KEY_OTHER_NET_INCOME in
  let minorityInterestINCRaw := find FIN_KEY_MINORITY_INTEREST_INC in
  ([ ("Net Income", crores netIncomeRaw);
     ("Net Profit Margin",
      formatPercentageInternal (VNum netProfitMarginRaw)
        DEFAULT_NA_STRING true);
     ("Operating Income", crores operatingIncomeRaw);
     ("Gross Profit", crores grossProfitRaw);
     ("EBITDA", crores (VNum ebitdaRaw));
     ("Depreciation & Amortization (Income St.)",
      crores depreciationAndAmortizationINCRaw);
     ("Unusual Expense/(Income)", crores unusualExpenseIncomeRaw);
     ("Other Income (Net)", crores otherNetIncomeRaw);
     ("Minority Interest (Income St.)", crores minorityInterestINCRaw) ],
   netIncomeRaw).

(** The metric shown under [label]. *)
Definition metric (label : string) (ms : list (string * formatted))
    : option formatted :=
  snd <$> find (fun m => bool_decide (fst m = label)) ms.

End Metrics.

Import Metrics.

(** ** Peer filtering ([apiAdapter.js]) *)

Module Adapter.

Local Open Scope string_scope.

Record companyProfile := {
  exchangeCodeNse : jsval;
  (** [None]: the list is absent from the response *)
  peerCompanyList : option (list object) }.

Record rawApiData := {
  companyName : jsval;
  profile : option companyProfile }.

(** The receiver of a string method: calling [toUpperCase] or [split] on
    a number throws, which is [None]. *)
Definition asString (v : jsval) : option string :=
  match v with VStr s => Some s | _ => None end.

(** [getSafe(() => rawApiData.companyProfile.peerCompanyList, [])] *)
Definition allPeersRaw (rawApiData : rawApiData) : list object :=
  match profile rawApiData with
  | Some cp => default [] (peerCompanyList cp)
  | None => []
  end.

(** [getSafe(() => rawApiData.companyProfile.exchangeCodeNse, '').toUpperCase()] *)
Definition nseCodeMain (rawApiData : rawApiData) : option string :=
  toUpperCase <$>
    asString (getSafeInternal (exchangeCodeNse <$> profile rawApiData)
                              (VStr "")).

(** [getSafe(() => rawApiData.companyName, '@#NONE#@').split(' ')[0].toLowerCase()] *)
Definition companyNameMainShort (rawApiData : rawApiData) : option string :=
  (toLowerCase ∘ firstWord) <$>
    asString (getSafeInternal (Some (companyName rawApiData))
                              (VStr "@#NONE#@")).

(** The callback of [allPeersRaw.filter]: [Some true] keeps the peer. *)
Definition keepPeer (nseCodeMain companyNameMainShort : string) (p : object)
    : option bool :=
  peerTickerId ←
    toUpperCase <$>
      asString (getSafeInternal (Some (prop p "tickerId")) (VStr ""));
  peerCompanyNameShort ←
    (toLowerCase ∘ firstWord) <$>
      asString (getSafeInternal (Some (prop p "companyName")) (VStr ""));
  Some
    (if negb (bool_decide (nseCodeMain = ""))
        && bool_decide (peerTickerId = nseCodeMain)
     then false
     else if bool_decide (peerCompanyNameShort = companyNameMainShort)
             && negb (bool_decide (companyNameMainShort = "@#none#@"))
     then false
     else true).

(** [Array.prototype.filter] with a callback that may throw. *)
Fixpoint filterM {A} (f : A -> option bool) (l : list A) : option (list A) :=
  match l with
  | [] => Some []
  | x :: r =>
      b ← f x;
      r' ← filterM f r;
      Some (if b : bool then x :: r' else r')
  end.

(** The [actualPeers] field of [transformStockDataApiResponse]. *)
Definition actualPeers (rawApiData : rawApiData) : option (list object) :=
  nse ← nseCodeMain rawApiData;
  short ← companyNameMainShort rawApiData;
  filterM (keepPeer nse short) (allPeersRaw rawApiData).

End Adapter.

Import Adapter.

(** ** Signal scorer ([useTechnicalAnalysis.js]) *)

Module Scorer.

Local Open Scope string_scope.

Definition SMA_PERIODS : list nat := [20; 50; 200]%nat.
Definition EMA_PERIODS : list nat := [20; 50; 200]%nat.
Definition RSI_OVERSOLD_THRESHOLD : nat := 30.
Definition RSI_OVERBOUGHT_THRESHOLD : nat := 70.
Definition VWAP_PERIOD : nat := 20.
Definition VOLUME_SMA_PERIOD : nat := 20.

(** A numeric slot of an indicator bundle: a number, [null], or
    [undefined] (the last element of an empty array). *)
Inductive slot := SNum (q : Qc) | SNull | SUndefined.

(** [s !== null] *)
Definition notNull (s : slot) : bool :=
  match s with SNull => false | _ => true end.

(** The number a relational operator sees: [null] is [0], [undefined]
    is [NaN] ([None]). *)
Definition toNumber (s : slot) : option Qc :=
  match s with
  | SNum q => Some q
  | SNull => Some 0
  | SUndefined => None
  end.

(** [a > b] and [a < b] *)
Definition js_gt (a b : slot) : bool :=
  match toNumber a, toNumber b with
  | Some x, Some y => gtb x y
  | _, _ => false
  end.
Definition js_lt (a b : slot) : bool := js_gt b a.

Record macdRecord := { macd : slot; signal : slot; histogram : slot }.

(** The bundle built by [calculateIndicatorsForPeriod], as far as the
    scorer reads it.  [smas p] is [smas[`SMA_${p}`].value]: the builder
    stores an entry for every period of [SMA_PERIODS], with value [null]
    when the series is too short.  [rsi] holds [rsi.value], the text
    produced by [toFixed(2)]. *)
Record indicators := {
  smas : nat -> slot;
  emas : nat -> slot;
  rsi : option string;
  macdOf : option macdRecord;
  vwap : slot;
  obvFullSeries : option (list Qc) }.

(** The data of one time frame: an object with a (non-empty) [error], or
    a bundle. *)
Inductive tfdata := TfError (error : string) | TfData (ind : indicators).

Record timeframe := { name : string; data : tfdata; weight : Qc }.

Record score := {
  totalBullishScore : Qc;
  totalBearishScore : Qc;
  signalReasons : list string }.

Definition bullish (st : score) (amount : Qc) (reason : string) : score :=
  {| totalBullishScore := totalBullishScore st + amount;
     totalBearishScore := totalBearishScore st;
     signalReasons := signalReasons st ++ [reason] |}.

Definition bearish (st : score) (amount : Qc) (reason : string) : score :=
  {| totalBullishScore := totalBullishScore st;
     totalBearishScore := totalBearishScore st + amount;
     signalReasons := signalReasons st ++ [reason] |}.

(** [`${n}`] for a natural number *)
Definition showNat (n : nat) : string :=
  NilZero.string_of_uint (Nat.to_uint n).

(** 1. Price vs SMAs: the callback of [SMA_PERIODS.forEach]. *)
Definition scoreSMA (tfName : string) (tfWeight currentPrice : Qc)
    (smas : nat -> slot) (st : score) (p : nat) : score :=
  if notNull (smas p) then
    if js_gt (SNum currentPrice) (smas p)
    then bullish st (1 * tfWeight) (tfName ++ ": Price > SMA " ++ showNat p)
    else bearish st (1 * tfWeight) (tfName ++ ": Price < SMA " ++ showNat p)
  else st.

(** 2. Price vs EMAs: the callback of [EMA_PERIODS.forEach]. *)
Definition scoreEMA (tfName : string) (tfWeight currentPrice : Qc)
    (emas : nat -> slot) (st : score) (p : nat) : score :=
  if notNull (emas p) then
    if js_gt (SNum currentPrice) (emas p)
    then bullish st (1 * tfWeight) (tfName ++ ": Price > EMA " ++ showNat p)
    else bearish st (1 * tfWeight) (tfName ++ ": Price < EMA " ++ showNat p)
  else st.

(** 3. MACD: four independent tests. *)
Definition scoreMACD (tfName : string) (tfWeight : Qc)
    (m : option macdRecord) (st : score) : score :=
  match m with
  | Some m =>
      if notNull (macd m) && notNull (signal m) then
        let st1 :=
          if js_gt (macd m) (signal m)
          then bullish st (qc 2 * tfWeight)
                 (tfName ++ ": MACD Line above Signal Line")
          else st in
        let st2 :=
          if js_lt (macd m) (signal m)
          then bearish st1 (qc 2 * tfWeight)
                 (tfName ++ ": MACD Line below Signal Line")
          else st1 in
        let st3 :=
          if notNull (histogram m) && js_gt (histogram m) (SNum 0)
          then bullish st2 (qc 0.5 * tfWeight)
                 (tfName ++ ": MACD Histogram Positive")
          else st2 in
        if notNull (histogram m) && js_lt (histogram m) (SNum 0)
        then bearish st3 (qc 0.5 * tfWeight)
               (tfName ++ ": MACD Histogram Negative")
        else st3
      else st
  | None => st
  end.

(** 4. RSI: [parseFloat(rsi.value)] against the two thresholds. *)
Definition scoreRSI (tfName : string) (tfWeight : Qc)
    (rsi : option string) (st : score) : score :=
  match rsi with
  | Some value =>
      let rsiVal := parseFloatStr value in
      let st1 :=
        if num_ltb rsiVal (Fin (of_nat RSI_OVERSOLD_THRESHOLD))
        then bullish st (qc 1.5 * tfWeight)
               (tfName ++ ": RSI < " ++ showNat RSI_OVERSOLD_THRESHOLD
                       ++ " (Oversold)")
        else st in
      if num_gtb rsiVal (Fin (of_nat RSI_OVERBOUGHT_THRESHOLD))
      then bearish st1 (qc 1.5 * tfWeight)
             (tfName ++ ": RSI > " ++ showNat RSI_OVERBOUGHT_THRESHOLD
                     ++ " (Overbought)")
      else st1
  | None => st
  end.

(** 5. Price vs VWAP *)
Definition scoreVWAP (tfName : string) (tfWeight currentPrice : Qc)
    (vwap : slot) (st : score) : score :=
  if notNull vwap then
    let st1 :=
      if js_gt (SNum currentPrice) vwap
      then bullish st (1 * tfWeight)
             (tfName ++ ": Price > VWAP (" ++ showNat VWAP_PERIOD ++ ")")
      else st in
    if js_lt (SNum currentPrice) vwap
    then bearish st1 (1 * tfWeight)
           (tfName ++ ": Price < VWAP (" ++ showNat VWAP_PERIOD ++ ")")
    else st1
  else st.

(** [arr[arr.length - 1]] of a non-empty array of numbers *)
Definition lastOf (l : list Qc) : Qc := nth (length l - 1) l 0.

(** 6. OBV trend against the SMA of the OBV series *)
Definition scoreOBV (tfName : string) (tfWeight : Qc)
    (obvFullSeries : option (list Qc)) (st : score) : score :=
  match obvFullSeries with
  | Some obv =>
      if (VOLUME_SMA_PERIOD <? length obv)%nat then
        let obvSma := calculateSMAInternal obv VOLUME_SMA_PERIOD in
        let latestObv := lastOf obv in
        let latestObvSma := lastOf obvSma in
        if gtb latestObv latestObvSma
        then bullish st (1 * tfWeight)
               (tfName ++ ": OBV trending up (above its "
                       ++ showNat VOLUME_SMA_PERIOD ++ "-period SMA)")
        else if ltb latestObv latestObvSma
        then bearish st (1 * tfWeight)
               (tfName ++ ": OBV trending down (below its "
                       ++ showNat VOLUME_SMA_PERIOD ++ "-period SMA)")
        else st
      else st
  | None => st
  end.

(** The callback of [timeframes.forEach]; [currentPrice] is already
    known to be a non-zero number here. *)
Definition scoreTimeframe (currentPrice : Qc) (st : score) (tf : timeframe)
    : score :=
  match data tf with
  | TfError _ => st
  | TfData ind =>
      let tfName := name tf in
      let tfWeight := weight tf in
      let st1 :=
        fold_left (scoreSMA tfName tfWeight currentPrice (smas ind))
                  SMA_PERIODS st in
      let st2 :=
        fold_left (scoreEMA tfName tfWeight currentPrice (emas ind))
                  EMA_PERIODS st1 in
      let st3 := scoreMACD tfName tfWeight (macdOf ind) st2 in
      let st4 := scoreRSI tfName tfWeight (rsi ind) st3 in
      let st5 := scoreVWAP tfName tfWeight currentPrice (vwap ind) st4 in
      scoreOBV tfName tfWeight (obvFullSeries ind) st5
  end.

Definition timeframes (daily weekly monthly : tfdata) : list timeframe :=
  [ {| name := "Daily"; data := daily; weight := 1 |};
    {| name := "Weekly"; data := weekly; weight := qc 1.5 |};
    {| name := "Monthly"; data := monthly; weight := qc 2 |} ].

Definition score0 : score :=
  {| totalBullishScore := 0; totalBearishScore := 0; signalReasons := [] |}.

Definition scoreAll (currentPrice : Qc) (daily weekly monthly : tfdata)
    : score :=
  fold_left (scoreTimeframe currentPrice)
            (timeframes daily weekly monthly) score0.

(** The final classification of the accumulated scores. *)
Definition finalSignal (st : score) : string :=
  let B := totalBullishScore st in
  let R := totalBearishScore st in
  let finalSignal :=
    if gtb B (R * qc 1.1) then "Bullish"
    else if gtb R (B * qc 1.1) then "Bearish"
    else "Neutral" in
  if (length (signalReasons st) =? 0)%nat && eqb B 0 && eqb R 0
  then "Not Enough Data for Signal"
  else finalSignal.

(** [parseFloat(x.toFixed(1))]: the nearest tenth, the larger one on a
    tie. *)
Definition toFixed1 (x : Qc) : Qc :=
  Q2Qc (inject_Z (Qfloor (x * qc 10 + qc 0.5))) / qc 10.

Record technicalSignal := {
  signalText : string;
  scoreBullish : Qc;
  scoreBearish : Qc;
  reasons : list string }.

Definition signalOfScore (st : score) : technicalSignal :=
  {| signalText := finalSignal st;
     scoreBullish := toFixed1 (totalBullishScore st);
     scoreBearish := toFixed1 (totalBearishScore st);
     reasons :=
       if (0 <? length (signalReasons st))%nat
       then take 15 (signalReasons st)
       else ["No strong directional signals based on current rules."] |}.

(** [analysisData] as the scoring effect reads it; an absent or empty
    [error] is [None]. *)
Record analysisData := {
  daily : tfdata;
  (** [daily.currentPriceForAnalysis]: a number or [null] *)
  currentPriceForAnalysis : option Qc;
  weekly : tfdata;
  monthly : tfdata;
  error : option string }.

(** The effect that sets [technicalSignal]. *)
Definition technicalSignalEffect (activeTab : string)
    (analysis : option analysisData) : technicalSignal :=
  let pending (text reason : string) :=
    {| signalText := text; scoreBullish := 0; scoreBearish := 0;
       reasons := [reason] |} in
  match analysis with
  | None => pending "Signal Pending..." "Waiting for data..."
  | Some a =>
      match error a with
      | Some e => pending e e
      | None =>
          if negb (bool_decide (activeTab = "analysis"))
          then pending "Signal Pending..." "Waiting for data..."
          else
            match daily a with
            | TfError e => pending "Analysis Error" e
            | TfData _ =>
                match currentPriceForAnalysis a with
                | None =>
                    pending "Signal Pending..."
                      "Current price not available for signal generation."
                | Some currentPrice =>
                    if eqb currentPrice 0
                    then pending "Signal Pending..."
                           "Current price not available for signal generation."
                    else signalOfScore
                           (scoreAll currentPrice (daily a) (weekly a)
                                     (monthly a))
                end
            end
      end
  end.

(** Both accumulated scores are non-negative. *)
Definition nonneg (st : score) : Prop :=
  0 <= totalBullishScore st /\ 0 <= totalBearishScore st.

End Scorer.

Import Scorer.

(** ** Reference definitions

    Written from the wording of the specification, to be compared with the
    definitions above. *)

Module Spec.

(** The sum of a list, in list order. *)
Fixpoint total (l : list Qc) : Qc :=
  match l with
  | [] => 0
  | x :: r => x + total r
  end.

(** The point of index [j], when price and volume are both valid. *)
Definition valid_point (prices volumes : list cell) (j : nat)
    : option (Qc * Qc) :=
  match prices !! j, volumes !! j with
  | Some (Some p), Some (Some v) => Some (p, v)
  | _, _ => None
  end.

(** The indices [i - period + 1 .. i] of the trailing window of [i]. *)
Definition window (period i : nat) : list nat :=
  seq (i + 1 - period) period.

(** Volume-weighted average price over the valid points of the trailing
    window; [null] when their volume sum is not positive. *)
Definition vwap_window (prices volumes : list cell) (period i : nat) : cell :=
  let pts := omap (valid_point prices volumes) (window period i) in
  let sumVolume := total (snd <$> pts) in
  if bool_decide (0 < sumVolume)
  then Some (total ((fun pv => fst pv * snd pv) <$> pts) / sumVolume)
  else None.

(** The primary company's own record in its peer list: its ticker is the
    company's NSE code, or the first word of its name is the first word
    of the company's name (letter case ignored; an absent code or name
    matches nothing). *)
Definition peerTicker (p : object) : string :=
  match getSafeInternal (Some (prop p "tickerId")) (VStr "") with
  | VStr s => toUpperCase s
  | _ => ""
  end.

Definition peerNameShort (p : object) : string :=
  match getSafeInternal (Some (prop p "companyName")) (VStr "") with
  | VStr s => toLowerCase (firstWord s)
  | _ => ""
  end.

Definition is_primary (nse short : string) (p : object) : bool :=
  (negb (bool_decide (nse = "")) && bool_decide (peerTicker p = nse))
  || (negb (bool_decide (short = "@#none#@"))
      && bool_decide (peerNameShort p = short)).


(** Mean of the numeric entries; [None] (NotAvailable) without any. *)
Definition mean (xs : list num) : option num :=
  match xs with
  | [] => None
  | _ => Some (num_div (fold_left num_add xs (Fin 0))
                       (Fin (of_nat (length xs))))
  end.


End Spec.

Import Spec.

(** ** Sample inputs *)

(** Four trading days of 2024 under the UTC calendar: Monday 1 January,
    Tuesday 2 January, Monday 8 January and Thursday 1 February. *)
Definition sample_days : list (epoch_ms * Qc) :=
  [ (1704067200000%Z, qc 100); (1704153600000%Z, qc 102);
    (1704672000000%Z, qc 101); (1706745600000%Z, qc 105) ].

Definition sample_volumes : list Qc := [qc 10; qc 20; qc 30; qc 40].

(** Three trading days with the volumes 1e16, 1 and 1 as doubles: Monday
    1 January 2024 followed by Monday 8 and Tuesday 9 January
    ([weekdays]), or by Thursday 1 and Friday 2 February ([monthdays]);
    or Monday 8, Tuesday 9 and Wednesday 10 January, three days of one
    week and one month ([oneWeek]). *)
Module Binary64Sample.
Import PrimFloat.

Definition prices : list float := [100%float; 101%float; 102%float].
Definition dailyVolumes : list float := [1e16%float; 1%float; 1%float].




End Binary64Sample.

(** A yearly record set whose latest income statement reports a net
    income of 50 on a revenue of 0. *)
Definition zero_revenue_year : list yearRecord :=
  [ {| incomeStatement :=
         Some (<["NetIncome"%string := VStr "50"]>
                 (<["Revenue"%string := VStr "0"]> ∅));
       balanceSheet := Some ∅;
       cashFlowStatement := Some ∅ |} ].

(** A stand-in for [Math.pow] where its value does not matter. *)
Definition pow_stub (x y : num) : num := Fin 1.

(** The response for a company listed as TCS whose peer list holds its own
    record (market cap 1000) and two other companies (500 and 700). *)
Definition peer_record (ticker name : string) (marketCap : Q) : object :=
  <["tickerId"%string := VStr ticker]>
    (<["companyName"%string := VStr name]>
       (<["marketCap"%string := VNum (Fin (qc marketCap))]> ∅)).

Definition sample_peers : list object :=
  [ peer_record "TCS" "Tata Consultancy Services Ltd" 1000;
    peer_record "INFY" "Infosys Ltd" 500;
    peer_record "WIPRO" "Wipro Ltd" 700 ].

Definition sample_response : rawApiData :=
  {| companyName := VStr "Tata Consultancy Services";
     profile := Some {| exchangeCodeNse := VStr "TCS";
                        peerCompanyList := Some sample_peers |} |}.

(** ** Further indicators ([utils.js]) *)

Module Momentum.

(** The result object; its [histogram] field is [histogramSeries] here
    (the scorer's record already has a [histogram]). *)
Record macdResult := {
  macdLine : list cell;
  signalLine : list cell;
  histogramSeries : list cell }.

Definition macdEmpty : macdResult :=
  {| macdLine := []; signalLine := []; histogramSeries := [] |}.

(** [fastEMA[i] !== null && !isNaN(fastEMA[i]) && slowEMA[i] !== null &&
    !isNaN(slowEMA[i])]: an index past the end of an array reads
    [undefined], which fails [!isNaN]. *)
Definition bothValid (fastEMA slowEMA : list Qc) (i : nat) : bool :=
  bool_decide (is_Some (fastEMA !! i)) && bool_decide (is_Some (slowEMA !! i)).

(** [calculateMACDInternal], for periods of at least 1.  The first loop
    looks for the first index where both averages are defined; the second
    pushes a difference or [null] for every index from there to
    [data.length - 1]. *)
Definition calculateMACDInternal (data : list Qc)
    (fastPeriod slowPeriod signalPeriod : nat) : macdResult :=
  if (length data <? slowPeriod + signalPeriod - 1)%nat then macdEmpty
  else
    let fastEMA := calculateEMAInternal data fastPeriod in
    let slowEMA := calculateEMAInternal data slowPeriod in
    match find (bothValid fastEMA slowEMA) (seq 0 (length data)) with
    | None => macdEmpty
    | Some firstValidIndex =>
        let macdLine :=
          map (fun i =>
                 if bothValid fastEMA slowEMA i
                 then Some (nth i fastEMA 0 - nth i slowEMA 0)
                 else None)
              (seq firstValidIndex (length data - firstValidIndex)) in
        let validMacdLine := omap id macdLine in
        if (length validMacdLine <? signalPeriod)%nat
        then {| macdLine := macdLine; signalLine := [];
                histogramSeries := [] |}
        else
          let signalLineFull :=
            calculateEMAInternal validMacdLine signalPeriod in
          let signalLinePadding :=
            (length macdLine - length signalLineFull)%nat in
          let signalLine :=
            replicate signalLinePadding None ++ (Some <$> signalLineFull) in
          let histogram :=
            map (fun i =>
                   match macdLine !! i, signalLine !! i with
                   | Some (Some m), Some (Some s) => Some (m - s)
                   | _, _ => None
                   end)
                (seq 0 (length macdLine)) in
          {| macdLine := macdLine; signalLine := signalLine;
             histogramSeries := histogram |}
    end.

(** Inner loop of [calculateVolumeSMAInternal]: valid cells are summed and
    counted. *)
Definition volsma_inner (volumeData : list cell) (i : nat)
    (acc : Qc * nat) (j : nat) : Qc * nat :=
  let '(sum, count) := acc in
  match volumeData !! (i - j)%nat with
  | Some (Some vol) => (sum + vol, S count)
  | _ => (sum, count)
  end.

Definition volsma_at (volumeData : list cell) (period i : nat) : cell :=
  let '(sum, count) :=
    fold_left (volsma_inner volumeData i) (seq 0 period) (0, 0%nat) in
  if (count =? period)%nat then Some (sum / of_nat period) else None.

(** [calculateVolumeSMAInternal], for periods of at least 1. *)
Definition calculateVolumeSMAInternal (volumeData : list cell) (period : nat)
    : list cell :=
  if (length volumeData <? period)%nat
  then replicate (length volumeData) None
  else
    fold_left (fun smaValues i =>
                 <[i := volsma_at volumeData period i]> smaValues)
              (seq (period - 1) (length volumeData - (period - 1)))
              (replicate (length volumeData) None).

(** One iteration of the loop of [calculateOBVInternal]. *)
Definition obv_step (prices volumes : list Qc) (obvValues : list Qc) (i : nat)
    : list Qc :=
  let previous := nth (i - 1) obvValues 0 in
  if gtb (nth i prices 0) (nth (i - 1) prices 0)
  then <[i := previous + nth i volumes 0]> obvValues
  else if ltb (nth i prices 0) (nth (i - 1) prices 0)
  then <[i := previous - nth i volumes 0]> obvValues
  else <[i := previous]> obvValues.

Definition calculateOBVInternal (prices volumes : list Qc) : list Qc :=
  if negb (length prices =? length volumes)%nat || (length prices =? 0)%nat
  then []
  else
    fold_left (obv_step prices volumes) (seq 1 (length prices - 1))
              (replicate (length prices) 0).

Definition MACD_FAST_PERIOD : nat := 12.
Definition MACD_SLOW_PERIOD : nat := 26.
Definition MACD_SIGNAL_PERIOD : nat := 9.

(** [arr[arr.length - 1]] as a slot: [undefined] on an empty array. *)
Definition lastSlot (l : list cell) : slot :=
  match last l with
  | None => SUndefined
  | Some None => SNull
  | Some (Some q) => SNum q
  end.

(** The [macd] entry that [calculateIndicatorsForPeriod] stores for a
    series of prices. *)
Definition macdIndicator (prices : list Qc) : option macdRecord :=
  let macdResult :=
    calculateMACDInternal prices MACD_FAST_PERIOD MACD_SLOW_PERIOD
      MACD_SIGNAL_PERIOD in
  if (0 <? length (macdLine macdResult))%nat
  then Some {| macd := lastSlot (macdLine macdResult);
               signal := lastSlot (signalLine macdResult);
               histogram := lastSlot (histogramSeries macdResult) |}
  else None.

End Momentum.

Import Momentum.

(** ** Reference definitions for the further indicators *)

Module MomentumSpec.

(** On-balance volume as a recurrence on the index: 0 at index 0, then the
    previous value plus, minus or without the volume of the day as the
    price rose, fell or stayed. *)
Fixpoint obv_at (prices volumes : list Qc) (i : nat) : Qc :=
  match i with
  | O => 0
  | S j =>
      if gtb (nth (S j) prices 0) (nth j prices 0)
      then obv_at prices volumes j + nth (S j) volumes 0
      else if ltb (nth (S j) prices 0) (nth j prices 0)
      then obv_at prices volumes j - nth (S j) volumes 0
      else obv_at prices volumes j
  end.

(** The valid values among the cells of the trailing window of [i]. *)
Definition window_values (volumeData : list cell) (period i : nat) : list Qc :=
  omap (fun j => mjoin (volumeData !! j)) (window period i).

End MomentumSpec.

Import MomentumSpec.

(** ** Shape of a resampled series *)

Module ResampleShapeSpec.

(** The three output arrays have the same length. *)
Definition waligned {N} (w : Resample.weekly N) : Prop :=
  length (weeklyTimestamps w) = length (weeklyPrices w)
  /\ length (weeklyVolumes w) = length (weeklyPrices w).

Definition maligned {N} (m : Resample.monthly N) : Prop :=
  length (monthlyTimestamps m) = length (monthlyPrices m)
  /\ length (monthlyVolumes m) = length (monthlyPrices m).

End ResampleShapeSpec.

Import ResampleShapeSpec.

(** ** Growth, peer comparison and ratio metrics ([utils.js]) *)

Module Ratios.

Local Open Scope string_scope.

Definition FIN_KEY_DILUTED_EPS_EXCL_EXTRA_ORD := "DilutedEPSExcludingExtraOrdItems".
Definition FIN_KEY_INTEREST_INC_EXP_NET_NON_OP := "InterestInc(Exp)Net-Non-OpTotal".
Definition FIN_KEY_TOTAL_DEBT := "TotalDebt".
Definition FIN_KEY_TOTAL_EQUITY := "TotalEquity".
Definition FIN_KEY_TANGIBLE_BOOK_VALUE_PER_SHARE :=
  "TangibleBookValueperShareCommonEq".
Definition FIN_KEY_TOTAL_ASSETS := "TotalAssets".
Definition FIN_KEY_LONG_TERM_INVESTMENTS := "LongTermInvestments".
Definition FIN_KEY_ACCRUED_EXPENSES := "AccruedExpenses".
Definition FIN_KEY_OTHER_CURRENT_LIABILITIES := "OtherCurrentliabilitiesTotal".
Definition FIN_KEY_OTHER_NON_CURRENT_LIABILITIES := "OtherLiabilitiesTotal".
Definition FIN_KEY_CASH_FROM_OPERATING_ACTIVITIES := "CashfromOperatingActivities".
Definition FIN_KEY_CAPITAL_EXPENDITURES := "CapitalExpenditures".
Definition FIN_KEY_NET_CHANGE_IN_CASH := "NetChangeinCash".
Definition FIN_KEY_CHANGES_IN_WORKING_CAPITAL := "ChangesinWorkingCapital".

(** [Math.abs] *)
Definition Math_abs (a : num) : num :=
  match a with
  | Fin q => Fin (Qcabs q)
  | PInf | NInf => PInf
  | NaN => NaN
  end.

(** [formatCurrencyInternal]: the formatted fields, and the
    [symbolPrefix] flag that only the numeric result carries. *)
Record currency := {
  shown : formatted;
  symbolPrefix : option bool }.

Definition formatCurrencyInternal (v : jsval) (defaultValue : string)
    : currency :=
  let num := parseFloat v in
  if isNaN num || strictEqStr v DEFAULT_NA_STRING
  then {| shown := notFormatted defaultValue; symbolPrefix := None |}
  else {| shown := {| value := DLocale2 num; unit := "₹"; raw := num;
                      colorClass := "" |};
          symbolPrefix := Some true |}.

(** A result of another formatter, which has no [symbolPrefix]. *)
Definition plain (f : formatted) : currency :=
  {| shown := f; symbolPrefix := None |}.

(** [calculateYoYGrowthInternal] *)
Definition calculateYoYGrowthInternal (current previous : jsval)
    (defaultValue : string) : formatted :=
  let currentNum := parseFloat current in
  let previousNum := parseFloat previous in
  if isNaN currentNum || isNaN previousNum || num_eqb previousNum (Fin 0)
     || strictEqStr current DEFAULT_NA_STRING
     || strictEqStr previous DEFAULT_NA_STRING
  then notFormatted defaultValue
  else
    let growth :=
      num_mul (num_div (num_sub currentNum previousNum) (Math_abs previousNum))
              (Fin (qc 100)) in
    {| value := DFixed2 growth; unit := "%"; raw := growth;
       colorClass := signColor growth |}.

(** [getPeerComparisonDetailsInternal].  [peerAvgObj] is the result of a
    formatter, or absent. *)
Record comparison := { status : string; text : string }.

Definition neutral : comparison := {| status := "neutral"; text := "" |}.

Definition getPeerComparisonDetailsInternal (companyRaw : jsval)
    (peerAvgObj : option formatted) (metricName : string)
    (lowerIsBetter isSizeComparison : bool) : comparison :=
  let companyVal := parseFloat companyRaw in
  let peerAvgVal :=
    match peerAvgObj with Some o => raw o | None => NaN end in
  let peerIsNA :=
    match peerAvgObj with
    | Some o =>
        match value o with
        | DText s => bool_decide (s = DEFAULT_NA_STRING)
        | _ => false
        end
    | None => false
    end in
  let verdict (status word : string) :=
    {| status := status; text := "(" ++ word ++ " " ++ metricName ++ " vs Peers)" |} in
  if strictEqStr companyRaw DEFAULT_NA_STRING || peerIsNA
     || isNaN companyVal || isNaN peerAvgVal
  then neutral
  else if isSizeComparison then
    if num_gtb companyVal peerAvgVal then verdict "higher" "Larger"
    else if num_ltb companyVal peerAvgVal then verdict "lower" "Smaller"
    else neutral
  else if num_leb companyVal (Fin 0) || num_leb peerAvgVal (Fin 0) then
    if bool_decide (metricName = "RoE")
       || bool_decide (metricName = "Dividend Yield")
    then
      if num_gtb companyVal peerAvgVal then verdict "better" "Higher"
      else if num_ltb companyVal peerAvgVal then verdict "worse" "Lower"
      else neutral
    else neutral
  else if lowerIsBetter then
    if num_ltb companyVal peerAvgVal then verdict "better" "Lower"
    else if num_gtb companyVal peerAvgVal then verdict "worse" "Higher"
    else neutral
  else
    if num_gtb companyVal peerAvgVal then verdict "better" "Higher"
    else if num_ltb companyVal peerAvgVal then verdict "worse" "Lower"
    else neutral.

(** The latest-year lookup that every metric function starts from. *)
Definition latest (stockDataFinancials : list yearRecord)
    (statement key : string) : jsval :=
  findFinancialByYearInternal stockDataFinancials 0 statement key
    (VStr DEFAULT_NA_STRING).

Definition crores (v : jsval) : formatted :=
  formatToCroresInternal v DEFAULT_NA_STRING.

Definition ratio (v : jsval) : formatted :=
  formatRatioInternal v DEFAULT_NA_STRING.

(** [calculateCashFlowHealthMetricsInternal]: the labelled metrics (the
    explanation texts are left out) and [fcfRaw]. *)
Definition calculateCashFlowHealthMetricsInternal
    (stockDataFinancials : list yearRecord) (netIncomeRaw : jsval)
    : list (string * formatted) * num :=
  let cashFromOpsRaw :=
    latest stockDataFinancials STMT_CAS FIN_KEY_CASH_FROM_OPERATING_ACTIVITIES in
  let capExRaw :=
    latest stockDataFinancials STMT_CAS FIN_KEY_CAPITAL_EXPENDITURES in
  let fcfRaw :=
    num_add (parseFloat cashFromOpsRaw)
      (parseFloat (if strictEqStr capExRaw DEFAULT_NA_STRING
                   then VNum (Fin 0) else capExRaw)) in
  let netChangeInCashRaw :=
    latest stockDataFinancials STMT_CAS FIN_KEY_NET_CHANGE_IN_CASH in
  let ocfToNetIncomeRatioRaw :=
    if negb (strictEqStr netIncomeRaw DEFAULT_NA_STRING)
       && negb (num_eqb (parseFloat netIncomeRaw) (Fin 0))
       && negb (strictEqStr cashFromOpsRaw DEFAULT_NA_STRING)
    then VNum (num_div (parseFloat cashFromOpsRaw) (parseFloat netIncomeRaw))
    else VStr DEFAULT_NA_STRING in
  let changesInWorkingCapitalRaw :=
    latest stockDataFinancials STMT_CAS FIN_KEY_CHANGES_IN_WORKING_CAPITAL in
  ([ ("Cash from Operating Activities (CFO)", crores cashFromOpsRaw);
     ("Capital Expenditure (CapEx)", crores capExRaw);
     ("Free Cash Flow (FCF)", crores (VNum fcfRaw));
     ("Net Change in Cash", crores netChangeInCashRaw);
     ("Operating Cash Flow to Net Income Ratio", ratio ocfToNetIncomeRatioRaw);
     ("Changes in Working Capital", crores changesInWorkingCapitalRaw) ],
   fcfRaw).

(** [calculateFinancialHealthAndDebtMetricsInternal] *)
Record financialHealth := {
  metrics : list (string * currency);
  totalAssetsBALRaw : jsval;
  tangibleBookValuePerShareRaw : jsval;
  totalEquityRaw : jsval }.

Definition calculateFinancialHealthAndDebtMetricsInternal
    (stockDataFinancials : list yearRecord) (interestPaidCASRaw : jsval)
    : financialHealth :=
  let totalDebtRaw := latest stockDataFinancials STMT_BAL FIN_KEY_TOTAL_DEBT in
  let totalEquityRaw :=
    latest stockDataFinancials STMT_BAL FIN_KEY_TOTAL_EQUITY in
  let debtToEquityRatioRaw :=
    if negb (strictEqStr totalEquityRaw DEFAULT_NA_STRING)
       && negb (num_eqb (parseFloat totalEquityRaw) (Fin 0))
       && negb (strictEqStr totalDebtRaw DEFAULT_NA_STRING)
    then VNum (num_div (parseFloat totalDebtRaw) (parseFloat totalEquityRaw))
    else VStr DEFAULT_NA_STRING in
  let tangibleBookValuePerShareRaw :=
    latest stockDataFinancials STMT_BAL FIN_KEY_TANGIBLE_BOOK_VALUE_PER_SHARE in
  let netInterestIncomeExpenseINCRaw :=
    latest stockDataFinancials STMT_INC FIN_KEY_INTEREST_INC_EXP_NET_NON_OP in
  let longTermInvestmentsBALRaw :=
    latest stockDataFinancials STMT_BAL FIN_KEY_LONG_TERM_INVESTMENTS in
  let accruedExpensesBALRaw :=
    latest stockDataFinancials STMT_BAL FIN_KEY_ACCRUED_EXPENSES in
  let otherCurrentLiabilitiesBALRaw :=
    latest stockDataFinancials STMT_BAL FIN_KEY_OTHER_CURRENT_LIABILITIES in
  let otherNonCurrentLiabilitiesBALRaw :=
    latest stockDataFinancials STMT_BAL FIN_KEY_OTHER_NON_CURRENT_LIABILITIES in
  let totalAssetsBALRaw :=
    latest stockDataFinancials STMT_BAL FIN_KEY_TOTAL_ASSETS in
  {| metrics :=
       [ ("Total Assets", plain (crores totalAssetsBALRaw));
         ("Total Debt", plain (crores totalDebtRaw));
         ("Total Equity", plain (crores totalEquityRaw));
         ("Debt-to-Equity Ratio", plain (ratio debtToEquityRatioRaw));
         ("Interest Paid (from Cash Flow St.)",
          plain (crores interestPaidCASRaw));
         ("Net Interest Income/(Expense) (from Income St.)",
          plain (crores netInterestIncomeExpenseINCRaw));
         ("Tangible Book Value per Share",
          formatCurrencyInternal tangibleBookValuePerShareRaw
            DEFAULT_NA_STRING);
         ("Long Term Investments", plain (crores longTermInvestmentsBALRaw));
         ("Accrued Expenses", plain (crores accruedExpensesBALRaw));
         ("Other Current Liabilities",
          plain (crores otherCurrentLiabilitiesBALRaw));
         ("Other Non-Current Liabilities",
          plain (crores otherNonCurrentLiabilitiesBALRaw)) ];
     totalAssetsBALRaw := totalAssetsBALRaw;
     tangibleBookValuePerShareRaw := tangibleBookValuePerShareRaw;
     totalEquityRaw := totalEquityRaw |}.

(** [calculateAssetQualityInsightsInternal] *)
Definition percentOfAssets (partRaw totalAssetsBALRaw : jsval) : jsval :=
  if num_gtb (parseFloat totalAssetsBALRaw) (Fin 0)
     && negb (strictEqStr partRaw DEFAULT_NA_STRING)
  then VNum (num_mul (num_div (parseFloat partRaw)
                              (parseFloat totalAssetsBALRaw))
                     (Fin (qc 100)))
  else VStr DEFAULT_NA_STRING.

Definition calculateAssetQualityInsightsInternal
    (totalAssetsBALRaw goodwillNetRaw intangiblesNetRaw : jsval)
    : list (string * formatted) :=
  let goodwillPercentOfAssets :=
    percentOfAssets goodwillNetRaw totalAssetsBALRaw in
  let intangiblesPercentOfAssets :=
    percentOfAssets intangiblesNetRaw totalAssetsBALRaw in
  [ ("Goodwill as % of Total Assets",
     formatPercentageInternal goodwillPercentOfAssets DEFAULT_NA_STRING false);
    ("Intangibles as % of Total Assets",
     formatPercentageInternal intangiblesPercentOfAssets DEFAULT_NA_STRING
       false) ].

(** [calculateLiquidityRatiosInternal] *)
Definition calculateLiquidityRatiosInternal
    (stockDataFinancials : list yearRecord) : list (string * formatted) :=
  let cashAndShortTermInvRaw :=
    latest stockDataFinancials "BAL" "CashandShortTermInvestments" in
  let totalCurrentAssetsRaw :=
    latest stockDataFinancials "BAL" "TotalCurrentAssets" in
  let totalCurrentLiabilitiesRaw :=
    latest stockDataFinancials "BAL" "TotalCurrentLiabilities" in
  let currentRatioRaw :=
    if negb (strictEqStr totalCurrentLiabilitiesRaw DEFAULT_NA_STRING)
       && negb (num_eqb (parseFloat totalCurrentLiabilitiesRaw) (Fin 0))
       && negb (strictEqStr totalCurrentAssetsRaw DEFAULT_NA_STRING)
    then VNum (num_div (parseFloat totalCurrentAssetsRaw)
                       (parseFloat totalCurrentLiabilitiesRaw))
    else VStr DEFAULT_NA_STRING in
  [ ("Cash & Short Term Investments", crores cashAndShortTermInvRaw);
    ("Total Current Assets", crores totalCurrentAssetsRaw);
    ("Total Current Liabilities", crores totalCurrentLiabilitiesRaw);
    ("Current Ratio", ratio currentRatioRaw) ].

(** [calculateHistoricalPerformanceMetricsInternal]; [Math.pow] is the
    parameter of [calculateCAGRInternal]. *)
Section Historical.
Variable Math_pow : num -> num -> num.

Record metricDef := { key : string; label : string; statement : string }.

Definition cagrMetricDefinitions : list metricDef :=
  [ {| key := "Revenue"; label := "Revenue"; statement := "INC" |};
    {| key := "NetIncome"; label := "Net Income"; statement := "INC" |};
    {| key := "DilutedEPSExcludingExtraOrdItems"; label := "Diluted EPS";
       statement := "INC" |} ].

(** The callback of [cagrMetricDefinitions.forEach]. *)
Definition historical_step (stockDataFinancials : list yearRecord)
    (metrics : list (string * formatted)) (metricDef : metricDef)
    : list (string * formatted) :=
  let numFinancialYears := length stockDataFinancials in
  let find yearIndex :=
    findFinancialByYearInternal stockDataFinancials yearIndex
      (statement metricDef) (key metricDef) (VStr DEFAULT_NA_STRING) in
  let currentValue := find 0%nat in
  let metrics3 :=
    if (3 <=? numFinancialYears)%nat then
      (metrics ++
         [ ((label metricDef ++ " CAGR (3Y)")%string,
            calculateCAGRInternal Math_pow currentValue (find 2%nat)
              (Fin (qc 2)) DEFAULT_NA_STRING) ])%list
    else metrics in
  if (5 <=? numFinancialYears)%nat then
    (metrics3 ++
       [ ((label metricDef ++ " CAGR (5Y)")%string,
          calculateCAGRInternal Math_pow currentValue (find 4%nat)
            (Fin (qc 4)) DEFAULT_NA_STRING) ])%list
  else metrics3.

Definition calculateHistoricalPerformanceMetricsInternal
    (stockDataFinancials : list yearRecord) : list (string * formatted) :=
  fold_left (historical_step stockDataFinancials) cagrMetricDefinitions [].
End Historical.

End Ratios.

Import Ratios.

(** ** Statement tables and the primary company ([apiAdapter.js], [utils.js]) *)

Module Statements.

Local Open Scope string_scope.

(** An entry of a raw statement array: [key] is a string or absent,
    [value] any value. *)
Record item := { itemKey : option string; itemValue : jsval }.

(** [stockFinancialMap]: each statement array may be absent. *)
Record financialMap := {
  INC : option (list item);
  BAL : option (list item);
  CAS : option (list item) }.

Record rawYear := { stockFinancialMap : option financialMap }.

(** [getSafe(() => item.key, 'unknownKey')] as a property name *)
Definition keyOf (it : item) : string :=
  match getSafeInternal (VStr <$> itemKey it) (VStr "unknownKey") with
  | VStr s => s
  | _ => "unknownKey"
  end.

(** The callback of [items.forEach]:
    [statement[getSafe(() => item.key, 'unknownKey')] =
     getSafe(() => item.value, DEFAULT_NA_STRING)]. *)
Definition store (statement : object) (it : item) : object :=
  <[keyOf it :=
      getSafeInternal (Some (itemValue it)) (VStr DEFAULT_NA_STRING)]>
    statement.

Definition transformItems (items : option (list item)) : object :=
  fold_left store (default [] items) ∅.

Definition transformYear (yearlyFinancial : rawYear) : yearRecord :=
  let items (sel : financialMap -> option (list item)) :=
    match stockFinancialMap yearlyFinancial with
    | Some m => sel m
    | None => None
    end in
  {| incomeStatement := Some (transformItems (items INC));
     balanceSheet := Some (transformItems (items BAL));
     cashFlowStatement := Some (transformItems (items CAS)) |}.

(** [transformFinancialStatements]; [None] is an input that is absent or
    not an array.  The [year] and [periodEndDate] texts of a year are
    left out. *)
Definition transformFinancialStatements (rawFinancials : option (list rawYear))
    : list yearRecord :=
  match rawFinancials with
  | None => []
  | Some l => transformYear <$> l
  end.

(** [s.includes(sub)] *)
Fixpoint includes (s sub : string) : bool :=
  String.prefix sub s
  || match s with
     | EmptyString => false
     | String _ r => includes r sub
     end.

(** [Array.prototype.find] with a callback that may throw. *)
Fixpoint findM {A} (f : A -> option bool) (l : list A) : option (option A) :=
  match l with
  | [] => Some None
  | x :: r =>
      b ← f x;
      if b : bool then Some (Some x) else findM f r
  end.

(** The two callbacks of [peers.find]. *)
Definition tickerIs (nseCode : string) (p : object) : option bool :=
  t ← toUpperCase <$>
        asString (getSafeInternal (Some (prop p "tickerId")) (VStr ""));
  Some (bool_decide (t = nseCode)).

Definition nameIncludes (word : string) (p : object) : option bool :=
  n ← toLowerCase <$>
        asString (getSafeInternal (Some (prop p "companyName")) (VStr ""));
  Some (includes n word).

(** [getPrimaryCompanyDataFromPeerListInternal]; [None] when a string
    method is called on a number.  The empty object is [∅]. *)
Definition getPrimaryCompanyDataFromPeerListInternal (stockJSON : rawApiData)
    : option object :=
  let peers := allPeersRaw stockJSON in
  nseCode ← nseCodeMain stockJSON;
  companyData ← findM (tickerIs nseCode) peers;
  match companyData with
  | Some p => Some p
  | None =>
      currentCompanyName ←
        toLowerCase <$>
          asString (getSafeInternal (Some (companyName stockJSON)) (VStr ""));
      if bool_decide (currentCompanyName = "") then Some ∅
      else
        companyData ←
          findM (nameIncludes (firstWord currentCompanyName)) peers;
        Some (default ∅ companyData)
  end.

End Statements.

Import Statements.

(** ** Reference definitions for the metrics *)

Module MetricsSpec.

Local Open Scope string_scope.

(** What a ratio metric shows for the numerator [n] over the denominator
    [den]: the N/A text when the denominator is N/A or parses to 0 or the
    numerator is N/A, and the formatted quotient of the parsed values
    otherwise. *)
Definition guardedQuotient (n den : jsval) (entry : formatted) : Prop :=
  (den = VStr DEFAULT_NA_STRING \/ parseFloat den = Fin 0
   \/ n = VStr DEFAULT_NA_STRING ->
   entry = notFormatted DEFAULT_NA_STRING)
  /\ (den <> VStr DEFAULT_NA_STRING -> parseFloat den <> Fin 0 ->
      n <> VStr DEFAULT_NA_STRING ->
      entry = formatRatioInternal
                (VNum (num_div (parseFloat n) (parseFloat den)))
                DEFAULT_NA_STRING).

(** What a percent-of-assets metric shows: the N/A text unless the total
    parses to a number above 0 and the part is not N/A, and the formatted
    percentage otherwise. *)
Definition guardedPercent (part total : jsval) (entry : formatted) : Prop :=
  (num_gtb (parseFloat total) (Fin 0) = false
   \/ part = VStr DEFAULT_NA_STRING ->
   entry = notFormatted DEFAULT_NA_STRING)
  /\ (num_gtb (parseFloat total) (Fin 0) = true ->
      part <> VStr DEFAULT_NA_STRING ->
      entry = formatPercentageInternal
                (VNum (num_mul (num_div (parseFloat part) (parseFloat total))
                               (Fin (qc 100))))
                DEFAULT_NA_STRING false).

(** A value that [getSafeInternal] lets through. *)
Definition usable (v : jsval) : bool :=
  match v with
  | VUndefined | VNull => false
  | VStr s => negb (bool_decide (s = "")) && negb (bool_decide (trim s = "-"))
  | VNum _ => true
  end.


(** The raw statement array that a statement type selects. *)
Definition rawStatementOf (statementType : string) (m : financialMap)
    : option (list item) :=
  if bool_decide (statementType = STMT_INC) then INC m
  else if bool_decide (statementType = STMT_BAL) then BAL m
  else if bool_decide (statementType = STMT_CAS) then CAS m
  else None.

(** Swapping the two verdicts of a comparison. *)
Definition opposite (status : string) : string :=
  if bool_decide (status = "better") then "worse"
  else if bool_decide (status = "worse") then "better"
  else status.

End MetricsSpec.

Import MetricsSpec.

(** A raw response of two years; the latest income statement lists the
    revenue twice and the net income as a dash. *)
Definition sample_raw_years : list rawYear :=
  [ {| stockFinancialMap :=
         Some {| INC := Some [ {| itemKey := Some "Revenue"%string;
                                  itemValue := VStr "900" |};
                               {| itemKey := Some "NetIncome"%string;
                                  itemValue := VStr "-" |};
                               {| itemKey := Some "Revenue"%string;
                                  itemValue := VStr "1000" |} ];
                 BAL := None;
                 CAS := Some [] |} |};
    {| stockFinancialMap := None |} ].

(** A year with no current liabilities, no equity and no assets, a net
    income of 0, an operating income of 30, a debt of 40 and an operating
    cash flow of 75; depreciation and capital expenditure are not
    reported. *)
Definition idle_year : list yearRecord :=
  [ {| incomeStatement :=
         Some (<["NetIncome"%string := VStr "0"]>
                 (<["OperatingIncome"%string := VStr "30"]> ∅));
       balanceSheet :=
         Some (<["TotalCurrentAssets"%string := VStr "120.5"]>
                 (<["TotalCurrentLiabilities"%string := VStr "0"]>
                    (<["TotalDebt"%string := VNum (Fin (qc 40))]>
                       (<["TotalEquity"%string := VStr "0.0"]>
                          (<["TotalAssets"%string := VStr "0"]> ∅)))));
       cashFlowStatement :=
         Some (<["CashfromOperatingActivities"%string := VStr "75"]> ∅) |} ].


(** ** The scorer's inputs and its tally *)

Module Bundle.

(** [series.length > 0 ? series[series.length - 1] : null] *)
Definition latestOf (series : list Qc) : slot :=
  if (0 <? length series)%nat then SNum (lastOf series) else SNull.

(** The [value] that [calculateIndicatorsForPeriod] stores under
    [SMA_<period>] and under [EMA_<period>]. *)
Definition smaValue (prices : list Qc) (period : nat) : slot :=
  if (period <=? length prices)%nat
  then latestOf (calculateSMAInternal prices period)
  else SNull.

Definition emaValue (prices : list Qc) (period : nat) : slot :=
  if (period <=? length prices)%nat
  then latestOf (calculateEMAInternal prices period)
  else SNull.

(** The scores account for the reasons: both are non-negative, both are
    0 without a reason, and one is positive with a reason. *)
Definition tallied (st : score) : Prop :=
  0 <= totalBullishScore st /\ 0 <= totalBearishScore st
  /\ (signalReasons st = [] ->
      totalBullishScore st = 0 /\ totalBearishScore st = 0)
  /\ (signalReasons st <> [] ->
      0 < totalBullishScore st + totalBearishScore st).

(** A step of a scoring loop that casts exactly one vote of the time
    frame's weight for each period the series is long enough for. *)
Definition one_vote (tfWeight : Qc) (prices : list Qc)
    (f : score -> nat -> score) : Prop :=
  forall st p,
    totalBullishScore (f st p) + totalBearishScore (f st p)
    = totalBullishScore st + totalBearishScore st
      + (if decide (p <= length prices)%nat then tfWeight else 0)
    /\ length (signalReasons (f st p))
       = (length (signalReasons st)
          + (if decide (p <= length prices)%nat then 1 else 0))%nat.

End Bundle.

Import Bundle.

(** ** Cleaning of the daily series ([useTechnicalAnalysis.js]) *)

Module Cleaning.

Local Open Scope string_scope.

(** An element of [combinedDailyData]. *)
Record point := { timestamp : Z; price : num; volume : num }.

(** [new Map(volumeDataset?.values?.map(item => [item[0], item[1]]) || [])];
    [None] is a missing volume dataset or one without [values].
    Timestamps are numbers. *)
Definition rawVolumeValuesByTs (volumeValues : option (list (Z * jsval)))
    : gmap Z jsval :=
  fold_left (fun m item => <[fst item := snd item]> m)
            (default [] volumeValues) ∅.

(** Body of [for (const priceItem of rawPriceValues)]. *)
Definition clean_step (byTs : gmap Z jsval) (combinedDailyData : list point)
    (priceItem : Z * jsval) : list point :=
  let timestamp := fst priceItem in
  let price := parseFloat (snd priceItem) in
  let rawVolume := default VUndefined (byTs !! timestamp) in
  let volume :=
    if negb (bool_decide (rawVolume = VUndefined)) then parseFloat rawVolume
    else NaN in
  if negb (isNaN price) && negb (isNaN volume)
  then combinedDailyData
         ++ [ {| timestamp := timestamp; price := price; volume := volume |} ]
  else combinedDailyData.

Definition combinedDailyData (rawPriceValues : list (Z * jsval))
    (volumeValues : option (list (Z * jsval))) : list point :=
  fold_left (clean_step (rawVolumeValuesByTs volumeValues)) rawPriceValues [].

(** The cleaned series, or the message of the error thrown when it is
    empty. *)
Definition cleanedDailyData (rawPriceValues : list (Z * jsval))
    (volumeValues : option (list (Z * jsval))) : string + list point :=
  let combined := combinedDailyData rawPriceValues volumeValues in
  if (length combined =? 0)%nat
  then inl "No valid combined daily price and volume data points found after cleaning."
  else inr combined.

(** The point that a price row gives, if it is kept. *)
Definition kept (byTs : gmap Z jsval) (priceItem : Z * jsval)
    : option point :=
  match clean_step byTs [] priceItem with
  | pt :: nil => Some pt
  | _ => None
  end.

End Cleaning.

(** * Properties *)

(** Equality of two concrete rationals, by evaluation. *)
Ltac qc_eq := apply Qc_is_canon; vm_compute; reflexivity.

(** Equality of two concrete lists of rationals. *)
Ltac qc_list_eq :=
  repeat (apply f_equal2; [qc_eq |]); reflexivity.

(** ** Lengths of the indicator series *)

Section IndicatorLengths.

Lemma slice_from_0 {A} (l : list A) (n : nat) : slice l 0 n = take n l.
Proof. unfold slice. now rewrite Nat.sub_0_r. Qed.

Lemma sma_length (data : list Qc) (period : nat) :
  (period <= length data)%nat ->
  length (calculateSMAInternal data period)
  = (length data - period + 1)%nat.
Proof.
  intros H. unfold calculateSMAInternal.
  destruct (Nat.ltb_spec (length data) period); [lia |].
  now rewrite length_map, length_seq.
Qed.

Lemma ema_loop_length (k cur : Qc) (rest : list Qc) :
  length (ema_loop k cur rest) = length rest.
Proof.
  revert cur. induction rest as [| x rest IH]; intros cur; simpl.
  - reflexivity.
  - now rewrite IH.
Qed.

Lemma rsi_loop_length (data : list Qc) (period : nat) (idx : list nat) :
  forall st,
    length (snd (fold_left (rsi_step data period) idx st))
    = (length (snd st) + length idx)%nat.
Proof.
  induction idx as [| i idx IH]; intros [[ag al] out]; simpl.
  - lia.
  - rewrite IH. simpl. rewrite length_app. simpl. lia.
Qed.

Lemma rsi_length_gen (data : list Qc) (period : nat) :
  length (calculateRSIInternal data period)
  = (length data - (period + 1))%nat.
Proof.
  unfold calculateRSIInternal.
  destruct (Nat.ltb_spec (length data) (period + 1)).
  - simpl. lia.
  - destruct (fold_left _ _ _) as [gains losses].
    rewrite rsi_loop_length, length_seq. simpl. lia.
Qed.

End IndicatorLengths.

(** C1, as stated, fails: on three prices and period 2 the guard
    [data.length < period + 1] lets the input through, but the smoothing
    loop starts at index [period + 1] and pushes nothing, so the result has
    length 0 where the claim announces [data.length - period = 1]. *)
Lemma rsi_length_counterexample :
  let data := [qc 1; qc 2; qc 3] in
  let period := 2%nat in
  (period + 1 <= length data)%nat
  /\ length (calculateRSIInternal data period) <> (length data - period)%nat.
Proof.
  intros data period. split.
  - simpl. lia.
  - rewrite rsi_length_gen. simpl. lia.
Qed.

(** C1 (amended): [calculateRSIInternal data period] is the empty array
    when [data.length < period + 1], and when [data.length >= period + 1]
    it has [data.length - period - 1] entries, one per index from
    [period + 1] on. *)
Theorem rsi_length (data : list Qc) (period : nat) :
  ((length data < period + 1)%nat -> calculateRSIInternal data period = [])
  /\ ((period + 1 <= length data)%nat ->
      length (calculateRSIInternal data period)
      = (length data - period - 1)%nat).
Proof.
  split; intros H.
  - apply length_zero_iff_nil. rewrite rsi_length_gen. lia.
  - rewrite rsi_length_gen. lia.
Qed.

Lemma rsi_length_witness :
  calculateRSIInternal [qc 1; qc 2] 2 = []
  /\ length (calculateRSIInternal [qc 1; qc 3; qc 2; qc 5; qc 4] 2) = 2%nat.
Proof.
  split.
  - apply (proj1 (rsi_length [qc 1; qc 2] 2)). simpl. lia.
  - apply (proj2 (rsi_length [qc 1; qc 3; qc 2; qc 5; qc 4] 2)). simpl. lia.
Defined.

(** ** Exponential moving average *)

Section EMA.

Lemma ema_loop_lookup (k : Qc) (rest : list Qc) :
  forall (cur : Qc) (j : nat) (prev x : Qc),
    (cur :: ema_loop k cur rest) !! j = Some prev ->
    rest !! j = Some x ->
    (cur :: ema_loop k cur rest) !! S j = Some (x * k + prev * (1 - k)).
Proof.
  induction rest as [| y rest IH]; intros cur j prev x Hprev Hx.
  - destruct j; discriminate.
  - destruct j as [| j].
    + simpl in *. congruence.
    + simpl in Hprev, Hx. change ((cur :: ema_loop k cur (y :: rest)) !! S (S j))
        with ((y * k + cur * (1 - k)
               :: ema_loop k (y * k + cur * (1 - k)) rest) !! S j).
      now apply IH.
Qed.

End EMA.

(** C4: for [data.length >= period], [calculateEMAInternal data period]
    has [data.length - period + 1] entries; for a period of at least 1,
    entry 0 is the simple mean of the first [period] values, and the entry
    after entry [j] is [data[period + j] * k + ema[j] * (1 - k)] with
    [k = 2 / (period + 1)]; on [[1,2,3,4,5]] with period 3 the result is
    [[2,3,4]]. *)
Theorem ema_spec (data : list Qc) (period : nat) :
  (period <= length data)%nat ->
  let ema := calculateEMAInternal data period in
  let k := qc 2 / of_nat (period + 1) in
  length ema = (length data - period + 1)%nat
  /\ ((0 < period)%nat ->
      ema !! 0%nat = Some (sum (take period data) / of_nat period)
      /\ (forall (j : nat) (prev x : Qc),
            ema !! j = Some prev ->
            data !! (period + j)%nat = Some x ->
            ema !! S j = Some (x * k + prev * (1 - k))))
  /\ calculateEMAInternal [qc 1; qc 2; qc 3; qc 4; qc 5] 3
     = [qc 2; qc 3; qc 4].
Proof.
  intros H ema k. subst ema k. unfold calculateEMAInternal.
  destruct (Nat.ltb_spec (length data) period); [lia |].
  rewrite slice_from_0. split; [| split].
  - simpl. rewrite ema_loop_length, length_drop. lia.
  - intros _. split; [reflexivity |].
    intros j prev x Hprev Hx.
    apply ema_loop_lookup; [exact Hprev |].
    now rewrite lookup_drop.
  - simpl. qc_list_eq.
Qed.

Lemma ema_spec_witness :
  length (calculateEMAInternal [qc 10; qc 20; qc 30; qc 40] 2) = 3%nat
  /\ calculateEMAInternal [qc 10; qc 20; qc 30; qc 40] 2 !! 0%nat
     = Some (sum [qc 10; qc 20] / of_nat 2).
Proof.
  pose proof (ema_spec [qc 10; qc 20; qc 30; qc 40] 2) as E.
  assert (Hlen : (2 <= length [qc 10; qc 20; qc 30; qc 40])%nat)
    by (simpl; lia).
  destruct (E Hlen) as (L & V & _). split; [exact L |].
  apply V. lia.
Defined.

(** ** Bollinger bands *)

Section Bollinger.
Variable sqrt : Qc -> Qc.

Lemma stddev_length (data : list Qc) (period : nat) :
  (period <= length data)%nat ->
  length (calculateStandardDeviationInternal sqrt data period)
  = (length data - period + 1)%nat.
Proof.
  intros H. unfold calculateStandardDeviationInternal.
  destruct (Nat.ltb_spec (length data) period); [lia |].
  now rewrite length_map, length_seq.
Qed.

Lemma nth_lookup_Qc (l : list Qc) (i : nat) (x : Qc) :
  l !! i = Some x -> nth i l 0 = x.
Proof.
  intros H. now rewrite (nth_lookup_Some l i 0 x H).
Qed.

Lemma bands_lookup (data : list Qc) (period : nat) (numStdDev : Qc) :
  (period <= length data)%nat ->
  let b := calculateBollingerBandsInternal sqrt data period numStdDev in
  forall (i : nat) (m sd : Qc),
    calculateSMAInternal data period !! i = Some m ->
    calculateStandardDeviationInternal sqrt data period !! i = Some sd ->
    middle b !! i = Some m
    /\ upper b !! i = Some (m + sd * numStdDev)
    /\ lower b !! i = Some (m - sd * numStdDev).
Proof.
  intros H b i m sd Hm Hsd. subst b.
  unfold calculateBollingerBandsInternal.
  destruct (Nat.ltb_spec (length data) period); [lia |]. simpl.
  assert (Hi : (i < length (calculateSMAInternal data period))%nat)
    by (eapply lookup_lt_Some; eauto).
  repeat split; [exact Hm | |].
  - rewrite list_lookup_fmap, lookup_seq_lt by exact Hi. simpl.
    now rewrite (nth_lookup_Qc _ _ _ Hm), (nth_lookup_Qc _ _ _ Hsd).
  - rewrite list_lookup_fmap, lookup_seq_lt by exact Hi. simpl.
    now rewrite (nth_lookup_Qc _ _ _ Hm), (nth_lookup_Qc _ _ _ Hsd).
Qed.

End Bollinger.

(** C9: for [data.length >= period] and every multiplier, the three bands
    have the same length [data.length - period + 1]; for a period of at
    least 1, every index of that range holds
    [upper[i] = middle[i] + stddev[i] * k] and
    [lower[i] = middle[i] - stddev[i] * k], and therefore
    [upper[i] - middle[i] = middle[i] - lower[i]] exactly. *)
Theorem bollinger_symmetric (sqrt : Qc -> Qc) (data : list Qc)
    (period : nat) (numStdDev : Qc) :
  (period <= length data)%nat ->
  let b := calculateBollingerBandsInternal sqrt data period numStdDev in
  let stdDevs := calculateStandardDeviationInternal sqrt data period in
  length (middle b) = (length data - period + 1)%nat
  /\ length (upper b) = length (middle b)
  /\ length (lower b) = length (middle b)
  /\ ((0 < period)%nat ->
      forall i : nat, (i < length (middle b))%nat ->
        exists u m l sd : Qc,
          upper b !! i = Some u /\ middle b !! i = Some m
          /\ lower b !! i = Some l /\ stdDevs !! i = Some sd
          /\ u = m + sd * numStdDev /\ l = m - sd * numStdDev
          /\ u - m = m - l).
Proof.
  intros H b stdDevs.
  assert (Hmid : middle b = calculateSMAInternal data period).
  { subst b. unfold calculateBollingerBandsInternal.
    destruct (Nat.ltb_spec (length data) period); [lia | reflexivity]. }
  assert (Hup : length (upper b) = length (middle b)).
  { subst b. unfold calculateBollingerBandsInternal.
    destruct (Nat.ltb_spec (length data) period); [lia |].
    simpl. now rewrite length_map, length_seq. }
  assert (Hlo : length (lower b) = length (middle b)).
  { subst b. unfold calculateBollingerBandsInternal.
    destruct (Nat.ltb_spec (length data) period); [lia |].
    simpl. now rewrite length_map, length_seq. }
  repeat split; try assumption.
  - rewrite Hmid. now apply sma_length.
  - intros _ i Hi. rewrite Hmid in Hi.
    destruct (lookup_lt_is_Some_2 (calculateSMAInternal data period) i Hi)
      as [m Hm].
    assert (Hsd : is_Some (stdDevs !! i)).
    { apply lookup_lt_is_Some_2. subst stdDevs.
      rewrite stddev_length by exact H.
      now rewrite <- (sma_length data period H). }
    destruct Hsd as [sd Hsd].
    destruct (bands_lookup sqrt data period numStdDev H i m sd Hm Hsd)
      as (Bm & Bu & Bl).
    exists (m + sd * numStdDev), m, (m - sd * numStdDev), sd.
    repeat split; try assumption; try reflexivity.
    ring.
Qed.

Lemma bollinger_symmetric_witness :
  let b := calculateBollingerBandsInternal
             (fun x => x) [qc 1; qc 2; qc 4; qc 8] 2 (qc 2) in
  length (middle b) = 3%nat
  /\ exists u m l : Qc,
       upper b !! 1%nat = Some u /\ middle b !! 1%nat = Some m
       /\ lower b !! 1%nat = Some l /\ u - m = m - l.
Proof.
  intros b.
  assert (Hlen : (2 <= length [qc 1; qc 2; qc 4; qc 8])%nat) by (simpl; lia).
  destruct (bollinger_symmetric (fun x => x) [qc 1; qc 2; qc 4; qc 8] 2
              (qc 2) Hlen) as (L & _ & _ & S).
  fold b in L, S. cbn [length Nat.sub Nat.add] in L.
  assert (Hi : (1 < length (middle b))%nat) by (rewrite L; lia).
  destruct (S (Nat.lt_0_succ 1) 1%nat Hi)
    as (u & m & l & sd & Hu & Hm & Hl & _ & _ & _ & E).
  split; [exact L |]. exists u, m, l. auto.
Defined.

(** ** Rolling VWAP *)

Section VWAP.

Lemma fold_insert_length {A} (f : nat -> A) (idx : list nat) :
  forall l : list A,
    length (fold_left (fun acc i => <[i := f i]> acc) idx l) = length l.
Proof.
  induction idx as [| a idx IH]; intros l; simpl.
  - reflexivity.
  - now rewrite IH, length_insert.
Qed.

Lemma fold_insert_lookup {A} (f : nat -> A) (len : nat) :
  forall (a : nat) (l : list A) (i : nat),
    (a + len <= length l)%nat ->
    fold_left (fun acc i => <[i := f i]> acc) (seq a len) l !! i
    = if decide (a <= i < a + len)%nat then Some (f i) else l !! i.
Proof.
  induction len as [| len IH]; intros a l i Hlen; simpl.
  - destruct (decide _) as [Hin | _]; [lia | reflexivity].
  - rewrite IH by (rewrite length_insert; lia).
    destruct (decide (S a <= i < S a + len)%nat) as [Hin | Hout].
    + destruct (decide _) as [_ | Hn]; [reflexivity | lia].
    + destruct (decide (a = i)) as [-> | Hne].
      * rewrite list_lookup_insert_eq by lia.
        destruct (decide _) as [_ | Hn]; [reflexivity | lia].
      * rewrite list_lookup_insert_ne by exact Hne.
        destruct (decide _) as [Hin | _]; [lia | reflexivity].
Qed.

Variables prices volumes : list cell.

Lemma window_S (period i : nat) :
  (S period <= i + 1)%nat ->
  window (S period) i = (i - period)%nat :: window period i.
Proof.
  intros H. unfold window. simpl.
  replace (i + 1 - S period)%nat with (i - period)%nat by lia.
  replace (i + 1 - period)%nat with (S (i - period)) by lia.
  reflexivity.
Qed.

Lemma vwap_inner_point (i j : nat) (acc : Qc * Qc) :
  vwap_inner prices volumes i acc j
  = match valid_point prices volumes (i - j) with
    | Some (p, v) => (fst acc + p * v, snd acc + v)
    | None => acc
    end.
Proof.
  destruct acc as [a b]. unfold vwap_inner, valid_point.
  destruct (prices !! (i - j)%nat) as [[p |] |];
    destruct (volumes !! (i - j)%nat) as [[v |] |]; reflexivity.
Qed.

(** The two sums of the inner loop are the sums over the valid points of
    the window. *)
Lemma vwap_inner_sums (i period : nat) :
  (period <= i + 1)%nat ->
  let pts := omap (valid_point prices volumes) (window period i) in
  fold_left (vwap_inner prices volumes i) (seq 0 period) (0, 0)
  = (total ((fun pv => fst pv * snd pv) <$> pts), total (snd <$> pts)).
Proof.
  induction period as [| period IH]; intros H; cbv zeta in *.
  - reflexivity.
  - rewrite seq_S, fold_left_app, IH by lia.
    rewrite window_S by lia.
    cbn [fold_left Nat.add omap list_omap].
    rewrite vwap_inner_point.
    destruct (valid_point prices volumes (i - period)) as [[p v] |];
      [| reflexivity].
    cbn [fmap list_fmap total fst snd].
    f_equal; apply Qcplus_comm.
Qed.

Lemma vwap_at_window (i period : nat) :
  (period <= i + 1)%nat ->
  vwap_at prices volumes period i = vwap_window prices volumes period i.
Proof.
  intros H. unfold vwap_at, vwap_window.
  rewrite vwap_inner_sums by exact H. reflexivity.
Qed.

End VWAP.

(** C7, as stated, fails: an invalid point inside the window does not make
    the entry [null]; the inner loop skips it and averages the remaining
    points.  Here index 1 has a [null] price in its window and still gets
    the value 1. *)
Lemma vwap_invalid_point_counterexample :
  let prices := [Some (qc 1); None] in
  let volumes := [Some (qc 1); Some (qc 1)] in
  let period := 2%nat in
  length prices = length volumes
  /\ (period <= length prices)%nat
  /\ prices !! 1%nat = Some None
  /\ calculateRollingVWAPInternal prices volumes period !! 1%nat
     = Some (Some (qc 1))
  /\ calculateRollingVWAPInternal prices volumes period !! 1%nat
     <> Some None.
Proof.
  assert (E : calculateRollingVWAPInternal
                [Some (qc 1); None] [Some (qc 1); Some (qc 1)] 2 !! 1%nat
              = Some (Some (qc 1))).
  { unfold calculateRollingVWAPInternal. simpl. unfold vwap_at. simpl.
    do 2 f_equal; try qc_eq. }
  intros prices volumes period. subst prices volumes period.
  split; [reflexivity |]. split; [simpl; lia |]. split; [reflexivity |].
  split; [exact E |]. rewrite E. discriminate.
Qed.

(** C7 (amended): for equal-length arrays with [n >= period] the result
    has length [n], is [null] at every index below [period - 1], and at
    every index [i >= period - 1] it is the quotient of the sums of
    [price * volume] and of [volume] taken over the valid points of the
    trailing window (invalid points are skipped), or [null] when that
    volume sum is not positive. *)
Theorem vwap_spec (prices volumes : list cell) (period : nat) :
  length prices = length volumes ->
  (period <= length prices)%nat ->
  let r := calculateRollingVWAPInternal prices volumes period in
  length r = length prices
  /\ (forall i : nat, (i < period - 1)%nat -> r !! i = Some None)
  /\ (forall i : nat, (period - 1 <= i < length prices)%nat ->
        r !! i = Some (vwap_window prices volumes period i)).
Proof.
  intros Hlen Hper r. subst r. unfold calculateRollingVWAPInternal.
  rewrite Hlen, Nat.eqb_refl. simpl.
  destruct (Nat.ltb_spec (length volumes) period) as [Hlt | _]; [lia |].
  repeat split.
  - now rewrite fold_insert_length, length_replicate.
  - intros i Hi.
    rewrite fold_insert_lookup by (rewrite length_replicate; lia).
    destruct (decide _) as [Hin | _]; [lia |].
    apply lookup_replicate_2. lia.
  - intros i Hi.
    rewrite fold_insert_lookup by (rewrite length_replicate; lia).
    destruct (decide _) as [_ | Hout]; [| lia].
    f_equal. apply vwap_at_window. lia.
Qed.

Lemma vwap_spec_witness :
  length (calculateRollingVWAPInternal
            [Some (qc 10); Some (qc 12); None]
            [Some (qc 3); Some (qc 1); Some (qc 1)] 2) = 3%nat.
Proof.
  refine (proj1 (vwap_spec [Some (qc 10); Some (qc 12); None]
                   [Some (qc 3); Some (qc 1); Some (qc 1)] 2 _ _)).
  - reflexivity.
  - simpl. lia.
Defined.

(** ** Resampling conserves volume *)

Section VolumeConservation.

Lemma sum_snoc (l : list Qc) (x : Qc) : sum (l ++ [x]) = sum l + x.
Proof. unfold sum. now rewrite fold_left_app. Qed.


(** The numbers and their addition are those of the host.  What follows
    assumes of the addition what exact arithmetic gives: associativity
    and a neutral [0]. *)
Context {N : Type} `{Addition N}.
Hypothesis add_assoc :
  forall x y z : N, js_add x (js_add y z) = js_add (js_add x y) z.
Hypothesis add_0_l : forall x : N, js_add js_zero x = x.
Hypothesis add_0_r : forall x : N, js_add x js_zero = x.




Variable getDay : epoch_ms -> Z.
Variable addDays : epoch_ms -> Z -> epoch_ms.
Variable startOfDay : epoch_ms -> epoch_ms.
Variable getFullYear : epoch_ms -> Z.
Variable getMonth : epoch_ms -> Z.
Variable firstOfMonth : Z -> Z -> epoch_ms.

Let weekly_step := weekly_step (N := N) getDay addDays startOfDay.
Let weekly_loop := weekly_loop (N := N) getDay addDays startOfDay.
Let monthly_step := monthly_step (N := N) getFullYear getMonth firstOfMonth.
Let monthly_loop := monthly_loop (N := N) getFullYear getMonth firstOfMonth.









End VolumeConservation.




Example weekly_buckets :
  let w := UTC.resampleToWeekly sample_days sample_volumes in
  weeklyTimestamps w = [1704067200000; 1704672000000; 1706486400000]%Z
  /\ weeklyPrices w = [qc 102; qc 101; qc 105]
  /\ weeklyVolumes w = [qc 30; qc 30; qc 40].
Proof.
  intros w. subst w. split; [| split].
  - vm_compute. reflexivity.
  - vm_compute. qc_list_eq.
  - vm_compute. qc_list_eq.
Qed.

Example monthly_buckets :
  let m := UTC.resampleToMonthly sample_days sample_volumes in
  monthlyTimestamps m = [1704067200000; 1706745600000]%Z
  /\ monthlyPrices m = [qc 101; qc 105]
  /\ monthlyVolumes m = [qc 60; qc 40].
Proof.
  intros m. subst m. split; [| split].
  - vm_compute. reflexivity.
  - vm_compute. qc_list_eq.
  - vm_compute. qc_list_eq.
Qed.

(** ** Signal scorer *)

(** Linear facts about rationals, decided on their fractions. *)
Ltac qc_lra :=
  unfold Qclt, Qcle, qc, of_nat in *;
  cbn [this Qcmult Qcplus Qcminus Qcopp Q2Qc] in *;
  rewrite ?Qred_correct in *; lra.

Section ScoreInvariant.

Lemma scaled_nonneg (c w : Qc) : 0 <= c -> 0 <= w -> 0 <= c * w.
Proof.
  intros Hc Hw. unfold Qcle in *. cbn [this Qcmult Q2Qc] in *.
  rewrite ?Qred_correct in *. now apply Qmult_le_0_compat.
Qed.

Lemma bullish_nonneg st amount reason :
  nonneg st -> 0 <= amount -> nonneg (bullish st amount reason).
Proof. intros [HB HR] Ha. split; simpl; [qc_lra | exact HR]. Qed.

Lemma bearish_nonneg st amount reason :
  nonneg st -> 0 <= amount -> nonneg (bearish st amount reason).
Proof. intros [HB HR] Ha. split; simpl; [exact HB | qc_lra]. Qed.

Lemma const_nonneg (q : Q) : (0 <= q)%Q -> 0 <= qc q.
Proof.
  intros H. unfold Qcle, qc. cbn [this Q2Qc].
  rewrite !Qred_correct. exact H.
Qed.

Ltac vote :=
  repeat match goal with
         | |- nonneg (if ?c then _ else _) => destruct c
         | |- nonneg (match ?c with _ => _ end) => destruct c
         | |- nonneg (bullish _ _ _) => apply bullish_nonneg
         | |- nonneg (bearish _ _ _) => apply bearish_nonneg
         | |- 0 <= _ * _ => apply scaled_nonneg
         | |- 0 <= qc _ => apply const_nonneg; lra
         | |- 0 <= 1 => apply (const_nonneg 1); lra
         end;
  try assumption.

Variables (tfName : string) (tfWeight currentPrice : Qc).
Hypothesis weight_nonneg : 0 <= tfWeight.

Lemma scoreSMA_nonneg values st p :
  nonneg st -> nonneg (scoreSMA tfName tfWeight currentPrice values st p).
Proof. intros H. unfold scoreSMA. vote. Qed.

Lemma scoreEMA_nonneg values st p :
  nonneg st -> nonneg (scoreEMA tfName tfWeight currentPrice values st p).
Proof. intros H. unfold scoreEMA. vote. Qed.

Lemma scoreMACD_nonneg m st :
  nonneg st -> nonneg (scoreMACD tfName tfWeight m st).
Proof. intros H. unfold scoreMACD. vote. Qed.

Lemma scoreRSI_nonneg r st :
  nonneg st -> nonneg (scoreRSI tfName tfWeight r st).
Proof. intros H. unfold scoreRSI. vote. Qed.

Lemma scoreVWAP_nonneg v st :
  nonneg st -> nonneg (scoreVWAP tfName tfWeight currentPrice v st).
Proof. intros H. unfold scoreVWAP. vote. Qed.

Lemma scoreOBV_nonneg obv st :
  nonneg st -> nonneg (scoreOBV tfName tfWeight obv st).
Proof. intros H. unfold scoreOBV. vote. Qed.

Lemma fold_nonneg {A} (f : score -> A -> score) (l : list A) :
  (forall st x, nonneg st -> nonneg (f st x)) ->
  forall st, nonneg st -> nonneg (fold_left f l st).
Proof.
  intros Hf. induction l as [| x l IH]; intros st H; simpl; auto.
Qed.

End ScoreInvariant.

Lemma scoreTimeframe_nonneg currentPrice st tf :
  0 <= weight tf -> nonneg st -> nonneg (scoreTimeframe currentPrice st tf).
Proof.
  intros Hw H. unfold scoreTimeframe. destruct (data tf) as [e | ind].
  - exact H.
  - apply scoreOBV_nonneg, scoreVWAP_nonneg, scoreRSI_nonneg,
      scoreMACD_nonneg; try exact Hw.
    apply fold_nonneg; [intros; now apply scoreEMA_nonneg |].
    apply fold_nonneg; [intros; now apply scoreSMA_nonneg |].
    exact H.
Qed.

Lemma scoreAll_nonneg currentPrice daily weekly monthly :
  nonneg (scoreAll currentPrice daily weekly monthly).
Proof.
  unfold scoreAll, timeframes. simpl.
  repeat apply scoreTimeframe_nonneg; simpl;
    try (apply const_nonneg; lra); try (apply (const_nonneg 1); lra).
  split; simpl; apply Qcle_refl.
Qed.

Section Classification.

Variable st : score.
Hypothesis scores_nonneg : nonneg st.

Let B := totalBullishScore st.
Let R := totalBearishScore st.

Lemma not_both_sides : R * qc 1.1 < B -> B * qc 1.1 < R -> False.
Proof. destruct scores_nonneg. subst B R. intros. qc_lra. Qed.

Lemma no_votes_test :
  (length (signalReasons st) =? 0)%nat && eqb B 0 && eqb R 0 = true
  <-> B = 0 /\ R = 0 /\ signalReasons st = [].
Proof.
  unfold eqb. rewrite !andb_true_iff, !bool_decide_eq_true, Nat.eqb_eq.
  rewrite length_zero_iff_nil. tauto.
Qed.

Lemma zero_not_above : B = 0 -> R = 0 -> ~ R * qc 1.1 < B /\ ~ B * qc 1.1 < R.
Proof.
  intros -> ->. split; intros H; apply (Qclt_not_eq _ _ H); qc_eq.
Qed.

Lemma finalSignal_cases :
  (finalSignal st = "Bullish"%string <-> R * qc 1.1 < B)
  /\ (finalSignal st = "Bearish"%string <-> B * qc 1.1 < R)
  /\ (finalSignal st = "Not Enough Data for Signal"%string
      <-> B = 0 /\ R = 0 /\ signalReasons st = [])
  /\ (finalSignal st = "Neutral"%string
      <-> ~ R * qc 1.1 < B /\ ~ B * qc 1.1 < R
          /\ ~ (B = 0 /\ R = 0 /\ signalReasons st = [])).
Proof.
  unfold finalSignal. fold B R.
  destruct ((length (signalReasons st) =? 0)%nat && eqb B 0 && eqb R 0)
    eqn:Hnv.
  - apply no_votes_test in Hnv. destruct Hnv as (HB & HR & Hrs).
    destruct (zero_not_above HB HR) as [N1 N2].
    repeat split; intros; try discriminate; try tauto.
  - assert (Hvotes : ~ (B = 0 /\ R = 0 /\ signalReasons st = [])).
    { intros H. apply no_votes_test in H. congruence. }
    unfold gtb.
    destruct (bool_decide_reflect (R * qc 1.1 < B)) as [Hb | Hb].
    + pose proof (not_both_sides Hb).
      repeat split; intros; try discriminate; try tauto.
    + destruct (bool_decide_reflect (B * qc 1.1 < R)) as [Hr | Hr];
        repeat split; intros; try discriminate; try tauto.
Qed.

End Classification.

(** C3: with [B] and [R] the scores accumulated over the three time
    frames, the signal is "Bullish" exactly when [B > R * 1.1], "Bearish"
    exactly when [R > B * 1.1], "Not Enough Data for Signal" exactly when no
    vote was cast ([B = 0], [R = 0], no reason collected), and "Neutral" in
    every other case. *)
Theorem final_classification (currentPrice : Qc)
    (daily weekly monthly : tfdata) :
  let st := scoreAll currentPrice daily weekly monthly in
  let B := totalBullishScore st in
  let R := totalBearishScore st in
  let noVotes := B = 0 /\ R = 0 /\ signalReasons st = [] in
  (finalSignal st = "Bullish"%string <-> R * qc 1.1 < B)
  /\ (finalSignal st = "Bearish"%string <-> B * qc 1.1 < R)
  /\ (finalSignal st = "Not Enough Data for Signal"%string <-> noVotes)
  /\ (finalSignal st = "Neutral"%string
      <-> ~ R * qc 1.1 < B /\ ~ B * qc 1.1 < R /\ ~ noVotes).
Proof.
  intros st B R noVotes.
  exact (finalSignal_cases st (scoreAll_nonneg currentPrice daily weekly monthly)).
Qed.

(** The effect reports that classification once its guards are passed. *)
Lemma effect_reports_final_signal (a : analysisData) (ind : indicators)
    (currentPrice : Qc) :
  error a = None -> daily a = TfData ind ->
  currentPriceForAnalysis a = Some currentPrice -> currentPrice <> 0 ->
  signalText (technicalSignalEffect "analysis" (Some a))
  = finalSignal (scoreAll currentPrice (daily a) (weekly a) (monthly a)).
Proof.
  intros He Hd Hp Hnz. unfold technicalSignalEffect.
  rewrite He, Hd, Hp. simpl. unfold eqb.
  rewrite bool_decide_false by exact Hnz. reflexivity.
Qed.

(** ** Ties between the price and a moving average *)

(** C10: for a time frame of any name and weight and an available average
    [v] of period [p] (SMA or EMA alike), the vote is bullish exactly when
    the price is strictly above [v]; otherwise, and in particular when the
    price equals [v], the bearish score grows by [1 * weight], the bullish
    score stays, and the reason "Price < ..." is appended: one side always
    scores. *)
Theorem ma_tie_votes_bearish (tfName : string) (tfWeight currentPrice : Qc)
    (values : nat -> slot) (st : score) (p : nat) (v : Qc) :
  values p = SNum v ->
  let sma := scoreSMA tfName tfWeight currentPrice values st p in
  let ema := scoreEMA tfName tfWeight currentPrice values st p in
  (currentPrice = v ->
     sma = {| totalBullishScore := totalBullishScore st;
              totalBearishScore := totalBearishScore st + 1 * tfWeight;
              signalReasons :=
                signalReasons st
                ++ (tfName ++ ": Price < SMA " ++ showNat p)%string :: nil |}
     /\ ema = {| totalBullishScore := totalBullishScore st;
                 totalBearishScore := totalBearishScore st + 1 * tfWeight;
                 signalReasons :=
                   signalReasons st
                   ++ (tfName ++ ": Price < EMA " ++ showNat p)%string
                      :: nil |})
  /\ (v < currentPrice ->
        sma = {| totalBullishScore := totalBullishScore st + 1 * tfWeight;
                 totalBearishScore := totalBearishScore st;
                 signalReasons :=
                   signalReasons st
                   ++ (tfName ++ ": Price > SMA " ++ showNat p)%string
                      :: nil |}
        /\ ema = {| totalBullishScore := totalBullishScore st + 1 * tfWeight;
                    totalBearishScore := totalBearishScore st;
                    signalReasons :=
                      signalReasons st
                      ++ (tfName ++ ": Price > EMA " ++ showNat p)%string
                         :: nil |})
  /\ (~ v < currentPrice ->
        sma = {| totalBullishScore := totalBullishScore st;
                 totalBearishScore := totalBearishScore st + 1 * tfWeight;
                 signalReasons :=
                   signalReasons st
                   ++ (tfName ++ ": Price < SMA " ++ showNat p)%string
                      :: nil |}
        /\ ema = {| totalBullishScore := totalBullishScore st;
                    totalBearishScore := totalBearishScore st + 1 * tfWeight;
                    signalReasons :=
                      signalReasons st
                      ++ (tfName ++ ": Price < EMA " ++ showNat p)%string
                         :: nil |}).
Proof.
  intros Hv. cbv zeta. unfold scoreSMA, scoreEMA. rewrite Hv.
  cbn [notNull js_gt toNumber]. unfold gtb, bullish, bearish.
  split; [| split]; intros Hcmp.
  - subst v. rewrite bool_decide_false by apply (irreflexivity Qclt). now split.
  - rewrite bool_decide_true by exact Hcmp. now split.
  - rewrite bool_decide_false by exact Hcmp. now split.
Qed.

Lemma ma_tie_votes_bearish_witness :
  scoreSMA "Daily" 1 (qc 100) (fun _ => SNum (qc 100)) score0 20
  = {| totalBullishScore := totalBullishScore score0;
       totalBearishScore := totalBearishScore score0 + 1 * 1;
       signalReasons :=
         signalReasons score0
         ++ ("Daily" ++ ": Price < SMA " ++ showNat 20)%string :: nil |}.
Proof.
  refine (proj1 (proj1 (ma_tie_votes_bearish "Daily" 1 (qc 100)
                          (fun _ => SNum (qc 100)) score0 20 (qc 100) _) _)).
  - reflexivity.
  - reflexivity.
Defined.

(** ** Compound annual growth rate *)

(** C5, as stated, fails at [start = 0]: the first guard of
    [calculateCAGRInternal] tests [startVal === 0] and returns the
    not-available default, so the "Not Meaningful" branch is never reached
    for a zero start. *)
Lemma cagr_zero_start_counterexample :
  let start := 0 in
  let years := qc 2 in
  let r := calculateCAGRInternal pow_stub (VNum (Fin (qc 5)))
             (VNum (Fin start)) (Fin years) DEFAULT_NA_STRING in
  start <= 0 /\ 0 < years
  /\ value r = DText "N/A"
  /\ value r <> DText "Not Meaningful".
Proof.
  intros start years r. subst start years r.
  split; [apply Qcle_refl |]. split; [reflexivity |].
  split; [reflexivity | discriminate].
Qed.

Section CAGRCases.
Variable Math_pow : num -> num -> num.
Variables (e s years : Qc) (defaultValue : string).
Hypothesis years_pos : 0 < years.

Let r := calculateCAGRInternal Math_pow (VNum (Fin e)) (VNum (Fin s))
           (Fin years) defaultValue.

Lemma years_guard : num_leb (Fin years) (Fin 0) = false.
Proof.
  unfold num_leb, num_ltb, ltb. simpl.
  now rewrite bool_decide_true by exact years_pos.
Qed.

Lemma cagr_zero_start : s = 0 -> r = notFormatted defaultValue.
Proof.
  intros ->. subst r. unfold calculateCAGRInternal. reflexivity.
Qed.

Lemma cagr_guard_passed :
  s <> 0 ->
  r = if num_leb (Fin s) (Fin 0) || num_leb (Fin e) (Fin 0)
      then {| value := DText "Not Meaningful"; unit := ""; raw := NaN;
              colorClass := "" |}
      else
        let cagr :=
          num_mul (num_sub (Math_pow (Fin (e / s)) (Fin (1 / years)))
                           (Fin 1))
                  (Fin (qc 100)) in
        {| value := DFixed2 cagr; unit := "%"; raw := cagr;
           colorClass := signColor cagr |}.
Proof.
  intros Hs. subst r. unfold calculateCAGRInternal.
  cbn [parseFloat isNaN orb]. rewrite years_guard.
  unfold num_eqb, strictEqStr.
  rewrite (bool_decide_false (Fin s = Fin 0)) by congruence.
  rewrite !bool_decide_false by discriminate.
  cbn [orb]. unfold num_div, eqb.
  rewrite (bool_decide_false (s = 0)) by exact Hs.
  rewrite (bool_decide_false (years = 0))
    by (intros ->; exact (irreflexivity Qclt _ years_pos)).
  reflexivity.
Qed.

Lemma leb_zero (x : Qc) : num_leb (Fin x) (Fin 0) = bool_decide (x <= 0).
Proof.
  unfold num_leb, num_ltb, ltb.
  destruct (bool_decide_reflect (0 < x)) as [H | H];
    destruct (bool_decide_reflect (x <= 0)) as [H' | H'];
    try reflexivity.
  - exfalso. exact (Qclt_not_le _ _ H H').
  - exfalso. apply H'. now apply Qcnot_lt_le.
Qed.

End CAGRCases.

(** C5 (amended): for finite [end], [start] and [years > 0],
    [calculateCAGRInternal] returns the not-available default when
    [start = 0], the "Not Meaningful" record when [start < 0] or when
    [start > 0] and [end <= 0], and otherwise the record whose raw value is
    [((end / start) ^ (1 / years) - 1) * 100]; in particular
    [CAGR(end = -5, start = 10, years = 2)] is "Not Meaningful". *)
Theorem cagr_sign_guard (Math_pow : num -> num -> num) (e s years : Qc)
    (defaultValue : string) :
  0 < years ->
  let r := calculateCAGRInternal Math_pow (VNum (Fin e)) (VNum (Fin s))
             (Fin years) defaultValue in
  let notMeaningful :=
    {| value := DText "Not Meaningful"; unit := ""%string; raw := NaN;
       colorClass := ""%string |} in
  let cagr :=
    num_mul (num_sub (Math_pow (Fin (e / s)) (Fin (1 / years))) (Fin 1))
            (Fin (qc 100)) in
  (s = 0 -> r = notFormatted defaultValue)
  /\ (s < 0 \/ (0 < s /\ e <= 0) -> r = notMeaningful)
  /\ (0 < s -> 0 < e ->
      raw r = cagr /\ value r = DFixed2 cagr /\ unit r = "%"%string)
  /\ calculateCAGRInternal Math_pow (VNum (Fin (qc (-5))))
       (VNum (Fin (qc 10))) (Fin (qc 2)) defaultValue = notMeaningful.
Proof.
  intros Hy r notMeaningful cagr. subst r notMeaningful cagr.
  split; [| split; [| split]].
  - now apply cagr_zero_start.
  - intros H.
    assert (Hs : s <> 0).
    { destruct H as [H | [H _]]; intros ->;
        exact (irreflexivity Qclt _ H). }
    rewrite (cagr_guard_passed Math_pow e s years defaultValue Hy Hs).
    rewrite !leb_zero.
    destruct H as [H | [_ H]].
    + rewrite (bool_decide_true (s <= 0)) by now apply Qclt_le_weak.
      reflexivity.
    + rewrite (bool_decide_true (e <= 0)) by exact H.
      now rewrite orb_true_r.
  - intros Hs He.
    assert (Hs0 : s <> 0) by (intros ->; exact (irreflexivity Qclt _ Hs)).
    rewrite (cagr_guard_passed Math_pow e s years defaultValue Hy Hs0).
    rewrite !leb_zero.
    rewrite (bool_decide_false (s <= 0)) by now apply Qclt_not_le.
    rewrite (bool_decide_false (e <= 0)) by now apply Qclt_not_le.
    now repeat split.
  - reflexivity.
Qed.

Lemma cagr_sign_guard_witness :
  calculateCAGRInternal pow_stub (VNum (Fin (qc (-5)))) (VNum (Fin (qc 10)))
    (Fin (qc 2)) DEFAULT_NA_STRING
  = {| value := DText "Not Meaningful"; unit := ""%string; raw := NaN;
       colorClass := ""%string |}.
Proof.
  refine (proj1 (proj2 (cagr_sign_guard pow_stub (qc (-5)) (qc 10) (qc 2)
                          DEFAULT_NA_STRING _)) _).
  - reflexivity.
  - right. split; [reflexivity |]. discriminate.
Defined.

(** ** Net profit margin *)

Section NetProfitMargin.

(** What holds: an operand that is not available makes the margin not
    available. *)
Lemma margin_of_missing_operand (netIncomeRaw revenueCurrentRaw : jsval) :
  parseFloat netIncomeRaw = NaN \/ parseFloat revenueCurrentRaw = NaN ->
  formatPercentageInternal
    (VNum (netProfitMarginRaw netIncomeRaw revenueCurrentRaw))
    DEFAULT_NA_STRING true
  = notFormatted DEFAULT_NA_STRING.
Proof.
  intros H. unfold netProfitMarginRaw, formatPercentageInternal.
  cbn [parseFloat].
  assert (E : num_mul (num_div (parseFloat netIncomeRaw)
                               (parseFloat revenueCurrentRaw))
                      (Fin (qc 100)) = NaN).
  { destruct H as [-> | ->]; [reflexivity |].
    now destruct (parseFloat netIncomeRaw). }
  now rewrite E.
Qed.

Lemma not_available_is_NaN : parseFloat (VStr DEFAULT_NA_STRING) = NaN.
Proof. reflexivity. Qed.

(** What fails: a zero revenue under a non-zero net income gives an
    infinite margin, which the formatter lets through. *)
Lemma margin_of_zero_revenue (netIncome : Qc) :
  netIncome <> 0 ->
  let m := formatPercentageInternal
             (VNum (netProfitMarginRaw (VNum (Fin netIncome))
                                       (VNum (Fin 0))))
             DEFAULT_NA_STRING true in
  (raw m = PInf \/ raw m = NInf) /\ value m <> DText DEFAULT_NA_STRING.
Proof.
  intros Hne m. subst m. unfold netProfitMarginRaw.
  cbn [parseFloat num_div]. unfold eqb.
  rewrite bool_decide_true by reflexivity. unfold signed_inf, ltb.
  destruct (bool_decide_reflect (0 < netIncome)) as [Hpos | Hnpos].
  - split; [left; reflexivity | discriminate].
  - destruct (bool_decide_reflect (netIncome < 0)) as [Hneg | Hnneg].
    + split; [right; reflexivity | discriminate].
    + exfalso. apply Hne. apply Qcle_antisym; now apply Qcnot_lt_le.
Qed.

End NetProfitMargin.

(** C6 (the code departs from it): on a latest income statement with
    [NetIncome = "50"] and [Revenue = "0"] the "Net Profit Margin" metric
    is not the not-available record: its raw value is [Infinity], shown
    with unit [%]. *)
Theorem net_profit_margin_zero_revenue :
  metric "Net Profit Margin"
    (fst (calculateProfitabilityMetricsInternal zero_revenue_year))
  = Some {| value := DFixed2 PInf; unit := "%"; raw := PInf;
            colorClass := "change-positive-text" |}.
Proof. vm_compute. reflexivity. Qed.

(** ** Peer averages *)

Section PeerAverage.

Lemma keepPeer_spec (nse short : string) (p : object) (b : bool) :
  keepPeer nse short p = Some b -> b = negb (is_primary nse short p).
Proof.
  unfold keepPeer, is_primary, peerTicker, peerNameShort.
  set (tv := getSafeInternal (Some (prop p "tickerId")) (VStr "")).
  set (nv := getSafeInternal (Some (prop p "companyName")) (VStr "")).
  clearbody tv nv.
  destruct tv as [? | t | |], nv as [? | c | |]; simpl; try discriminate.
  intros [= <-].
  destruct (bool_decide (nse = "")), (bool_decide (toUpperCase t = nse)),
    (bool_decide (toLowerCase (firstWord c) = short)),
    (bool_decide (short = "@#none#@")); reflexivity.
Qed.

Lemma filterM_keepPeer (nse short : string) (l : list object) :
  forall peers,
    filterM (keepPeer nse short) l = Some peers ->
    peers = filter (fun p => is_primary nse short p = false) l.
Proof.
  induction l as [| p l IH]; intros peers H; simpl in H.
  - now injection H as <-.
  - destruct (keepPeer nse short p) as [b |] eqn:Hk; simpl in H;
      [| discriminate].
    destruct (filterM (keepPeer nse short) l) as [r |]; simpl in H;
      [| discriminate].
    injection H as <-. apply keepPeer_spec in Hk. subst b.
    rewrite (IH r eq_refl), filter_cons.
    destruct (is_primary nse short p); simpl.
    + destruct (decide (true = false)); [discriminate | reflexivity].
    + destruct (decide (false = false)); [reflexivity | congruence].
Qed.




End PeerAverage.



(** ** Sample runs *)

Example sma_scenario :
  calculateSMAInternal
    [qc 100; qc 102; qc 101; qc 105; qc 108; qc 107; qc 110; qc 112; qc 111;
     qc 115] 5 !! 4%nat
  = Some (qc 109.6).
Proof. vm_compute. f_equal; try qc_eq. Qed.

Example rsi_rising_series :
  calculateRSIInternal (map (fun n => of_nat n) (seq 1 17)) 14
  = [qc 100; qc 100].
Proof. vm_compute. qc_list_eq. Qed.

Example parseFloat_samples :
  parseFloatStr "12.5" = Fin (qc 12.5)
  /\ parseFloatStr "  -0.75abc" = Fin (qc (-0.75))
  /\ parseFloatStr "1.5e3" = Fin (qc 1500)
  /\ parseFloatStr "N/A" = NaN
  /\ parseFloatStr "-" = NaN
  /\ parseFloatStr "Infinity" = PInf
  /\ parseFloatStr "-0.0" = Fin 0
  /\ parseFloatStr "1e-400" = Fin 0
  /\ parseFloatStr "-1e400" = NInf
  /\ parseFloatStr "1.7976931348623157e308" = Fin (qc 1.7976931348623157e308)
  /\ parseFloatStr "1.7976931348623159e308" = PInf
  /\ parseFloatStr "3e-324" = Fin (qc 3e-324)
  /\ parseFloatStr "2e-324" = Fin 0.
Proof.
  repeat split; vm_compute; try reflexivity; f_equal; try qc_eq.
Qed.

Example scoring_sample :
  let ind :=
    {| smas := fun p => if (p =? 20)%nat then SNum (qc 100) else SNull;
       emas := fun _ => SNull; rsi := Some "25.00"%string; macdOf := None;
       vwap := SNum (qc 90); obvFullSeries := None |} in
  let st := scoreAll (qc 100) (TfData ind) (TfError "No price data for Weekly")
              (TfError "No price data for Monthly") in
  signalReasons st
  = [ "Daily: Price < SMA 20"; "Daily: RSI < 30 (Oversold)";
      "Daily: Price > VWAP (20)" ]%string
  /\ totalBullishScore st = qc 2.5 /\ totalBearishScore st = 1
  /\ finalSignal st = "Bullish"%string.
Proof.
  repeat split; vm_compute; try reflexivity; try qc_eq.
Qed.

(** ** Rationals through their fractions *)

Section Fractions.

Lemma this_plus (x y : Qc) : (this (x + y) == this x + this y)%Q.
Proof. apply Qred_correct. Qed.

Lemma this_mult (x y : Qc) : (this (x * y) == this x * this y)%Q.
Proof. apply Qred_correct. Qed.

Lemma this_opp (x : Qc) : (this (- x) == - this x)%Q.
Proof. apply Qred_correct. Qed.

Lemma this_minus (x y : Qc) : (this (x - y) == this x - this y)%Q.
Proof. unfold Qcminus. rewrite this_plus, this_opp. reflexivity. Qed.

Lemma this_inv (x : Qc) : (this (/ x) == / this x)%Q.
Proof. apply Qred_correct. Qed.

Lemma this_div (x y : Qc) : (this (x / y) == this x / this y)%Q.
Proof. unfold Qcdiv. rewrite this_mult, this_inv. reflexivity. Qed.

Lemma this_qc (q : Q) : (this (qc q) == q)%Q.
Proof. apply Qred_correct. Qed.

Lemma this_of_nat (n : nat) : (this (of_nat n) == inject_Z (Z.of_nat n))%Q.
Proof. apply Qred_correct. Qed.

Lemma of_nat_pos (n : nat) : (0 < n)%nat -> 0 < of_nat n.
Proof.
  intros H. unfold Qclt. rewrite this_of_nat. change (this 0) with 0%Q.
  change 0%Q with (inject_Z 0). rewrite <- Zlt_Qlt. lia.
Qed.


Lemma of_nat_nonzero (n : nat) : (0 < n)%nat -> of_nat n <> 0.
Proof.
  intros H E. pose proof (of_nat_pos n H) as P. rewrite E in P.
  exact (irreflexivity Qclt _ P).
Qed.

Lemma of_nat_S (n : nat) : of_nat (S n) = of_nat n + 1.
Proof.
  apply Qc_is_canon. rewrite this_plus, !this_of_nat.
  change (this 1) with (inject_Z 1). rewrite <- inject_Z_plus.
  rewrite Nat2Z.inj_succ. unfold Z.succ. reflexivity.
Qed.

End Fractions.




(** ** RSI: range and saturation *)

Section RSIRange.





Variables (data : list Qc) (period : nat).
Hypothesis period_pos : (1 <= period)%nat.



(** On a series that never falls, no loss is ever recorded. *)
Hypothesis rising :
  forall i : nat, (S i < length data)%nat -> nth i data 0 <= nth (S i) data 0.

Lemma no_loss (i : nat) :
  (1 <= i < length data)%nat ->
  (if gtb (nth i data 0 - nth (i - 1) data 0) 0 then 0
   else Qcabs (nth i data 0 - nth (i - 1) data 0)) = 0.
Proof.
  intros Hi. unfold gtb.
  destruct (bool_decide_reflect (0 < nth i data 0 - nth (i - 1) data 0))
    as [H | H]; [reflexivity |].
  pose proof (rising (i - 1)) as Hr.
  replace (S (i - 1)) with i in Hr by lia. specialize (Hr ltac:(lia)).
  assert (E : nth i data 0 - nth (i - 1) data 0 = 0).
  { apply Qcle_antisym.
    - now apply Qcnot_lt_le.
    - unfold Qcle in *. rewrite this_minus. change (this 0) with 0%Q. lra. }
  rewrite E. qc_eq.
Qed.

Lemma rsi_init_no_loss (idx : list nat) :
  Forall (fun i => (1 <= i < length data)%nat) idx ->
  forall gains, snd (fold_left (rsi_init_step data) idx (gains, 0)) = 0.
Proof.
  induction 1 as [| i idx Hi _ IH]; intros gains; [reflexivity |].
  cbn [fold_left]. unfold rsi_init_step at 2.
  pose proof (no_loss i Hi) as Hn.
  destruct (gtb (nth i data 0 - nth (i - 1) data 0) 0).
  - apply IH.
  - rewrite Hn, Qcplus_0_l. apply IH.
Qed.

Lemma rsi_loop_saturated (idx : list nat) :
  Forall (fun i => (1 <= i < length data)%nat) idx ->
  forall (avgGain : Qc) (out : list Qc),
    snd (fold_left (rsi_step data period) idx (avgGain, 0, out))
    = out ++ replicate (length idx) (qc 100).
Proof.
  induction 1 as [| i idx Hi _ IH]; intros avgGain out.
  - simpl. now rewrite app_nil_r.
  - cbn [fold_left]. unfold rsi_step at 2.
    rewrite (no_loss i Hi).
    replace ((0 * of_nat (period - 1) + 0) / of_nat period) with 0
      by (field; apply of_nat_nonzero; lia).
    rewrite IH. cbn [length replicate]. rewrite <- app_assoc. cbn [app].
    do 2 f_equal;
      try (unfold rsi_value, eqb; rewrite bool_decide_true by reflexivity;
           ring).
Qed.

End RSIRange.



(** X4: on a series that never falls, for a period of at least 1, the
    average loss stays 0 and every value of [calculateRSIInternal] is
    100. *)
Theorem rsi_rising_is_100 (data : list Qc) (period : nat) :
  (1 <= period)%nat ->
  (forall i : nat, (S i < length data)%nat ->
     nth i data 0 <= nth (S i) data 0) ->
  calculateRSIInternal data period
  = replicate (length data - period - 1) (qc 100).
Proof.
  intros Hp Hrise. unfold calculateRSIInternal.
  destruct (Nat.ltb_spec (length data) (period + 1)) as [Hlt | Hge].
  - replace (length data - period - 1)%nat with 0%nat by lia. reflexivity.
  - pose proof (rsi_init_no_loss data period Hp Hrise (seq 1 period))
      as Hinit.
    assert (Hidx : Forall (fun i => (1 <= i < length data)%nat)
                     (seq 1 period)).
    { apply Forall_forall. intros i Hi. apply elem_of_seq in Hi. lia. }
    specialize (Hinit Hidx 0).
    destruct (fold_left (rsi_init_step data) (seq 1 period) (0, 0))
      as [gains losses]. simpl in Hinit. subst losses.
    replace (0 / of_nat period) with 0
      by (field; apply of_nat_nonzero; lia).
    rewrite (rsi_loop_saturated data period Hp Hrise).
    + rewrite length_seq. simpl. f_equal. lia.
    + apply Forall_forall. intros i Hi. apply elem_of_seq in Hi. lia.
Qed.

Lemma rsi_rising_is_100_witness :
  calculateRSIInternal [qc 1; qc 2; qc 2; qc 5; qc 7] 2
  = replicate 2 (qc 100).
Proof.
  apply (rsi_rising_is_100 [qc 1; qc 2; qc 2; qc 5; qc 7] 2).
  - lia.
  - intros i Hi. simpl in Hi.
    destruct i as [| [| [| [| i]]]]; simpl; try discriminate; lia.
Defined.

(** ** MACD *)

Section MACD.

Lemma ema_length (data : list Qc) (period : nat) :
  (period <= length data)%nat ->
  length (calculateEMAInternal data period) = (length data - period + 1)%nat.
Proof.
  intros H. unfold calculateEMAInternal.
  destruct (Nat.ltb_spec (length data) period); [lia |].
  simpl. rewrite ema_loop_length, length_drop. lia.
Qed.

Lemma omap_id_Some {A} (l : list A) : omap id (Some <$> l) = l.
Proof.
  induction l as [| x l IH]; [reflexivity |].
  change (x :: omap id (Some <$> l) = x :: l). now f_equal.
Qed.

Lemma omap_id_None {A} (n : nat) : omap id (replicate n (@None A)) = [].
Proof. induction n as [| n IH]; simpl; [reflexivity | exact IH]. Qed.

Lemma map_const_seq {A} (x : A) (a n : nat) :
  map (fun _ => x) (seq a n) = replicate n x.
Proof.
  revert a. induction n as [| n IH]; intros a; simpl;
    [reflexivity | now rewrite IH].
Qed.

Variables (data : list Qc) (fastPeriod slowPeriod signalPeriod : nat).
Hypothesis fast_pos : (1 <= fastPeriod)%nat.
Hypothesis fast_le_slow : (fastPeriod <= slowPeriod)%nat.
Hypothesis signal_pos : (1 <= signalPeriod)%nat.
Hypothesis enough : (slowPeriod + signalPeriod - 1 <= length data)%nat.

Let fastEMA := calculateEMAInternal data fastPeriod.
Let slowEMA := calculateEMAInternal data slowPeriod.
Let m := (length data - slowPeriod + 1)%nat.

Lemma bothValid_iff (i : nat) :
  bothValid fastEMA slowEMA i = true <-> (i < m)%nat.
Proof.
  unfold bothValid. rewrite andb_true_iff, !bool_decide_eq_true.
  rewrite !lookup_lt_is_Some. unfold fastEMA, slowEMA, m.
  rewrite !ema_length by lia. lia.
Qed.

Let diffs := map (fun i => nth i fastEMA 0 - nth i slowEMA 0) (seq 0 m).
Let line := (Some <$> diffs) ++ replicate (slowPeriod - 1) (@None Qc).

Lemma line_valid : omap id line = diffs.
Proof.
  unfold line. now rewrite omap_app, omap_id_Some, omap_id_None, app_nil_r.
Qed.

Lemma macd_unfold :
  calculateMACDInternal data fastPeriod slowPeriod signalPeriod
  = let signalLineFull := calculateEMAInternal diffs signalPeriod in
    let signalLine :=
      replicate (length line - length signalLineFull) None
      ++ (Some <$> signalLineFull) in
    {| macdLine := line;
       signalLine := signalLine;
       histogramSeries :=
         map (fun i =>
                match line !! i, signalLine !! i with
                | Some (Some m), Some (Some s) => Some (m - s)
                | _, _ => None
                end)
             (seq 0 (length line)) |}.
Proof.
  unfold calculateMACDInternal.
  destruct (Nat.ltb_spec (length data) (slowPeriod + signalPeriod - 1));
    [lia |].
  fold fastEMA slowEMA.
  assert (Hfind : find (bothValid fastEMA slowEMA) (seq 0 (length data))
                  = Some 0%nat).
  { replace (length data) with (S (length data - 1)) at 1 by lia.
    cbn [seq find].
    rewrite (proj2 (bothValid_iff 0)) by (unfold m; lia). reflexivity. }
  rewrite Hfind. rewrite Nat.sub_0_r.
  assert (Hline : map (fun i =>
                         if bothValid fastEMA slowEMA i
                         then Some (nth i fastEMA 0 - nth i slowEMA 0)
                         else None)
                      (seq 0 (length data)) = line).
  { unfold line, diffs.
    replace (length data) with (m + (slowPeriod - 1))%nat at 1
      by (unfold m; lia).
    rewrite seq_app, map_app. f_equal.
    - rewrite <- list_fmap_compose. apply map_ext_in. intros i Hi.
      apply in_seq in Hi.
      rewrite (proj2 (bothValid_iff i)) by lia. reflexivity.
    - rewrite <- (map_const_seq None (0 + m) (slowPeriod - 1)).
      apply map_ext_in. intros i Hi. apply in_seq in Hi.
      destruct (bothValid fastEMA slowEMA i) eqn:E; [| reflexivity].
      apply bothValid_iff in E. lia. }
  rewrite Hline, line_valid.
  destruct (Nat.ltb_spec (length diffs) signalPeriod) as [Hshort | _];
    [| reflexivity].
  unfold diffs in Hshort. rewrite length_map, length_seq in Hshort.
  unfold m in Hshort. lia.
Qed.



End MACD.



(** X6: with the periods 12, 26 and 9 used by the analysis hook, the latest
    entry of the MACD line is never a number: the line is empty below 34
    prices and ends in a [null] otherwise.  The scorer's MACD test
    therefore casts no vote, whatever the prices. *)
Theorem macd_never_votes (prices : list Qc) (tfName : string)
    (tfWeight : Qc) (st : score) :
  scoreMACD tfName tfWeight (macdIndicator prices) st = st
  /\ (forall m : macdRecord,
        macdIndicator prices = Some m -> macd m = SNull).
Proof.
  assert (Hnull : forall m : macdRecord,
            macdIndicator prices = Some m -> macd m = SNull).
  { intros m. unfold macdIndicator.
    destruct (Nat.ltb_spec 0
                (length (macdLine
                   (calculateMACDInternal prices MACD_FAST_PERIOD
                      MACD_SLOW_PERIOD MACD_SIGNAL_PERIOD))))
      as [Hpos | _]; [| discriminate].
    intros [= <-]. cbn [macd].
    destruct (Nat.ltb_spec (length prices)
                (MACD_SLOW_PERIOD + MACD_SIGNAL_PERIOD - 1)) as [Hs | Hl].
    - exfalso. revert Hpos. unfold calculateMACDInternal.
      destruct (Nat.ltb_spec (length prices)
                  (MACD_SLOW_PERIOD + MACD_SIGNAL_PERIOD - 1));
        [simpl; lia | lia].
    - rewrite (macd_unfold prices MACD_FAST_PERIOD MACD_SLOW_PERIOD
                 MACD_SIGNAL_PERIOD); try exact Hl;
        try (unfold MACD_FAST_PERIOD, MACD_SLOW_PERIOD, MACD_SIGNAL_PERIOD;
             lia).
      cbv zeta. cbn [macdLine]. unfold lastSlot.
      change (MACD_SLOW_PERIOD - 1)%nat with (S 24).
      rewrite replicate_S_end, app_assoc, last_snoc. reflexivity. }
  split; [| exact Hnull].
  unfold scoreMACD. destruct (macdIndicator prices) as [m |] eqn:E;
    [| reflexivity].
  rewrite (Hnull m eq_refl). reflexivity.
Qed.

(** ** Volume SMA *)

Section VolumeSMA.

Variable volumeData : list (option Qc).

Lemma volsma_inner_value (i j : nat) (acc : Qc * nat) :
  volsma_inner volumeData i acc j
  = match mjoin (volumeData !! (i - j)%nat) with
    | Some vol => (fst acc + vol, S (snd acc))
    | None => acc
    end.
Proof.
  destruct acc as [a c]. unfold volsma_inner, cell.
  destruct (volumeData !! (i - j)%nat) as [[vol |] |]; reflexivity.
Qed.

Lemma volsma_inner_sums (i period : nat) :
  (period <= i + 1)%nat ->
  fold_left (volsma_inner volumeData i) (seq 0 period) (0, 0%nat)
  = (total (window_values volumeData period i),
     length (window_values volumeData period i)).
Proof.
  unfold window_values, cell.
  induction period as [| period IH]; intros H.
  - reflexivity.
  - rewrite seq_S, fold_left_app, IH by lia.
    rewrite window_S by lia.
    cbn [fold_left Nat.add omap list_omap].
    rewrite volsma_inner_value.
    destruct (mjoin (volumeData !! (i - period)%nat)) as [vol |];
      [| reflexivity].
    cbn [total length fst snd]. f_equal. apply Qcplus_comm.
Qed.

Lemma omap_cons_match {A B} (f : A -> option B) (x : A) (l : list A) :
  omap f (x :: l)
  = match f x with Some y => y :: omap f l | None => omap f l end.
Proof. reflexivity. Qed.

Lemma window_values_cells (p : nat) :
  forall a : nat,
    (a + p <= length volumeData)%nat ->
    omap (fun j => mjoin (volumeData !! j)) (seq a p)
    = omap id (take p (drop a volumeData)).
Proof.
  induction p as [| p IH]; intros a Ha.
  - reflexivity.
  - destruct (lookup_lt_is_Some_2 volumeData a ltac:(lia)) as [c Hc].
    rewrite (drop_S volumeData c a Hc). cbn [seq take].
    rewrite !omap_cons_match. cbv beta. unfold cell in *.
    rewrite Hc, IH by lia. destruct c; reflexivity.
Qed.

Lemma omap_id_length {A} (w : list (option A)) :
  (length (omap id w) <= length w)%nat.
Proof.
  induction w as [| [x |] w IH]; [simpl; lia | |];
    rewrite omap_cons_match; cbn [id length]; lia.
Qed.

Lemma omap_id_short {A} (w : list (option A)) :
  None ∈ w -> (length (omap id w) < length w)%nat.
Proof.
  induction w as [| c w IH]; intros Hin.
  - now apply not_elem_of_nil in Hin.
  - rewrite omap_cons_match. apply elem_of_cons in Hin as [<- | Hin].
    + pose proof (omap_id_length w). cbn [id length]. lia.
    + specialize (IH Hin). destruct c; cbn [id length]; lia.
Qed.

End VolumeSMA.

Lemma total_latest_first (vs : list Qc) :
  total vs = fold_left Qcplus (rev vs) 0.
Proof.
  induction vs as [| v vs IH]; [reflexivity |].
  cbn [rev total]. rewrite fold_left_app, <- IH. cbn [fold_left].
  apply Qcplus_comm.
Qed.

(** X7: on fewer volumes than the period, [calculateVolumeSMAInternal]
    returns one [null] per volume.  For [1 <= period <= n] it returns [n]
    entries, [null] below index [period - 1]; from there on an entry is the
    sum of its trailing window, added from the latest volume back starting
    from 0, divided by the period, when all [period] cells of the window
    are valid, and [null] as soon as one cell of the window is [null] or
    [NaN]. *)
Theorem volume_sma_strict (volumeData : list cell) (period : nat) :
  let r := calculateVolumeSMAInternal volumeData period in
  ((length volumeData < period)%nat ->
   r = replicate (length volumeData) None)
  /\ ((1 <= period)%nat -> (period <= length volumeData)%nat ->
      length r = length volumeData
      /\ (forall i : nat, (i < period - 1)%nat -> r !! i = Some None)
      /\ (forall (i : nat) (vs : list Qc),
            (period - 1 <= i < length volumeData)%nat ->
            take period (drop (i + 1 - period) volumeData) = Some <$> vs ->
            r !! i
            = Some (Some (fold_left Qcplus (rev vs) 0 / of_nat period)))
      /\ (forall i j : nat,
            (period - 1 <= i < length volumeData)%nat ->
            (i + 1 - period <= j <= i)%nat ->
            volumeData !! j = Some None ->
            r !! i = Some None)).
Proof.
  intros r. split.
  { intros Hshort. subst r. unfold calculateVolumeSMAInternal.
    destruct (Nat.ltb_spec (length volumeData) period); [reflexivity | lia]. }
  intros Hp Hn. subst r. unfold calculateVolumeSMAInternal, cell in *.
  destruct (Nat.ltb_spec (length volumeData) period); [lia |].
  set (r := fold_left _ _ _).
  assert (Hat : forall i, (period - 1 <= i < length volumeData)%nat ->
            r !! i
            = Some (let vals := omap id (take period
                                   (drop (i + 1 - period) volumeData)) in
                    if (length vals =? period)%nat
                    then Some (total vals / of_nat period) else None)).
  { intros i Hi. subst r.
    rewrite fold_insert_lookup by (rewrite length_replicate; lia).
    destruct (decide _) as [_ | Hout]; [| lia].
    f_equal. unfold volsma_at.
    rewrite volsma_inner_sums by lia. unfold window_values, window.
    unfold cell in *. rewrite window_values_cells by lia. reflexivity. }
  repeat split.
  - subst r. now rewrite fold_insert_length, length_replicate.
  - intros i Hi. subst r.
    rewrite fold_insert_lookup by (rewrite length_replicate; lia).
    destruct (decide _) as [Hin | _]; [lia |].
    apply lookup_replicate_2. lia.
  - intros i vs Hi Hw. rewrite (Hat i Hi), Hw, omap_id_Some. cbv zeta.
    assert (Hlen : length vs = period).
    { rewrite <- (length_fmap Some vs), <- Hw, length_take, length_drop. lia. }
    rewrite Hlen, Nat.eqb_refl, total_latest_first. reflexivity.
  - intros i j Hi Hj Hnull. rewrite (Hat i Hi). cbv zeta.
    set (w := take period (drop (i + 1 - period) volumeData)).
    assert (Hin : None ∈ w).
    { apply list_elem_of_lookup. exists (j - (i + 1 - period))%nat.
      subst w. rewrite lookup_take_lt by lia. rewrite lookup_drop.
      rewrite <- Hnull. f_equal. lia. }
    pose proof (omap_id_short w Hin) as Hshort.
    assert (Hw : length w = period)
      by (subst w; rewrite length_take, length_drop; lia).
    destruct (Nat.eqb_spec (length (omap id w)) period); [lia | reflexivity].
Qed.

Lemma volume_sma_strict_witness :
  calculateVolumeSMAInternal [Some (qc 10); None; Some (qc 30)] 2 !! 2%nat
  = Some None.
Proof.
  refine (proj2 (proj2 (proj2
            (proj2 (volume_sma_strict [Some (qc 10); None; Some (qc 30)] 2)
               _ _)))
            2%nat 1%nat _ _ _).
  - lia.
  - simpl. lia.
  - simpl. lia.
  - lia.
  - reflexivity.
Defined.

(** ** On-balance volume *)

Section OBV.

Variables prices volumes : list Qc.

Lemma obv_step_insert (obvValues : list Qc) (m : nat) :
  nth m obvValues 0 = obv_at prices volumes m ->
  obv_step prices volumes obvValues (S m)
  = <[S m := obv_at prices volumes (S m)]> obvValues.
Proof.
  intros Hprev. unfold obv_step. cbn [obv_at].
  replace (S m - 1)%nat with m by lia. rewrite Hprev.
  destruct (gtb (nth (S m) prices 0) (nth m prices 0)); [reflexivity |].
  destruct (ltb (nth (S m) prices 0) (nth m prices 0)); reflexivity.
Qed.

Lemma obv_fold (n m : nat) :
  (m < n)%nat ->
  let F := fold_left (obv_step prices volumes) (seq 1 m) (replicate n 0) in
  length F = n
  /\ forall i : nat, (i <= m)%nat -> F !! i = Some (obv_at prices volumes i).
Proof.
  induction m as [| m IH]; intros Hm F; subst F.
  - split; [apply length_replicate |].
    intros i Hi. replace i with 0%nat by lia.
    apply lookup_replicate_2. lia.
  - destruct (IH ltac:(lia)) as [Hlen Hlook].
    rewrite seq_S, fold_left_app. cbn [fold_left Nat.add].
    rewrite obv_step_insert
      by (apply nth_lookup_Some with (d := 0); apply Hlook; lia).
    split; [now rewrite length_insert |].
    intros i Hi. destruct (decide (i = S m)) as [-> | Hne].
    + apply list_lookup_insert_eq. lia.
    + rewrite list_lookup_insert_ne by lia. apply Hlook. lia.
Qed.

Hypothesis same_length : length prices = length volumes.
Hypothesis rising :
  forall i : nat, (S i < length prices)%nat ->
    nth i prices 0 < nth (S i) prices 0.

Lemma obv_at_rising (i : nat) :
  (i < length prices)%nat ->
  obv_at prices volumes i = sum (take i (drop 1 volumes)).
Proof.
  induction i as [| i IH]; intros Hi; [reflexivity |].
  cbn [obv_at]. unfold gtb.
  rewrite bool_decide_true by (apply rising; exact Hi).
  rewrite IH by lia.
  assert (Hv : drop 1 volumes !! i = Some (nth (S i) volumes 0)).
  { rewrite lookup_drop. change (1 + i)%nat with (S i).
    destruct (nth_lookup_or_length volumes (S i) 0) as [E | E];
      [exact E | rewrite <- same_length in E; lia]. }
  now rewrite (take_S_r _ _ _ Hv), sum_snoc.
Qed.

End OBV.

Lemma obv_as_recurrence (prices volumes : list Qc) :
  length prices = length volumes ->
  calculateOBVInternal prices volumes
  = map (obv_at prices volumes) (seq 0 (length prices)).
Proof.
  unfold calculateOBVInternal.
  intros Heq. rewrite Heq, Nat.eqb_refl. cbn [negb orb].
  destruct (Nat.eqb_spec (length volumes) 0) as [H0 | Hpos].
  - rewrite H0. reflexivity.
  - destruct (obv_fold prices volumes (length volumes)
                (length volumes - 1) ltac:(lia)) as [Hlen Hlook].
    apply list_eq. intros i.
    rewrite list_lookup_fmap.
    destruct (decide (i < length volumes)%nat) as [Hi | Hi].
    + rewrite lookup_seq_lt by exact Hi. simpl. apply Hlook. lia.
    + rewrite lookup_seq_ge by lia. simpl.
      apply lookup_ge_None. rewrite Hlen. lia.
Qed.

(** X8: [calculateOBVInternal] returns the empty array when the two arrays
    differ in length; on arrays of equal length it returns one entry per
    price, following the on-balance recurrence: 0 first, then the previous
    entry plus the day's volume when the price rose, minus it when the price
    fell, and unchanged when the price stayed. *)
Theorem obv_recurrence (prices volumes : list Qc) :
  (length prices <> length volumes -> calculateOBVInternal prices volumes = [])
  /\ (length prices = length volumes ->
      calculateOBVInternal prices volumes
      = map (obv_at prices volumes) (seq 0 (length prices))).
Proof.
  split.
  - intros Hne. unfold calculateOBVInternal.
    destruct (Nat.eqb_spec (length prices) (length volumes));
      [contradiction | reflexivity].
  - apply obv_as_recurrence.
Qed.

Lemma obv_recurrence_witness :
  calculateOBVInternal [qc 10; qc 12; qc 11] [qc 5; qc 7; qc 3]
  = map (obv_at [qc 10; qc 12; qc 11] [qc 5; qc 7; qc 3]) (seq 0 3).
Proof.
  apply (proj2 (obv_recurrence [qc 10; qc 12; qc 11] [qc 5; qc 7; qc 3])).
  reflexivity.
Defined.

(** X9: on prices of which every one is above the previous one, the
    on-balance volume at index [i] is the running sum of the volumes of
    days 1 to [i], added in that order starting from 0; the volume of day
    0 never enters. *)
Theorem obv_rising (prices volumes : list Qc) :
  length prices = length volumes ->
  (forall i : nat, (S i < length prices)%nat ->
     nth i prices 0 < nth (S i) prices 0) ->
  forall i : nat, (i < length prices)%nat ->
    calculateOBVInternal prices volumes !! i
    = Some (fold_left Qcplus (take i (drop 1 volumes)) 0).
Proof.
  intros Hlen Hrise i Hi.
  rewrite (obv_as_recurrence prices volumes Hlen).
  rewrite list_lookup_fmap, lookup_seq_lt by exact Hi. simpl.
  f_equal. now apply obv_at_rising.
Qed.

Lemma obv_rising_witness :
  calculateOBVInternal [qc 1; qc 2; qc 3] [qc 5; qc 6; qc 7] !! 2%nat
  = Some (fold_left Qcplus (take 2 (drop 1 [qc 5; qc 6; qc 7])) 0).
Proof.
  refine (obv_rising [qc 1; qc 2; qc 3] [qc 5; qc 6; qc 7] _ _ 2%nat _).
  - reflexivity.
  - intros i Hi. simpl in Hi.
    destruct i as [| [| i]]; simpl; try reflexivity; lia.
  - simpl. lia.
Defined.

(** ** Resampling: shape of the result and latest close *)

Section ResampleShape.

Context {N : Type} {arith : Addition N}.

Variable getDay : epoch_ms -> Z.
Variable addDays : epoch_ms -> Z -> epoch_ms.
Variable startOfDay : epoch_ms -> epoch_ms.
Variable getFullYear : epoch_ms -> Z.
Variable getMonth : epoch_ms -> Z.
Variable firstOfMonth : Z -> Z -> epoch_ms.

Let weekly_step := weekly_step (N := N) getDay addDays startOfDay.
Let weekly_loop := weekly_loop (N := N) getDay addDays startOfDay.
Let monthly_step := monthly_step (N := N) getFullYear getMonth firstOfMonth.
Let monthly_loop := monthly_loop (N := N) getFullYear getMonth firstOfMonth.

Lemma weekly_step_out st ts price volume next :
  waligned (wout st) ->
  let st' := weekly_step st ts price volume next in
  waligned (wout st')
  /\ (weeklyPrices (wout st') = weeklyPrices (wout st)
      \/ weeklyPrices (wout st') = weeklyPrices (wout st) ++ [price])
  /\ (next = None ->
      weeklyPrices (wout st') = weeklyPrices (wout st) ++ [price]).
Proof.
  intros [Ht Hv] st'. subst st'.
  unfold weekly_step, Resample.weekly_step, waligned.
  destruct next as [nextTs |]; cbn [bool_decide orb];
    [rewrite bool_decide_false by discriminate
    | rewrite bool_decide_true by reflexivity]; cbn [orb].
  - destruct (_ <=? _)%Z; cbn [wout weeklyTimestamps weeklyPrices weeklyVolumes];
      rewrite ?length_app; cbn [length];
      (split; [split; lia |]); (split; [auto | discriminate]).
  - cbn [wout weeklyTimestamps weeklyPrices weeklyVolumes].
    rewrite !length_app. cbn [length]. (split; [split; lia |]); auto.
Qed.

Lemma weekly_loop_out (days : list (epoch_ms * N * N)) :
  forall st, waligned (wout st) ->
    let st' := weekly_loop st days in
    waligned (wout st')
    /\ (length (weeklyPrices (wout st'))
        <= length (weeklyPrices (wout st)) + length days)%nat
    /\ (days <> [] ->
        (length (weeklyPrices (wout st))
         < length (weeklyPrices (wout st')))%nat
        /\ last (weeklyPrices (wout st')) = (snd ∘ fst) <$> last days).
Proof.
  induction days as [| [[ts price] volume] days IH]; intros st Hal st';
    subst st'.
  - cbn [weekly_loop Resample.weekly_loop length]. split; [exact Hal |].
    split; [lia | congruence].
  - change (weekly_loop st ((ts, price, volume) :: days))
      with (weekly_loop
              (weekly_step st ts price volume (fst ∘ fst <$> head days))
              days).
    destruct (weekly_step_out st ts price volume (fst ∘ fst <$> head days) Hal)
      as (Hal1 & Hgrow & Hlast).
    set (st1 := weekly_step st ts price volume (fst ∘ fst <$> head days)) in *.
    destruct (IH st1 Hal1) as (Hal2 & Hle & Hne).
    assert (Hlen1 : (length (weeklyPrices (wout st))
                     <= length (weeklyPrices (wout st1))
                     <= S (length (weeklyPrices (wout st))))%nat).
    { destruct Hgrow as [-> | ->]; rewrite ?length_app; simpl; lia. }
    split; [exact Hal2 |]. split; [cbn [length]; lia |]. intros _.
    destruct days as [| d days'].
    + cbn [weekly_loop Resample.weekly_loop]. rewrite (Hlast eq_refl).
      rewrite length_app, last_snoc. simpl. split; [lia | reflexivity].
    + destruct (Hne ltac:(discriminate)) as [Hlt Hl]. split; [lia |].
      rewrite Hl. reflexivity.
Qed.

Lemma monthly_step_out st ts price volume next :
  maligned (mout st) ->
  let st' := monthly_step st ts price volume next in
  maligned (mout st')
  /\ (monthlyPrices (mout st') = monthlyPrices (mout st)
      \/ monthlyPrices (mout st') = monthlyPrices (mout st) ++ [price])
  /\ (next = None ->
      monthlyPrices (mout st') = monthlyPrices (mout st) ++ [price]).
Proof.
  intros [Ht Hv] st'. subst st'.
  unfold monthly_step, Resample.monthly_step, maligned.
  destruct next as [nextTs |]; cbn [bool_decide orb];
    [rewrite bool_decide_false by discriminate
    | rewrite bool_decide_true by reflexivity]; cbn [orb].
  - destruct (_ || _);
      cbn [mout monthlyTimestamps monthlyPrices monthlyVolumes];
      rewrite ?length_app; cbn [length];
      (split; [split; lia |]); (split; [auto | discriminate]).
  - cbn [mout monthlyTimestamps monthlyPrices monthlyVolumes].
    rewrite !length_app. cbn [length]. (split; [split; lia |]); auto.
Qed.

Lemma monthly_loop_out (days : list (epoch_ms * N * N)) :
  forall st, maligned (mout st) ->
    let st' := monthly_loop st days in
    maligned (mout st')
    /\ (length (monthlyPrices (mout st'))
        <= length (monthlyPrices (mout st)) + length days)%nat
    /\ (days <> [] ->
        (length (monthlyPrices (mout st))
         < length (monthlyPrices (mout st')))%nat
        /\ last (monthlyPrices (mout st')) = (snd ∘ fst) <$> last days).
Proof.
  induction days as [| [[ts price] volume] days IH]; intros st Hal st';
    subst st'.
  - cbn [monthly_loop Resample.monthly_loop length]. split; [exact Hal |].
    split; [lia | congruence].
  - change (monthly_loop st ((ts, price, volume) :: days))
      with (monthly_loop
              (monthly_step st ts price volume (fst ∘ fst <$> head days))
              days).
    destruct (monthly_step_out st ts price volume (fst ∘ fst <$> head days) Hal)
      as (Hal1 & Hgrow & Hlast).
    set (st1 := monthly_step st ts price volume (fst ∘ fst <$> head days)) in *.
    destruct (IH st1 Hal1) as (Hal2 & Hle & Hne).
    assert (Hlen1 : (length (monthlyPrices (mout st))
                     <= length (monthlyPrices (mout st1))
                     <= S (length (monthlyPrices (mout st))))%nat).
    { destruct Hgrow as [-> | ->]; rewrite ?length_app; simpl; lia. }
    split; [exact Hal2 |]. split; [cbn [length]; lia |]. intros _.
    destruct days as [| d days'].
    + cbn [monthly_loop Resample.monthly_loop]. rewrite (Hlast eq_refl).
      rewrite length_app, last_snoc. simpl. split; [lia | reflexivity].
    + destruct (Hne ltac:(discriminate)) as [Hlt Hl]. split; [lia |].
      rewrite Hl. reflexivity.
Qed.

Lemma combine_last_price (ps : list (epoch_ms * N)) (vs : list N) :
  length ps = length vs ->
  (snd ∘ fst) <$> last (combine ps vs) = snd <$> last ps.
Proof.
  revert vs. induction ps as [| p ps IH]; intros [| v vs] H;
    simpl in H; try discriminate; [reflexivity |].
  destruct ps as [| p' ps'], vs as [| v' vs']; simpl in H; try discriminate.
  - reflexivity.
  - specialize (IH (v' :: vs') ltac:(simpl; lia)). exact IH.
Qed.

End ResampleShape.

(** X10: both resamplers return three empty arrays when the price and
    volume arrays differ in length or are empty; otherwise the three arrays
    of a result have one common length, at least 1 and at most the number
    of days, whatever the calendar. *)
Theorem resample_shape
    (getDay : epoch_ms -> Z) (addDays : epoch_ms -> Z -> epoch_ms)
    (startOfDay : epoch_ms -> epoch_ms)
    (getFullYear getMonth : epoch_ms -> Z) (firstOfMonth : Z -> Z -> epoch_ms)
    (dailyPricesWithTimestamps : list (epoch_ms * Qc))
    (dailyVolumes : list Qc) :
  let w := resampleToWeeklyInternal getDay addDays startOfDay
             dailyPricesWithTimestamps dailyVolumes in
  let m := resampleToMonthlyInternal getFullYear getMonth firstOfMonth
             dailyPricesWithTimestamps dailyVolumes in
  let n := length dailyPricesWithTimestamps in
  (n <> length dailyVolumes \/ n = 0%nat ->
   w = {| weeklyTimestamps := []; weeklyPrices := []; weeklyVolumes := [] |}
   /\ m = {| monthlyTimestamps := []; monthlyPrices := [];
             monthlyVolumes := [] |})
  /\ (n = length dailyVolumes -> n <> 0%nat ->
      waligned w /\ (1 <= length (weeklyPrices w) <= n)%nat
      /\ maligned m /\ (1 <= length (monthlyPrices m) <= n)%nat).
Proof.
  intros w m n. subst w m n.
  unfold resampleToWeeklyInternal, resampleToMonthlyInternal. split.
  - intros [Hne | H0].
    + destruct (Nat.eqb_spec (length dailyPricesWithTimestamps)
                  (length dailyVolumes)); [contradiction | now split].
    + rewrite H0. rewrite orb_true_r. now split.
  - intros Heq Hpos. rewrite <- Heq, Nat.eqb_refl. cbn [negb orb].
    destruct (Nat.eqb_spec (length dailyPricesWithTimestamps) 0);
      [contradiction |].
    set (days := combine dailyPricesWithTimestamps dailyVolumes).
    assert (Hdays : length days = length dailyPricesWithTimestamps)
      by (subst days; rewrite length_combine; lia).
    assert (Hne : days <> []) by (intros E; rewrite E in Hdays; simpl in Hdays; lia).
    destruct (weekly_loop_out getDay addDays startOfDay days wstate0
                (conj eq_refl eq_refl)) as (Hw & Hwle & Hwn).
    destruct (monthly_loop_out getFullYear getMonth firstOfMonth days mstate0
                (conj eq_refl eq_refl)) as (Hm & Hmle & Hmn).
    destruct (Hwn Hne) as [Hw1 _]. destruct (Hmn Hne) as [Hm1 _].
    simpl in Hwle, Hw1, Hmle, Hm1.
    repeat split; try apply Hw; try apply Hm; lia.
Qed.

Lemma resample_shape_witness :
  (1 <= length (weeklyPrices (UTC.resampleToWeekly sample_days sample_volumes))
   <= 4)%nat.
Proof.
  refine (proj1 (proj2 (proj2 (resample_shape
            UTC.getDay UTC.addDays UTC.startOfDay
            UTC.getFullYear UTC.getMonth UTC.firstOfMonth
            sample_days sample_volumes) _ _))).
  - reflexivity.
  - discriminate.
Defined.

(** X11: on a non-empty series with as many volumes as prices, the latest
    weekly price and the latest monthly price are both the latest daily
    price, whatever the calendar. *)
Theorem resample_latest_close
    (getDay : epoch_ms -> Z) (addDays : epoch_ms -> Z -> epoch_ms)
    (startOfDay : epoch_ms -> epoch_ms)
    (getFullYear getMonth : epoch_ms -> Z) (firstOfMonth : Z -> Z -> epoch_ms)
    (dailyPricesWithTimestamps : list (epoch_ms * Qc))
    (dailyVolumes : list Qc) :
  length dailyPricesWithTimestamps = length dailyVolumes ->
  dailyPricesWithTimestamps <> [] ->
  last (weeklyPrices
          (resampleToWeeklyInternal getDay addDays startOfDay
             dailyPricesWithTimestamps dailyVolumes))
  = snd <$> last dailyPricesWithTimestamps
  /\ last (monthlyPrices
             (resampleToMonthlyInternal getFullYear getMonth firstOfMonth
                dailyPricesWithTimestamps dailyVolumes))
     = snd <$> last dailyPricesWithTimestamps.
Proof.
  intros Heq Hne.
  unfold resampleToWeeklyInternal, resampleToMonthlyInternal.
  rewrite <- Heq, Nat.eqb_refl. cbn [negb orb].
  destruct (Nat.eqb_spec (length dailyPricesWithTimestamps) 0) as [H0 | _].
  { apply length_zero_iff_nil in H0. contradiction. }
  set (days := combine dailyPricesWithTimestamps dailyVolumes).
  assert (Hdays : days <> []).
  { subst days. destruct dailyPricesWithTimestamps, dailyVolumes;
      simpl in *; congruence. }
  rewrite <- (combine_last_price dailyPricesWithTimestamps dailyVolumes Heq).
  fold days. split.
  - exact (proj2 (proj2 (proj2 (weekly_loop_out getDay addDays startOfDay
             days wstate0 (conj eq_refl eq_refl))) Hdays)).
  - exact (proj2 (proj2 (proj2 (monthly_loop_out getFullYear getMonth
             firstOfMonth days mstate0 (conj eq_refl eq_refl))) Hdays)).
Qed.

Lemma resample_latest_close_witness :
  last (weeklyPrices (UTC.resampleToWeekly sample_days sample_volumes))
  = snd <$> last sample_days.
Proof.
  refine (proj1 (resample_latest_close
            UTC.getDay UTC.addDays UTC.startOfDay
            UTC.getFullYear UTC.getMonth UTC.firstOfMonth
            sample_days sample_volumes _ _)).
  - reflexivity.
  - discriminate.
Defined.

(** ** The statement accessor *)

Section Accessor.

Lemma getSafe_cases (r : option jsval) (d : jsval) :
  getSafeInternal r d = d
  \/ (r = Some (getSafeInternal r d) /\ usable (getSafeInternal r d) = true).
Proof.
  destruct r as [[n | s | |] |]; simpl; auto.
  repeat case_bool_decide; simpl; auto.
  right. split; [reflexivity |].
  simpl. repeat case_bool_decide; try reflexivity; contradiction.
Qed.



End Accessor.



(** ** Ratios that test their denominator *)

Section GuardedRatios.

Lemma ratio_NA : ratio (VStr DEFAULT_NA_STRING) = notFormatted DEFAULT_NA_STRING.
Proof. reflexivity. Qed.

Lemma percentage_NA :
  formatPercentageInternal (VStr DEFAULT_NA_STRING) DEFAULT_NA_STRING false
  = notFormatted DEFAULT_NA_STRING.
Proof. reflexivity. Qed.

Lemma num_eqb_zero (a : num) : num_eqb a (Fin 0) = true <-> a = Fin 0.
Proof.
  destruct a as [q | | |]; simpl; try (split; discriminate);
    apply bool_decide_eq_true.
Qed.

(** The guard [den !== 'N/A' && parseFloat(den) !== 0 && n !== 'N/A'] in
    front of a quotient. *)
Lemma guarded_quotient (n den : jsval) :
  guardedQuotient n den
    (ratio (if negb (strictEqStr den DEFAULT_NA_STRING)
               && negb (num_eqb (parseFloat den) (Fin 0))
               && negb (strictEqStr n DEFAULT_NA_STRING)
            then VNum (num_div (parseFloat n) (parseFloat den))
            else VStr DEFAULT_NA_STRING)).
Proof.
  unfold guardedQuotient, strictEqStr. split.
  - intros [-> | [Hz | ->]].
    + rewrite bool_decide_true by reflexivity. apply ratio_NA.
    + apply num_eqb_zero in Hz. rewrite Hz, andb_false_r. apply ratio_NA.
    + rewrite (bool_decide_true (VStr DEFAULT_NA_STRING = _)) by reflexivity.
      rewrite andb_false_r. apply ratio_NA.
  - intros Hd Hz Hn.
    rewrite !bool_decide_false by assumption.
    destruct (num_eqb (parseFloat den) (Fin 0)) eqn:E;
      [apply num_eqb_zero in E; contradiction | reflexivity].
Qed.

Lemma guarded_percent (part total : jsval) :
  guardedPercent part total
    (formatPercentageInternal (percentOfAssets part total) DEFAULT_NA_STRING
       false).
Proof.
  unfold guardedPercent, percentOfAssets, strictEqStr. split.
  - intros [Hz | ->].
    + rewrite Hz. apply percentage_NA.
    + rewrite bool_decide_true by reflexivity.
      rewrite andb_false_r. apply percentage_NA.
  - intros Hz Hp. rewrite Hz, bool_decide_false by assumption. reflexivity.
Qed.

End GuardedRatios.

(** X13: the ratios test their denominator.  The Current Ratio, the
    Operating Cash Flow to Net Income Ratio and the Debt-to-Equity Ratio
    show N/A when their denominator (the total current liabilities, the net
    income, the total equity) is N/A or parses to 0, and when their
    numerator is N/A; Goodwill and Intangibles as % of Total Assets show
    N/A unless the total assets parse to a number above 0, and when the
    part is N/A.  In every other case the metric is the formatted quotient
    of the two parsed values (times 100 for the percentages). *)
Theorem guarded_ratios_zero_denominator (fin : list yearRecord)
    (netIncomeRaw interestPaidCASRaw totalAssets goodwill intangibles
       : jsval) :
  (exists e,
     calculateLiquidityRatiosInternal fin !! 3%nat
     = Some ("Current Ratio"%string, e)
     /\ guardedQuotient (latest fin "BAL" "TotalCurrentAssets")
          (latest fin "BAL" "TotalCurrentLiabilities") e)
  /\ (exists e,
        fst (calculateCashFlowHealthMetricsInternal fin netIncomeRaw) !! 4%nat
        = Some ("Operating Cash Flow to Net Income Ratio"%string, e)
        /\ guardedQuotient
             (latest fin STMT_CAS FIN_KEY_CASH_FROM_OPERATING_ACTIVITIES)
             netIncomeRaw e)
  /\ (exists e,
        metrics (calculateFinancialHealthAndDebtMetricsInternal fin
                   interestPaidCASRaw) !! 3%nat
        = Some ("Debt-to-Equity Ratio"%string, plain e)
        /\ guardedQuotient (latest fin STMT_BAL FIN_KEY_TOTAL_DEBT)
             (latest fin STMT_BAL FIN_KEY_TOTAL_EQUITY) e)
  /\ (exists g t,
        calculateAssetQualityInsightsInternal totalAssets goodwill intangibles
        = [ ("Goodwill as % of Total Assets"%string, g);
            ("Intangibles as % of Total Assets"%string, t) ]
        /\ guardedPercent goodwill totalAssets g
        /\ guardedPercent intangibles totalAssets t).
Proof.
  split; [| split; [| split]].
  - eexists. split; [reflexivity | apply guarded_quotient].
  - eexists. split; [reflexivity | apply guarded_quotient].
  - eexists. split; [reflexivity | apply guarded_quotient].
  - do 2 eexists. split; [reflexivity |]. split; apply guarded_percent.
Qed.

Lemma guarded_ratios_zero_denominator_witness :
  calculateLiquidityRatiosInternal idle_year !! 3%nat
  = Some ("Current Ratio"%string, notFormatted DEFAULT_NA_STRING).
Proof.
  destruct (guarded_ratios_zero_denominator idle_year
              (VStr DEFAULT_NA_STRING) (VStr DEFAULT_NA_STRING)
              (VStr DEFAULT_NA_STRING) (VStr DEFAULT_NA_STRING)
              (VStr DEFAULT_NA_STRING))
    as [[e [He [Hna _]]] _].
  rewrite He. do 2 f_equal. apply Hna.
  right. left. vm_compute. reflexivity.
Defined.

(** ** Metrics with a missing component *)

Section MissingComponent.

Lemma num_add_0_r (a : num) : num_add a (Fin 0) = a.
Proof.
  destruct a as [q | | |]; try reflexivity.
  simpl. now rewrite Qcplus_0_r.
Qed.

End MissingComponent.

(** X14: a missing depreciation-and-amortization entry counts as 0, so
    EBITDA is then the operating income; likewise free cash flow is the
    operating cash flow when the capital expenditure is missing.  A
    missing operating income or operating cash flow is not replaced: the
    metric is N/A. *)
Theorem missing_component_counts_as_zero (fin : list yearRecord)
    (netIncomeRaw : jsval) :
  let ebitda := metric "EBITDA" (fst (calculateProfitabilityMetricsInternal fin)) in
  let fcf :=
    metric "Free Cash Flow (FCF)"
      (fst (calculateCashFlowHealthMetricsInternal fin netIncomeRaw)) in
  (latest fin STMT_INC FIN_KEY_DEPRECIATION_AMORTIZATION_INC
   = VStr DEFAULT_NA_STRING ->
   ebitda
   = Some (crores (VNum (parseFloat
                           (latest fin STMT_INC FIN_KEY_OPERATING_INCOME)))))
  /\ (latest fin STMT_CAS FIN_KEY_CAPITAL_EXPENDITURES
      = VStr DEFAULT_NA_STRING ->
      fcf
      = Some (crores (VNum (parseFloat
                              (latest fin STMT_CAS
                                 FIN_KEY_CASH_FROM_OPERATING_ACTIVITIES)))))
  /\ (latest fin STMT_INC FIN_KEY_OPERATING_INCOME = VStr DEFAULT_NA_STRING ->
      ebitda = Some (notFormatted DEFAULT_NA_STRING))
  /\ (latest fin STMT_CAS FIN_KEY_CASH_FROM_OPERATING_ACTIVITIES
      = VStr DEFAULT_NA_STRING ->
      fcf = Some (notFormatted DEFAULT_NA_STRING)).
Proof.
  cbv zeta. unfold calculateProfitabilityMetricsInternal,
    calculateCashFlowHealthMetricsInternal, latest.
  cbv zeta. cbn [fst]. unfold metric. cbn [find fst snd fmap option_fmap option_map].
  repeat split; intros H; rewrite H.
  - change (strictEqStr (VStr DEFAULT_NA_STRING) DEFAULT_NA_STRING) with true.
    cbv iota. change (parseFloat (VNum (Fin 0))) with (Fin 0).
    now rewrite num_add_0_r.
  - change (strictEqStr (VStr DEFAULT_NA_STRING) DEFAULT_NA_STRING) with true.
    cbv iota. change (parseFloat (VNum (Fin 0))) with (Fin 0).
    now rewrite num_add_0_r.
  - reflexivity.
  - reflexivity.
Qed.

Lemma missing_component_counts_as_zero_witness :
  metric "EBITDA" (fst (calculateProfitabilityMetricsInternal idle_year))
  = Some (crores (VNum (parseFloat
                          (latest idle_year STMT_INC
                             FIN_KEY_OPERATING_INCOME))))
  /\ metric "Free Cash Flow (FCF)"
       (fst (calculateCashFlowHealthMetricsInternal idle_year VNull))
     = Some (crores (VNum (parseFloat
                             (latest idle_year STMT_CAS
                                FIN_KEY_CASH_FROM_OPERATING_ACTIVITIES)))).
Proof.
  split.
  - apply (proj1 (missing_component_counts_as_zero idle_year VNull)).
    vm_compute. reflexivity.
  - apply (proj1 (proj2 (missing_component_counts_as_zero idle_year VNull))).
    vm_compute. reflexivity.
Defined.

(** ** Year-over-year growth *)

Section Growth.

Lemma finite_not_NA (v : jsval) (q : Qc) :
  parseFloat v = Fin q -> strictEqStr v DEFAULT_NA_STRING = false.
Proof.
  intros H. unfold strictEqStr. apply bool_decide_eq_false. intros ->.
  vm_compute in H. discriminate.
Qed.

Lemma Qcabs_pos_of_nonzero (p : Qc) : p <> 0 -> 0 < Qcabs p.
Proof.
  intros Hp. destruct (Qclt_le_dec p 0) as [Hneg | Hpos].
  - rewrite Qcabs_neg by now apply Qclt_le_weak.
    unfold Qclt in *. rewrite this_opp. change (this 0) with 0%Q in *. lra.
  - rewrite Qcabs_pos by exact Hpos.
    destruct (Qcle_lt_or_eq _ _ Hpos) as [H | H]; [exact H | congruence].
Qed.

Lemma scaled_sign (x a : Qc) :
  0 < a ->
  (0 < x / a * qc 100 <-> 0 < x) /\ (x / a * qc 100 < 0 <-> x < 0).
Proof.
  unfold Qclt. rewrite this_mult, this_div, this_qc.
  change (this 0) with 0%Q. intros Ha.
  assert (E : (this x == this x / this a * this a)%Q).
  { rewrite Qmult_comm, Qmult_div_r; [reflexivity | lra]. }
  set (y := (this x / this a)%Q) in *.
  split; split; intros H; nra.
Qed.

Lemma minus_sign (c p : Qc) :
  (0 < c - p <-> p < c) /\ (c - p < 0 <-> c < p).
Proof.
  unfold Qclt. rewrite this_minus. change (this 0) with 0%Q.
  split; split; lra.
Qed.

End Growth.

(** X15: for numeric current and previous values, year-over-year growth
    is N/A when the previous value is 0; otherwise it is
    [(current - previous) / |previous| * 100] in percent, coloured
    positive exactly when the current value is above the previous one and
    negative exactly when it is below, also for a negative previous
    value. *)
Theorem yoy_growth_sign (current previous : jsval) (c p : Qc) :
  parseFloat current = Fin c -> parseFloat previous = Fin p ->
  let g := calculateYoYGrowthInternal current previous DEFAULT_NA_STRING in
  (p = 0 -> g = notFormatted DEFAULT_NA_STRING)
  /\ (p <> 0 ->
      raw g = Fin ((c - p) / Qcabs p * qc 100)
      /\ value g = DFixed2 (raw g) /\ unit g = "%"%string
      /\ (colorClass g = "change-positive-text"%string <-> p < c)
      /\ (colorClass g = "change-negative-text"%string <-> c < p)).
Proof.
  intros Hc Hp. cbv zeta. unfold calculateYoYGrowthInternal. cbv zeta.
  rewrite (finite_not_NA _ _ Hc), (finite_not_NA _ _ Hp), Hc, Hp.
  cbn [isNaN orb]. split.
  - intros ->. reflexivity.
  - intros Hnz.
    assert (Hz : num_eqb (Fin p) (Fin 0) = false).
    { apply bool_decide_eq_false. congruence. }
    rewrite Hz. cbn [orb].
    pose proof (Qcabs_pos_of_nonzero p Hnz) as Habs.
    assert (Hg : num_mul
                   (num_div (num_sub (Fin c) (Fin p)) (Math_abs (Fin p)))
                   (Fin (qc 100))
                 = Fin ((c - p) / Qcabs p * qc 100)).
    { cbn [num_sub num_neg num_add Math_abs num_div]. unfold eqb.
      rewrite bool_decide_false; [reflexivity |].
      intros E. rewrite E in Habs. exact (irreflexivity Qclt _ Habs). }
    rewrite Hg. cbn [raw value unit colorClass].
    destruct (scaled_sign (c - p) (Qcabs p) Habs) as [S1 S2].
    destruct (minus_sign c p) as [M1 M2].
    assert (A : p < c -> c < p -> False).
    { intros H1 H2. exact (irreflexivity Qclt _ (Qclt_trans _ _ _ H1 H2)). }
    unfold signColor, num_gtb, num_ltb, ltb.
    repeat split; try reflexivity;
      repeat case_bool_decide; try discriminate; try tauto;
      intros; exfalso; tauto.
Qed.

Lemma yoy_growth_sign_witness :
  let g := calculateYoYGrowthInternal (VStr "-50") (VStr "-100")
             DEFAULT_NA_STRING in
  raw g = Fin ((qc (-50) - qc (-100)) / Qcabs (qc (-100)) * qc 100)
  /\ value g = DFixed2 (raw g) /\ unit g = "%"%string
  /\ (colorClass g = "change-positive-text"%string <-> qc (-100) < qc (-50))
  /\ (colorClass g = "change-negative-text"%string <-> qc (-50) < qc (-100)).
Proof.
  apply (yoy_growth_sign (VStr "-50") (VStr "-100") (qc (-50)) (qc (-100))).
  - vm_compute. reflexivity.
  - vm_compute. reflexivity.
  - vm_compute. discriminate.
Defined.

(** ** Comparison with the peer average *)

Section Comparison.

Lemma num_lt_asym (a b : num) : num_ltb a b = true -> num_ltb b a = false.
Proof.
  destruct a as [x | | |], b as [y | | |]; simpl;
    try discriminate; try reflexivity.
  unfold ltb. intros H. apply bool_decide_eq_true in H.
  apply bool_decide_eq_false. intros H'.
  exact (irreflexivity Qclt _ (Qclt_trans _ _ _ H H')).
Qed.

Lemma comparison_text (status word metricName : string) :
  ("(" ++ word ++ " " ++ metricName ++ " vs Peers)")%string <> ""%string.
Proof. discriminate. Qed.

End Comparison.

(** X16: for a metric other than RoE and Dividend Yield, the verdict with
    [lowerIsBetter] set is the verdict without it with "better" and
    "worse" exchanged, whatever the values.  A size comparison only says
    "higher", "lower" or "neutral", every other one "better", "worse" or
    "neutral"; the text is empty exactly when the verdict is "neutral";
    and a side that is N/A or absent gives "neutral". *)
Theorem peer_comparison_polarity (companyRaw : jsval)
    (peerAvgObj : option formatted) (metricName : string) (size : bool) :
  metricName <> "RoE"%string -> metricName <> "Dividend Yield"%string ->
  let verdict lower :=
    getPeerComparisonDetailsInternal companyRaw peerAvgObj metricName lower
      size in
  status (verdict true) = opposite (status (verdict false))
  /\ (forall lower,
        status (verdict lower)
        ∈ (if size then ["neutral"; "higher"; "lower"]
           else ["neutral"; "better"; "worse"])%string)
  /\ (forall lower,
        text (verdict lower) = ""%string
        <-> status (verdict lower) = "neutral"%string)
  /\ (companyRaw = VStr DEFAULT_NA_STRING \/ peerAvgObj = None
      \/ peerAvgObj = Some (notFormatted DEFAULT_NA_STRING) ->
      forall lower, verdict lower = neutral).
Proof.
  intros N1 N2. cbv zeta. unfold getPeerComparisonDetailsInternal. cbv zeta.
  rewrite !(bool_decide_false _ N1), !(bool_decide_false _ N2). cbn [orb].
  match goal with
  | |- context [if ?g then neutral else _] => destruct g eqn:G
  end.
  - repeat split; try reflexivity; intros; try reflexivity.
    destruct size; rewrite !elem_of_cons; auto.
  - set (c := parseFloat companyRaw) in *.
    set (a := match peerAvgObj with Some o => raw o | None => NaN end) in *.
    assert (X : num_gtb c a = true -> num_ltb c a = false)
      by apply num_lt_asym.
    split; [| split; [| split]].
    + destruct size;
        destruct (num_leb c (Fin 0) || num_leb a (Fin 0));
        destruct (num_gtb c a) eqn:Hgt;
        try rewrite (X eq_refl);
        destruct (num_ltb c a) eqn:Hlt; reflexivity.
    + intros lower. destruct size, lower;
        destruct (num_leb c (Fin 0) || num_leb a (Fin 0));
        destruct (num_gtb c a); destruct (num_ltb c a);
        cbn [status neutral]; rewrite !elem_of_cons; auto.
    + intros lower. destruct size, lower;
        destruct (num_leb c (Fin 0) || num_leb a (Fin 0));
        destruct (num_gtb c a); destruct (num_ltb c a);
        cbn [status text neutral]; split; intros H;
        try reflexivity; discriminate H.
    + subst c a. intros [-> | [-> | ->]] lower; exfalso; revert G;
        cbn [isNaN orb raw value notFormatted];
        rewrite ?orb_true_r; discriminate.
Qed.

Lemma peer_comparison_polarity_witness :
  let verdict lower :=
    getPeerComparisonDetailsInternal (VStr "18.5")
      (Some (formatRatioInternal (VNum (Fin (qc 24))) DEFAULT_NA_STRING))
      "P/E Ratio" lower false in
  status (verdict true) = opposite (status (verdict false))
  /\ (forall lower,
        status (verdict lower) ∈ ["neutral"; "better"; "worse"]%string)
  /\ (forall lower,
        text (verdict lower) = ""%string
        <-> status (verdict lower) = "neutral"%string)
  /\ (VStr "18.5" = VStr DEFAULT_NA_STRING
      \/ Some (formatRatioInternal (VNum (Fin (qc 24))) DEFAULT_NA_STRING)
         = None
      \/ Some (formatRatioInternal (VNum (Fin (qc 24))) DEFAULT_NA_STRING)
         = Some (notFormatted DEFAULT_NA_STRING) ->
      forall lower, verdict lower = neutral).
Proof.
  apply (peer_comparison_polarity (VStr "18.5")
           (Some (formatRatioInternal (VNum (Fin (qc 24))) DEFAULT_NA_STRING))
           "P/E Ratio" false); discriminate.
Defined.

(** ** Historical performance *)

(** X17: the historical-performance category has no metric with fewer
    than three yearly records, the three 3-year CAGR metrics with three
    or four, and the 3-year and 5-year metric of revenue, net income and
    diluted EPS, in that order, with five or more; every one of them is
    N/A, "Not Meaningful" or a percentage. *)
Theorem historical_performance_labels (Math_pow : num -> num -> num)
    (fin : list yearRecord) :
  let ms := calculateHistoricalPerformanceMetricsInternal Math_pow fin in
  fst <$> ms
  = (if (5 <=? length fin)%nat then
       [ "Revenue CAGR (3Y)"; "Revenue CAGR (5Y)";
         "Net Income CAGR (3Y)"; "Net Income CAGR (5Y)";
         "Diluted EPS CAGR (3Y)"; "Diluted EPS CAGR (5Y)" ]
     else if (3 <=? length fin)%nat then
       [ "Revenue CAGR (3Y)"; "Net Income CAGR (3Y)";
         "Diluted EPS CAGR (3Y)" ]
     else [])%string
  /\ Forall (fun m => snd m = notFormatted DEFAULT_NA_STRING
                      \/ value (snd m) = DText "Not Meaningful"
                      \/ (unit (snd m) = "%"%string
                          /\ value (snd m) = DFixed2 (raw (snd m)))) ms.
Proof.
  cbv zeta. unfold calculateHistoricalPerformanceMetricsInternal.
  assert (C : forall e s y,
            let f := calculateCAGRInternal Math_pow e s y DEFAULT_NA_STRING in
            f = notFormatted DEFAULT_NA_STRING
            \/ value f = DText "Not Meaningful"
            \/ (unit f = "%"%string /\ value f = DFixed2 (raw f))).
  { intros e s y. cbv zeta. unfold calculateCAGRInternal. cbv zeta.
    destruct (_ || _ || _ || _ || _ || _); [left; reflexivity |].
    destruct (_ || _); [right; left; reflexivity |].
    right; right. split; reflexivity. }
  unfold cagrMetricDefinitions. cbn [fold_left]. unfold historical_step.
  cbv zeta. cbn [key label statement].
  destruct (5 <=? length fin)%nat eqn:H5;
    destruct (3 <=? length fin)%nat eqn:H3.
  - split; [reflexivity |]. cbn [app].
    repeat (constructor; [apply C |]). constructor.
  - apply Nat.leb_le in H5. apply Nat.leb_gt in H3. lia.
  - split; [reflexivity |]. cbn [app].
    repeat (constructor; [apply C |]). constructor.
  - split; [reflexivity | constructor].
Qed.

(** ** The primary company's record and the peer list *)

Section PrimaryRecord.

Lemma findM_found {A} (f : A -> option bool) (l : list A) (x : A) :
  findM f l = Some (Some x) ->
  exists pre post, l = pre ++ x :: post /\ f x = Some true
                   /\ Forall (fun q => f q = Some false) pre.
Proof.
  induction l as [| y l IH]; simpl; [discriminate |].
  destruct (f y) as [[|] |] eqn:Hy; simpl; try discriminate.
  - intros [= ->]. exists [], l. repeat split; auto.
  - intros H. destruct (IH H) as (pre & post & -> & Hx & Hpre).
    exists (y :: pre), post. repeat split; auto.
Qed.

Lemma findM_not_found {A} (f : A -> option bool) (l : list A) :
  findM f l = Some None -> Forall (fun q => f q = Some false) l.
Proof.
  induction l as [| y l IH]; simpl; [constructor |].
  destruct (f y) as [[|] |] eqn:Hy; simpl; try discriminate.
  intros H. constructor; auto.
Qed.

Lemma tickerIs_spec (nse : string) (q : object) (b : bool) :
  tickerIs nse q = Some b -> b = bool_decide (peerTicker q = nse).
Proof.
  unfold tickerIs, peerTicker.
  destruct (getSafeInternal (Some (prop q "tickerId")) (VStr ""))
    as [? | t | |]; simpl; try discriminate.
  now intros [= <-].
Qed.

End PrimaryRecord.

(** X18: for a company with a non-empty NSE code, when some record of the
    peer list carries that code as its ticker, the primary company's
    record returned by the lookup is the first such record; and a
    returned record that carries the code is a record of the peer list
    that the adapter leaves out of [actualPeers], so the peer averages
    never include it. *)
Theorem primary_by_ticker_is_excluded (rawApiData : rawApiData)
    (nse : string) (p : object) (peers : list object) :
  nseCodeMain rawApiData = Some nse -> nse <> ""%string ->
  getPrimaryCompanyDataFromPeerListInternal rawApiData = Some p ->
  actualPeers rawApiData = Some peers ->
  (Exists (fun q => peerTicker q = nse) (allPeersRaw rawApiData) ->
   peerTicker p = nse)
  /\ (peerTicker p = nse ->
      (exists pre post,
         allPeersRaw rawApiData = pre ++ p :: post
         /\ Forall (fun q => peerTicker q <> nse) pre)
      /\ p ∉ peers).
Proof.
  intros Hnse Hne Hp Hpeers.
  unfold getPrimaryCompanyDataFromPeerListInternal in Hp.
  rewrite Hnse in Hp. cbn [mbind option_bind] in Hp.
  destruct (findM (tickerIs nse) (allPeersRaw rawApiData))
    as [[p' |] |] eqn:Hfind; cbn [mbind option_bind] in Hp;
    [| | discriminate].
  - injection Hp as ->.
    destruct (findM_found _ _ _ Hfind) as (pre & post & Hall & Hx & Hpre).
    apply tickerIs_spec in Hx. symmetry in Hx.
    apply bool_decide_eq_true in Hx.
    split; [intros _; exact Hx |]. intros _. split.
    + exists pre, post. split; [exact Hall |].
      eapply Forall_impl; [exact Hpre |]. intros q Hq Heq.
      apply tickerIs_spec in Hq. symmetry in Hq.
      apply bool_decide_eq_false in Hq. contradiction.
    + unfold actualPeers in Hpeers. rewrite Hnse in Hpeers.
      cbn [mbind option_bind] in Hpeers.
      destruct (companyNameMainShort rawApiData) as [short |];
        cbn [mbind option_bind] in Hpeers; [| discriminate].
      apply filterM_keepPeer in Hpeers. subst peers.
      rewrite list_elem_of_filter. intros [Hprim _].
      unfold is_primary in Hprim.
      rewrite (bool_decide_false _ Hne), (bool_decide_true _ Hx) in Hprim.
      discriminate.
  - apply findM_not_found in Hfind.
    assert (Hno : Forall (fun q => peerTicker q <> nse)
                    (allPeersRaw rawApiData)).
    { eapply Forall_impl; [exact Hfind |]. intros q Hq Heq.
      apply tickerIs_spec in Hq. symmetry in Hq.
      apply bool_decide_eq_false in Hq. contradiction. }
    assert (Hp' : p = ∅ \/ p ∈ allPeersRaw rawApiData).
    { destruct (toLowerCase <$> asString
                  (getSafeInternal (Some (companyName rawApiData)) (VStr "")))
        as [name |]; cbn [mbind option_bind] in Hp; [| discriminate].
      case_bool_decide; [left; congruence |].
      destruct (findM (nameIncludes (firstWord name))
                  (allPeersRaw rawApiData)) as [[p' |] |] eqn:Hname;
        cbn [mbind option_bind default] in Hp; try discriminate.
      - injection Hp as ->. right.
        destruct (findM_found _ _ _ Hname) as (pre & post & -> & _).
        apply elem_of_app. right. apply elem_of_cons. now left.
      - left. congruence. }
    assert (Hnot : peerTicker p <> nse).
    { destruct Hp' as [-> | Hin].
      - intros E. apply Hne. rewrite <- E. reflexivity.
      - rewrite Forall_forall in Hno. now apply Hno. }
    split.
    + intros Hex. apply Exists_exists in Hex as (q & Hq & Heq).
      rewrite Forall_forall in Hno. exfalso. exact (Hno q Hq Heq).
    + intros E. contradiction.
Qed.

Lemma primary_by_ticker_is_excluded_witness :
  (Exists (fun q => peerTicker q = "TCS"%string) (allPeersRaw sample_response) ->
   peerTicker (peer_record "TCS" "Tata Consultancy Services Ltd" 1000)
   = "TCS"%string)
  /\ (peerTicker (peer_record "TCS" "Tata Consultancy Services Ltd" 1000)
      = "TCS"%string ->
      (exists pre post,
         allPeersRaw sample_response
         = pre ++ peer_record "TCS" "Tata Consultancy Services Ltd" 1000
                  :: post
         /\ Forall (fun q => peerTicker q <> "TCS"%string) pre)
      /\ peer_record "TCS" "Tata Consultancy Services Ltd" 1000
         ∉ [ peer_record "INFY" "Infosys Ltd" 500;
             peer_record "WIPRO" "Wipro Ltd" 700 ]).
Proof.
  apply (primary_by_ticker_is_excluded sample_response).
  - vm_compute. reflexivity.
  - discriminate.
  - vm_compute. reflexivity.
  - vm_compute. reflexivity.
Defined.

(** ** From the raw statements to the accessor *)

Section RoundTrip.

Lemma getSafe_usable (v d : jsval) :
  usable v = true -> getSafeInternal (Some v) d = v.
Proof.
  destruct v as [n | s | |]; simpl; try discriminate; try reflexivity.
  repeat case_bool_decide; simpl; try discriminate; reflexivity.
Qed.

Lemma getSafe_idem (r : option jsval) (d : jsval) :
  getSafeInternal (Some (getSafeInternal r d)) d = getSafeInternal r d.
Proof.
  destruct (getSafe_cases r d) as [E | [_ U]].
  - rewrite E. destruct d as [n | s | |]; simpl; try reflexivity.
    repeat case_bool_decide; reflexivity.
  - now apply getSafe_usable.
Qed.

Lemma getSafe_defined (r : option jsval) :
  getSafeInternal r (VStr DEFAULT_NA_STRING) <> VUndefined.
Proof.
  destruct (getSafe_cases r (VStr DEFAULT_NA_STRING)) as [E | [_ U]].
  - rewrite E. discriminate.
  - intros E. rewrite E in U. discriminate.
Qed.

Lemma store_other (items : list item) (k : string) :
  Forall (fun j => keyOf j <> k) items ->
  forall m : object, fold_left store items m !! k = m !! k.
Proof.
  induction 1 as [| j items Hj _ IH]; intros m; simpl; [reflexivity |].
  rewrite IH. unfold store. now apply lookup_insert_ne.
Qed.

Lemma store_last (pre post : list item) (it : item) :
  Forall (fun j => keyOf j <> keyOf it) post ->
  transformItems (Some (pre ++ it :: post)) !! keyOf it
  = Some (getSafeInternal (Some (itemValue it)) (VStr DEFAULT_NA_STRING)).
Proof.
  intros Hpost. unfold transformItems. cbn [from_option id].
  rewrite fold_left_app. cbn [fold_left].
  rewrite (store_other post _ Hpost). unfold store at 1.
  apply lookup_insert_eq.
Qed.

End RoundTrip.

(** X19: a value that the adapter stores from a raw statement array is
    what the accessor reads back for the same year, statement and key:
    the value of the last item with that key, or N/A when that value is
    missing, empty or a dash.  (The key [__proto__], which JavaScript
    does not store as a property, is left aside.) *)
Theorem statement_round_trip (rawFinancials : list rawYear) (i : nat)
    (y : rawYear) (m : financialMap) (stmt : string) (pre post : list item)
    (it : item) :
  rawFinancials !! i = Some y -> stockFinancialMap y = Some m ->
  rawStatementOf stmt m = Some (pre ++ it :: post) ->
  Forall (fun j => keyOf j <> keyOf it) post ->
  keyOf it <> "__proto__"%string ->
  findFinancialByYearInternal
    (transformFinancialStatements (Some rawFinancials)) i stmt (keyOf it)
    (VStr DEFAULT_NA_STRING)
  = getSafeInternal (Some (itemValue it)) (VStr DEFAULT_NA_STRING).
Proof.
  intros Hy Hm Hs Hpost _.
  unfold findFinancialByYearInternal, transformFinancialStatements.
  rewrite list_lookup_fmap, Hy. cbn [fmap option_fmap option_map].
  unfold transformYear. cbv zeta. rewrite Hm.
  cbn [incomeStatement balanceSheet cashFlowStatement].
  unfold rawStatementOf in Hs.
  assert (P : forall items,
            items = Some (pre ++ it :: post) ->
            getSafeInternal
              (Some (if bool_decide
                          (prop (transformItems items) (keyOf it) = VUndefined)
                     then VStr DEFAULT_NA_STRING
                     else prop (transformItems items) (keyOf it)))
              (VStr DEFAULT_NA_STRING)
            = getSafeInternal (Some (itemValue it)) (VStr DEFAULT_NA_STRING)).
  { intros items ->. unfold prop. rewrite (store_last pre post it Hpost).
    cbn [from_option id].
    rewrite bool_decide_false by apply getSafe_defined.
    apply getSafe_idem. }
  destruct (bool_decide (stmt = STMT_INC)); [now apply P |].
  destruct (bool_decide (stmt = STMT_BAL)); [now apply P |].
  destruct (bool_decide (stmt = STMT_CAS)); [now apply P | discriminate].
Qed.

Lemma statement_round_trip_witness :
  findFinancialByYearInternal
    (transformFinancialStatements (Some sample_raw_years)) 0 STMT_INC
    "Revenue" (VStr DEFAULT_NA_STRING)
  = getSafeInternal (Some (VStr "1000")) (VStr DEFAULT_NA_STRING).
Proof.
  eapply (statement_round_trip sample_raw_years 0 _ _ STMT_INC
            [ {| itemKey := Some "Revenue"%string; itemValue := VStr "900" |};
             {| itemKey := Some "NetIncome"%string; itemValue := VStr "-" |} ]
           []
           {| itemKey := Some "Revenue"%string; itemValue := VStr "1000" |}).
  - reflexivity.
  - reflexivity.
  - reflexivity.
  - constructor.
  - vm_compute. discriminate.
Defined.

(** ** Votes and reasons *)

Section Tally.

Lemma scaled_pos (c w : Qc) : 0 < c -> 0 < w -> 0 < c * w.
Proof.
  intros Hc Hw. unfold Qclt in *. rewrite this_mult.
  change (this 0) with 0%Q in *. nra.
Qed.

Lemma const_pos (q : Q) : (0 < q)%Q -> 0 < qc q.
Proof.
  intros H. unfold Qclt. rewrite this_qc. exact H.
Qed.

Lemma app_not_nil {A} (l : list A) (x : A) : l ++ [x] <> [].
Proof. destruct l; discriminate. Qed.

Lemma bullish_tallied st amount reason :
  tallied st -> 0 < amount -> tallied (bullish st amount reason).
Proof.
  intros (HB & HR & _ & _) Ha. unfold tallied, bullish. simpl.
  split; [| split; [| split]]; try assumption.
  - unfold Qcle, Qclt in *. rewrite this_plus.
    change (this 0) with 0%Q in *. lra.
  - intros E. now apply app_not_nil in E.
  - intros _. unfold Qcle, Qclt in *. rewrite !this_plus.
    change (this 0) with 0%Q in *. lra.
Qed.

Lemma bearish_tallied st amount reason :
  tallied st -> 0 < amount -> tallied (bearish st amount reason).
Proof.
  intros (HB & HR & _ & _) Ha. unfold tallied, bearish. simpl.
  split; [| split; [| split]]; try assumption.
  - unfold Qcle, Qclt in *. rewrite this_plus.
    change (this 0) with 0%Q in *. lra.
  - intros E. now apply app_not_nil in E.
  - intros _. unfold Qcle, Qclt in *. rewrite !this_plus.
    change (this 0) with 0%Q in *. lra.
Qed.

Ltac tally :=
  repeat match goal with
         | |- tallied (if ?c then _ else _) => destruct c
         | |- tallied (match ?c with _ => _ end) => destruct c
         | |- tallied (bullish _ _ _) => apply bullish_tallied
         | |- tallied (bearish _ _ _) => apply bearish_tallied
         | |- 0 < _ * _ => apply scaled_pos
         | |- 0 < qc _ => apply const_pos; lra
         | |- 0 < 1 => apply (const_pos 1); lra
         end;
  try assumption.

Lemma fold_tallied {A} (f : score -> A -> score) (l : list A) :
  (forall st x, tallied st -> tallied (f st x)) ->
  forall st, tallied st -> tallied (fold_left f l st).
Proof.
  intros Hf. induction l as [| x l IH]; intros st H; simpl; auto.
Qed.

Lemma scoreTimeframe_tallied (currentPrice : Qc) (st : score)
    (tf : timeframe) :
  0 < weight tf -> tallied st -> tallied (scoreTimeframe currentPrice st tf).
Proof.
  intros Hw H. unfold scoreTimeframe. destruct (data tf) as [e | ind];
    [exact H |].
  cbv zeta.
  assert (H1 : tallied (fold_left
                          (scoreSMA (name tf) (weight tf) currentPrice
                             (smas ind)) SMA_PERIODS st)).
  { apply fold_tallied; [| exact H]. intros s p Hs. unfold scoreSMA. tally. }
  assert (H2 : tallied (fold_left
                          (scoreEMA (name tf) (weight tf) currentPrice
                             (emas ind)) EMA_PERIODS
                          (fold_left
                             (scoreSMA (name tf) (weight tf) currentPrice
                                (smas ind)) SMA_PERIODS st))).
  { apply fold_tallied; [| exact H1]. intros s p Hs. unfold scoreEMA. tally. }
  revert H2. generalize (fold_left
                          (scoreEMA (name tf) (weight tf) currentPrice
                             (emas ind)) EMA_PERIODS
                          (fold_left
                             (scoreSMA (name tf) (weight tf) currentPrice
                                (smas ind)) SMA_PERIODS st)).
  intros s2 H2.
  assert (H3 : tallied (scoreMACD (name tf) (weight tf) (macdOf ind) s2))
    by (unfold scoreMACD; tally).
  revert H3. generalize (scoreMACD (name tf) (weight tf) (macdOf ind) s2).
  intros s3 H3.
  assert (H4 : tallied (scoreRSI (name tf) (weight tf) (rsi ind) s3))
    by (unfold scoreRSI; tally).
  revert H4. generalize (scoreRSI (name tf) (weight tf) (rsi ind) s3).
  intros s4 H4.
  assert (H5 : tallied (scoreVWAP (name tf) (weight tf) currentPrice
                          (vwap ind) s4))
    by (unfold scoreVWAP; tally).
  revert H5. generalize (scoreVWAP (name tf) (weight tf) currentPrice
                           (vwap ind) s4).
  intros s5 H5. unfold scoreOBV. tally.
Qed.

Lemma scoreAll_tallied (currentPrice : Qc) (d w m : tfdata) :
  tallied (scoreAll currentPrice d w m).
Proof.
  unfold scoreAll, timeframes. cbn [fold_left].
  repeat (apply scoreTimeframe_tallied;
          [cbn [weight]; first [apply (const_pos 1) | apply const_pos]; lra |]).
  unfold tallied, score0. simpl.
  repeat split; try apply Qcle_refl; try reflexivity.
  intros E. congruence.
Qed.

End Tally.

(** X20: for the scores accumulated over the three time frames, the
    signal is "Not Enough Data for Signal" exactly when no rule fired,
    which is exactly when both scores are 0; the card then shows the one
    fixed reason and two zero scores.  In every case it shows between 1
    and 15 reasons. *)
Theorem no_signal_iff_no_vote (currentPrice : Qc) (d w m : tfdata) :
  let st := scoreAll currentPrice d w m in
  let s := signalOfScore st in
  (signalText s = "Not Enough Data for Signal"%string
   <-> signalReasons st = [])
  /\ (signalReasons st = []
      <-> totalBullishScore st = 0 /\ totalBearishScore st = 0)
  /\ (signalReasons st = [] ->
      reasons s
      = "No strong directional signals based on current rules."%string :: nil
      /\ scoreBullish s = 0 /\ scoreBearish s = 0)
  /\ (1 <= length (reasons s) <= 15)%nat.
Proof.
  cbv zeta. pose proof (scoreAll_tallied currentPrice d w m) as T.
  revert T. generalize (scoreAll currentPrice d w m). intros st T.
  destruct T as (HB & HR & Hquiet & Hloud).
  assert (Hzero : totalBullishScore st = 0 /\ totalBearishScore st = 0 ->
                  signalReasons st = []).
  { intros [EB ER]. destruct (signalReasons st) as [| r rs] eqn:E;
      [reflexivity |].
    exfalso. assert (Hne : r :: rs <> []) by discriminate.
    specialize (Hloud Hne). rewrite EB, ER in Hloud.
    revert Hloud. apply Qcle_not_lt. unfold Qcle. rewrite this_plus.
    change (this 0) with 0%Q. lra. }
  split; [| split; [| split]].
  - unfold signalOfScore. cbn [signalText]. unfold finalSignal. cbv zeta.
    destruct ((length (signalReasons st) =? 0)%nat
              && eqb (totalBullishScore st) 0
              && eqb (totalBearishScore st) 0) eqn:Hnv.
    + split; [| reflexivity]. intros _.
      apply andb_true_iff in Hnv as [Hnv _].
      apply andb_true_iff in Hnv as [Hnv _].
      apply Nat.eqb_eq in Hnv. now apply length_zero_iff_nil.
    + split.
      * destruct (gtb _ _); [discriminate |].
        destruct (gtb _ _); discriminate.
      * intros E. destruct (Hquiet E) as [EB ER]. exfalso.
        rewrite E, EB, ER in Hnv. unfold eqb in Hnv.
        rewrite !bool_decide_true in Hnv by reflexivity. discriminate.
  - split; [exact Hquiet | exact Hzero].
  - intros E. destruct (Hquiet E) as [EB ER].
    unfold signalOfScore. cbn [reasons scoreBullish scoreBearish].
    rewrite E, EB, ER. repeat split; try reflexivity; qc_eq.
  - unfold signalOfScore. cbn [reasons].
    destruct (0 <? length (signalReasons st))%nat eqn:Hl.
    + apply Nat.ltb_lt in Hl. rewrite length_take. lia.
    + simpl. lia.
Qed.

(** ** From the price series to the moving-average votes *)

Section MovingAverageVotes.

Variables (tfName : string) (tfWeight currentPrice : Qc).
Variable prices : list Qc.

Lemma latestOf_number (series : list Qc) :
  (0 < length series)%nat -> latestOf series = SNum (lastOf series).
Proof.
  intros H. unfold latestOf. apply Nat.ltb_lt in H. now rewrite H.
Qed.

Lemma smaValue_cases (p : nat) :
  if decide (p <= length prices)%nat
  then exists x, smaValue prices p = SNum x
  else smaValue prices p = SNull.
Proof.
  unfold smaValue. destruct (decide (p <= length prices)%nat) as [H | H].
  - apply Nat.leb_le in H as H'. rewrite H'. eexists.
    apply latestOf_number. rewrite sma_length by exact H. lia.
  - apply Nat.leb_nle in H. now rewrite H.
Qed.

Lemma emaValue_cases (p : nat) :
  if decide (p <= length prices)%nat
  then exists x, emaValue prices p = SNum x
  else emaValue prices p = SNull.
Proof.
  unfold emaValue. destruct (decide (p <= length prices)%nat) as [H | H].
  - apply Nat.leb_le in H as H'. rewrite H'. eexists.
    apply latestOf_number. rewrite ema_length by exact H. lia.
  - apply Nat.leb_nle in H. now rewrite H.
Qed.

Lemma scoreSMA_one_vote :
  one_vote tfWeight prices
    (scoreSMA tfName tfWeight currentPrice (smaValue prices)).
Proof.
  intros st p. unfold scoreSMA. pose proof (smaValue_cases p) as C.
  destruct (decide (p <= length prices)%nat).
  - destruct C as [x ->]. cbn [notNull].
    destruct (js_gt _ _); cbn [bullish bearish totalBullishScore
      totalBearishScore signalReasons]; rewrite length_app;
      split; try reflexivity; ring.
  - rewrite C. cbn [notNull]. split; [ring | lia].
Qed.

Lemma scoreEMA_one_vote :
  one_vote tfWeight prices
    (scoreEMA tfName tfWeight currentPrice (emaValue prices)).
Proof.
  intros st p. unfold scoreEMA. pose proof (emaValue_cases p) as C.
  destruct (decide (p <= length prices)%nat).
  - destruct C as [x ->]. cbn [notNull].
    destruct (js_gt _ _); cbn [bullish bearish totalBullishScore
      totalBearishScore signalReasons]; rewrite length_app;
      split; try reflexivity; ring.
  - rewrite C. cbn [notNull]. split; [ring | lia].
Qed.

Lemma fold_votes (f : score -> nat -> score) (periods : list nat) :
  one_vote tfWeight prices f ->
  forall st,
    let k := length (filter (fun p => (p <= length prices)%nat) periods) in
    let st' := fold_left f periods st in
    totalBullishScore st' + totalBearishScore st'
    = totalBullishScore st + totalBearishScore st + of_nat k * tfWeight
    /\ length (signalReasons st') = (length (signalReasons st) + k)%nat.
Proof.
  intros Hf. induction periods as [| p periods IH]; intros st; cbv zeta.
  - simpl. split; [| lia].
    replace (of_nat 0) with 0 by qc_eq. ring.
  - cbn [fold_left]. destruct (IH (f st p)) as [IH1 IH2].
    destruct (Hf st p) as [H1 H2].
    rewrite IH1, IH2, H1, H2, filter_cons.
    destruct (decide (p <= length prices)%nat); cbn [length].
    + rewrite of_nat_S. split; [ring | lia].
    + split; [ring | lia].
Qed.

End MovingAverageVotes.

(** X21: in a time frame, every simple and every exponential moving
    average that the price series is long enough for (20, 50 and 200
    points) casts exactly one vote of the time frame's weight, bullish or
    bearish, with one reason; the shorter ones cast none.  So the two
    moving-average blocks add [2 k] reasons and [2 k] times the weight to
    the sum of the two scores, [k] being the number of those periods. *)
Theorem moving_average_votes (tfName : string) (tfWeight currentPrice : Qc)
    (prices : list Qc) (st : score) :
  let k := length (filter (fun p => (p <= length prices)%nat) SMA_PERIODS) in
  let st1 :=
    fold_left (scoreSMA tfName tfWeight currentPrice (smaValue prices))
      SMA_PERIODS st in
  let st2 :=
    fold_left (scoreEMA tfName tfWeight currentPrice (emaValue prices))
      EMA_PERIODS st1 in
  totalBullishScore st2 + totalBearishScore st2
  = totalBullishScore st + totalBearishScore st + of_nat (2 * k) * tfWeight
  /\ length (signalReasons st2) = (length (signalReasons st) + 2 * k)%nat.
Proof.
  cbv zeta.
  destruct (fold_votes tfWeight prices _ SMA_PERIODS
              (scoreSMA_one_vote tfName tfWeight currentPrice prices) st)
    as [S1 S2].
  destruct (fold_votes tfWeight prices _ EMA_PERIODS
              (scoreEMA_one_vote tfName tfWeight currentPrice prices)
              (fold_left
                 (scoreSMA tfName tfWeight currentPrice (smaValue prices))
                 SMA_PERIODS st))
    as [E1 E2].
  cbv zeta in *. rewrite E1, E2, S1, S2.
  change EMA_PERIODS with SMA_PERIODS.
  set (k := length (filter (fun p => (p <= length prices)%nat) SMA_PERIODS)).
  split; [| lia].
  replace (of_nat (2 * k)) with (of_nat k + of_nat k); [ring |].
  apply Qc_is_canon. rewrite this_plus, !this_of_nat.
  rewrite <- inject_Z_plus. f_equiv. lia.
Qed.

(** ** Order of the Bollinger bands *)

Section BandOrder.

Variable sqrt : Qc -> Qc.
Hypothesis sqrt_nonneg : forall x, 0 <= x -> 0 <= sqrt x.




End BandOrder.





(** ** Cleaning of the daily series *)

Section DailyCleaning.

Lemma clean_step_kept (byTs : gmap Z jsval) (acc : list Cleaning.point)
    (priceItem : Z * jsval) :
  Cleaning.clean_step byTs acc priceItem
  = acc ++ match Cleaning.kept byTs priceItem with
           | Some pt => [pt]
           | None => []
           end.
Proof.
  unfold Cleaning.kept, Cleaning.clean_step. cbv zeta.
  destruct (negb (isNaN _) && negb (isNaN _)); simpl;
    [reflexivity | now rewrite app_nil_r].
Qed.

Lemma clean_fold (byTs : gmap Z jsval) (rows : list (Z * jsval)) :
  forall acc,
    fold_left (Cleaning.clean_step byTs) rows acc
    = acc ++ omap (Cleaning.kept byTs) rows.
Proof.
  induction rows as [| r rows IH]; intros acc; simpl.
  - now rewrite app_nil_r.
  - rewrite IH, clean_step_kept.
    destruct (Cleaning.kept byTs r); simpl; rewrite <- app_assoc; reflexivity.
Qed.

Lemma kept_valid (byTs : gmap Z jsval) (r : Z * jsval) (pt : Cleaning.point) :
  Cleaning.kept byTs r = Some pt ->
  Cleaning.timestamp pt = fst r
  /\ Cleaning.price pt = parseFloat (snd r)
  /\ isNaN (Cleaning.price pt) = false
  /\ isNaN (Cleaning.volume pt) = false
  /\ exists v, byTs !! fst r = Some v /\ Cleaning.volume pt = parseFloat v.
Proof.
  unfold Cleaning.kept, Cleaning.clean_step. cbv zeta.
  destruct (negb (isNaN (parseFloat r.2))) eqn:Hp; [| discriminate].
  cbn [andb].
  destruct (byTs !! r.1) as [v |] eqn:Hv; cbn [from_option id];
    [| rewrite bool_decide_true by reflexivity; discriminate].
  case_bool_decide as Hu; cbn [negb].
  - discriminate.
  - destruct (negb (isNaN (parseFloat v))) eqn:Hvol; [| discriminate].
    simpl. intros [= <-]. cbn.
    apply negb_true_iff in Hp, Hvol. repeat split; try assumption.
    exists v. split; reflexivity.
Qed.

Lemma kept_complete (byTs : gmap Z jsval) (ts : Z) (p v : jsval) :
  byTs !! ts = Some v ->
  isNaN (parseFloat p) = false -> isNaN (parseFloat v) = false ->
  Cleaning.kept byTs (ts, p)
  = Some {| Cleaning.timestamp := ts; Cleaning.price := parseFloat p;
            Cleaning.volume := parseFloat v |}.
Proof.
  intros Hlook Hp Hv. unfold Cleaning.kept, Cleaning.clean_step.
  cbv zeta. cbn [fst snd]. rewrite Hlook. cbn [from_option id].
  assert (Hu : v <> VUndefined) by (intros ->; discriminate Hv).
  rewrite (bool_decide_false _ Hu). cbn [negb].
  rewrite Hp, Hv. reflexivity.
Qed.

(** [new Map(entries)]: a later entry replaces an earlier one with the
    same key. *)
Lemma volume_map_last (rows : list (Z * jsval)) (ts : Z) :
  forall m : gmap Z jsval,
    fold_left (fun m item => <[fst item := snd item]> m) rows m !! ts
    = match last (filter (fun r => fst r = ts) rows) with
      | Some r => Some (snd r)
      | None => m !! ts
      end.
Proof.
  induction rows as [| [t w] rows IH]; intros m; [reflexivity |].
  cbn [fold_left fst snd]. rewrite IH.
  rewrite filter_cons. cbn [fst]. destruct (decide (t = ts)) as [-> | Hne].
  - rewrite last_cons. destruct (last _); [reflexivity |].
    now rewrite lookup_insert_eq.
  - destruct (last _); [reflexivity |].
    now rewrite lookup_insert_ne.
Qed.

End DailyCleaning.

(** X24: the volume Map holds, for a timestamp, the value of the last
    volume row with that timestamp.  Every point of the cleaned daily
    series comes from a price row: it carries the row's timestamp, the
    row's parsed price and the parsed value that the Map holds for the
    timestamp, both numbers; conversely every price row whose price
    parses to a number and whose timestamp has a Map value that parses to
    a number gives its point.  The points keep the order of the price
    rows.  Without any volume row nothing is kept; an empty series ends
    the analysis with the error [No valid combined daily price and volume
    data points found after cleaning.], and a series with a point is
    passed on. *)
Theorem cleaning_keeps_valid_days (rawPriceValues : list (Z * jsval))
    (volumeValues : option (list (Z * jsval))) :
  let byTs := Cleaning.rawVolumeValuesByTs volumeValues in
  let combined := Cleaning.combinedDailyData rawPriceValues volumeValues in
  let cleaned := Cleaning.cleanedDailyData rawPriceValues volumeValues in
  (forall ts : Z,
     byTs !! ts
     = snd <$> last (filter (fun r => fst r = ts) (default [] volumeValues)))
  /\ Forall (fun pt =>
               exists p v,
                 (Cleaning.timestamp pt, p) ∈ rawPriceValues
                 /\ Cleaning.price pt = parseFloat p
                 /\ isNaN (Cleaning.price pt) = false
                 /\ byTs !! Cleaning.timestamp pt = Some v
                 /\ Cleaning.volume pt = parseFloat v
                 /\ isNaN (Cleaning.volume pt) = false) combined
  /\ (forall (ts : Z) (p v : jsval),
        (ts, p) ∈ rawPriceValues -> byTs !! ts = Some v ->
        isNaN (parseFloat p) = false -> isNaN (parseFloat v) = false ->
        {| Cleaning.timestamp := ts; Cleaning.price := parseFloat p;
           Cleaning.volume := parseFloat v |} ∈ combined)
  /\ (Cleaning.timestamp <$> combined) `sublist_of` (fst <$> rawPriceValues)
  /\ (length combined <= length rawPriceValues)%nat
  /\ (default [] volumeValues = [] -> combined = [])
  /\ (combined = [] ->
      cleaned = inl "No valid combined daily price and volume data points found after cleaning."%string)
  /\ (combined <> [] -> cleaned = inr combined).
Proof.
  cbv zeta. unfold Cleaning.cleanedDailyData, Cleaning.combinedDailyData.
  cbv zeta. rewrite clean_fold. cbn [app].
  set (byTs := Cleaning.rawVolumeValuesByTs volumeValues).
  split; [| split; [| split; [| split; [| split; [| split; [| split]]]]]].
  - intros ts. unfold byTs, Cleaning.rawVolumeValuesByTs.
    rewrite volume_map_last, lookup_empty.
    destruct (last _); reflexivity.
  - apply Forall_forall. intros pt Hpt.
    apply list_elem_of_omap in Hpt as ([ts p] & Hin & Hr).
    destruct (kept_valid _ _ _ Hr) as (Ht & Hprice & Hp & Hv & v & Hlook & Hvol).
    cbn [fst snd] in *. exists p, v. rewrite Ht.
    repeat split; assumption.
  - intros ts p v Hin Hlook Hp Hv.
    apply list_elem_of_omap. exists (ts, p). split; [exact Hin |].
    apply kept_complete; assumption.
  - induction rawPriceValues as [| r rows IH]; simpl; [constructor |].
    destruct (Cleaning.kept byTs r) as [pt |] eqn:Hr; simpl.
    + destruct (kept_valid _ _ _ Hr) as (-> & _). now constructor.
    + now constructor.
  - induction rawPriceValues as [| r rows IH]; [simpl; lia |].
    change (omap (Cleaning.kept byTs) (r :: rows))
      with (match Cleaning.kept byTs r with
            | Some y => y :: omap (Cleaning.kept byTs) rows
            | None => omap (Cleaning.kept byTs) rows
            end).
    destruct (Cleaning.kept byTs r); cbn [length]; lia.
  - intros Hnone.
    induction rawPriceValues as [| r rows IH]; simpl; [reflexivity |].
    destruct (Cleaning.kept byTs r) as [pt |] eqn:Hr; [| exact IH].
    destruct (kept_valid _ _ _ Hr) as (_ & _ & _ & _ & v & Hlook & _).
    unfold byTs, Cleaning.rawVolumeValuesByTs in Hlook.
    rewrite Hnone in Hlook. simpl in Hlook.
    rewrite lookup_empty in Hlook. discriminate.
  - intros ->. reflexivity.
  - intros Hne. destruct (omap (Cleaning.kept byTs) rawPriceValues);
      [contradiction | reflexivity].
Qed.

(** ** Resampled prices are daily closes *)

Section ResampleCloses.

Context {N : Type} {arith : Addition N}.

Variable getDay : epoch_ms -> Z.
Variable addDays : epoch_ms -> Z -> epoch_ms.
Variable startOfDay : epoch_ms -> epoch_ms.
Variable getFullYear : epoch_ms -> Z.
Variable getMonth : epoch_ms -> Z.
Variable firstOfMonth : Z -> Z -> epoch_ms.

Let weekly_step := weekly_step (N := N) getDay addDays startOfDay.
Let weekly_loop := weekly_loop (N := N) getDay addDays startOfDay.
Let monthly_step := monthly_step (N := N) getFullYear getMonth firstOfMonth.
Let monthly_loop := monthly_loop (N := N) getFullYear getMonth firstOfMonth.

Lemma weekly_loop_closes (days : list (epoch_ms * N * N)) :
  forall st, waligned (wout st) ->
    exists l,
      weeklyPrices (wout (weekly_loop st days)) = weeklyPrices (wout st) ++ l
      /\ l `sublist_of` ((snd ∘ fst) <$> days).
Proof.
  induction days as [| [[ts price] volume] days IH]; intros st Hal.
  - exists []. split; [now rewrite app_nil_r | constructor].
  - change (weekly_loop st ((ts, price, volume) :: days))
      with (weekly_loop
              (weekly_step st ts price volume (fst ∘ fst <$> head days))
              days).
    destruct (weekly_step_out getDay addDays startOfDay st ts price volume
                (fst ∘ fst <$> head days) Hal) as (Hal1 & Hgrow & _).
    fold weekly_step in Hal1, Hgrow.
    destruct (IH _ Hal1) as (l & Hl & Hsub). rewrite Hl.
    destruct Hgrow as [-> | ->].
    + exists l. split; [reflexivity |]. now apply sublist_cons.
    + exists (price :: l). split; [now rewrite <- app_assoc |].
      now apply sublist_skip.
Qed.

Lemma monthly_loop_closes (days : list (epoch_ms * N * N)) :
  forall st, maligned (mout st) ->
    exists l,
      monthlyPrices (mout (monthly_loop st days))
      = monthlyPrices (mout st) ++ l
      /\ l `sublist_of` ((snd ∘ fst) <$> days).
Proof.
  induction days as [| [[ts price] volume] days IH]; intros st Hal.
  - exists []. split; [now rewrite app_nil_r | constructor].
  - change (monthly_loop st ((ts, price, volume) :: days))
      with (monthly_loop
              (monthly_step st ts price volume (fst ∘ fst <$> head days))
              days).
    destruct (monthly_step_out getFullYear getMonth firstOfMonth st ts price
                volume (fst ∘ fst <$> head days) Hal) as (Hal1 & Hgrow & _).
    fold monthly_step in Hal1, Hgrow.
    destruct (IH _ Hal1) as (l & Hl & Hsub). rewrite Hl.
    destruct Hgrow as [-> | ->].
    + exists l. split; [reflexivity |]. now apply sublist_cons.
    + exists (price :: l). split; [now rewrite <- app_assoc |].
      now apply sublist_skip.
Qed.

Lemma combine_prices (ps : list (epoch_ms * N)) (vs : list N) :
  length ps = length vs -> (snd ∘ fst) <$> combine ps vs = snd <$> ps.
Proof.
  revert vs. induction ps as [| p ps IH]; intros [| v vs] H;
    simpl in H; try discriminate; [reflexivity |].
  simpl. f_equal. apply IH. lia.
Qed.

End ResampleCloses.

(** X25: every weekly price and every monthly price is one of the daily
    prices, and they come in the order of the days: the resampled price
    series is a subsequence of the daily one, whatever the calendar. *)
Theorem resample_prices_are_closes
    (getDay : epoch_ms -> Z) (addDays : epoch_ms -> Z -> epoch_ms)
    (startOfDay : epoch_ms -> epoch_ms)
    (getFullYear getMonth : epoch_ms -> Z) (firstOfMonth : Z -> Z -> epoch_ms)
    (dailyPricesWithTimestamps : list (epoch_ms * Qc))
    (dailyVolumes : list Qc) :
  weeklyPrices
    (resampleToWeeklyInternal getDay addDays startOfDay
       dailyPricesWithTimestamps dailyVolumes)
  `sublist_of` (snd <$> dailyPricesWithTimestamps)
  /\ monthlyPrices
       (resampleToMonthlyInternal getFullYear getMonth firstOfMonth
          dailyPricesWithTimestamps dailyVolumes)
     `sublist_of` (snd <$> dailyPricesWithTimestamps).
Proof.
  unfold resampleToWeeklyInternal, resampleToMonthlyInternal.
  destruct (Nat.eqb_spec (length dailyPricesWithTimestamps)
              (length dailyVolumes)) as [Hlen | Hlen]; cbn [negb orb];
    [| split; apply sublist_nil_l].
  destruct (length dailyPricesWithTimestamps =? 0)%nat;
    [split; apply sublist_nil_l |].
  rewrite <- (combine_prices _ _ Hlen). split.
  - destruct (weekly_loop_closes getDay addDays startOfDay
                (combine dailyPricesWithTimestamps dailyVolumes) wstate0)
      as (l & -> & Hsub); [split; reflexivity | exact Hsub].
  - destruct (monthly_loop_closes getFullYear getMonth firstOfMonth
                (combine dailyPricesWithTimestamps dailyVolumes) mstate0)
      as (l & -> & Hsub); [split; reflexivity | exact Hsub].
Qed.


